(** * zenchi-keep: notification scheduling, settings and offline cache

    A shallow embedding of the parts of the zenchi-keep sources that the
    specification's testable properties talk about, with the properties
    stated and proved over the embedding.

    Conventions.
    - JavaScript strings are [string] (8-bit code units); numbers that the
      code only uses as integers are [Z]; [NaN] is [None].
    - A [Date] is its epoch-millisecond value; the local time zone has a
      constant offset (no daylight-saving transition), see [Module Clock].
    - Module-level mutable objects ([Map]s of timers, caches, the
      [localStorage]) are explicit state, threaded through the functions. *)

From stdpp Require Import base numbers strings list gmap option pretty sorting.
From Stdlib Require Import ZArith Lia Ascii String.

Local Open Scope string_scope.
Local Open Scope Z_scope.

(** ** JavaScript primitives used by the sources *)

Module JS.

Definition code (c : ascii) : Z := Z.of_N (N_of_ascii c).

(** Decimal digit value of a character, [None] when it is not a digit. *)
Definition digit_val (c : ascii) : option Z :=
  let n := code c in
  if (48 <=? n) && (n <=? 57) then Some (n - 48) else None.

(** Hexadecimal digit value ([0-9a-fA-F]). *)
Definition hex_val (c : ascii) : option Z :=
  let n := code c in
  if (48 <=? n) && (n <=? 57) then Some (n - 48)
  else if (97 <=? n) && (n <=? 102) then Some (n - 87)
  else if (65 <=? n) && (n <=? 70) then Some (n - 55)
  else None.

(** [StrWhiteSpaceChar] restricted to 8-bit code units: TAB, LF, VT, FF,
    CR, SP and NBSP. *)
Definition is_white (c : ascii) : bool :=
  let n := code c in
  ((9 <=? n) && (n <=? 13)) || (n =? 32) || (n =? 160).

Fixpoint trim_start (s : string) : string :=
  match s with
  | String c r => if is_white c then trim_start r else s
  | EmptyString => s
  end.

(** The longest prefix of radix digits, read most significant first. *)
Fixpoint digits_go (radix : Z) (val : ascii -> option Z) (acc : Z)
    (s : string) : Z :=
  match s with
  | String c r =>
      match val c with
      | Some d => digits_go radix val (acc * radix + d) r
      | None => acc
      end
  | EmptyString => acc
  end.

(** [parseInt(s)] with no radix argument: leading white space is skipped,
    a sign is read, a [0x]/[0X] prefix selects radix 16, and the longest
    digit prefix is the value; no digit at all is [NaN].  The result is
    the exact integer; JavaScript rounds it to a double, which is
    monotone, fixes every integer of magnitude below 2^53 and maps no
    non-zero integer to zero, so the tests and clamps below agree. *)
Definition parseInt (s : string) : option Z :=
  let s1 := trim_start s in
  let '(sign, s2) :=
    match s1 with
    | String "-" r => (-1, r)
    | String "+" r => (1, r)
    | _ => (1, s1)
    end in
  let '(radix, val, s3) :=
    match s2 with
    | String "0" (String "x" r) => (16, hex_val, r)
    | String "0" (String "X" r) => (16, hex_val, r)
    | _ => (10, digit_val, s2)
    end in
  match s3 with
  | String c _ =>
      match val c with
      | Some _ => Some (sign * digits_go radix val 0 s3)
      | None => None
      end
  | EmptyString => None
  end.

(** [s.startsWith(p)] *)
Fixpoint startsWith (p s : string) : bool :=
  match p, s with
  | EmptyString, _ => true
  | String a p', String b s' => if decide (a = b) then startsWith p' s' else false
  | String _ _, EmptyString => false
  end.

(** [s.includes(p)] *)
Fixpoint includes (p s : string) : bool :=
  startsWith p s ||
  match s with
  | String _ s' => includes p s'
  | EmptyString => false
  end.

(** [s.substring(n)] for [0 <= n]. *)
Fixpoint substring_from (n : nat) (s : string) : string :=
  match n, s with
  | O, _ => s
  | S n', String _ s' => substring_from n' s'
  | S _, EmptyString => EmptyString
  end.

(** [s.split(sep)] for a one-character separator. *)
Fixpoint split_go (sep : ascii) (cur : string) (s : string) : list string :=
  match s with
  | EmptyString => [String.rev cur]
  | String c r =>
      if decide (c = sep) then String.rev cur :: split_go sep EmptyString r
      else split_go sep (String c cur) r
  end.

Definition split (sep : ascii) (s : string) : list string :=
  split_go sep EmptyString s.

(** [s.trim()]: white space is dropped at both ends. *)
Fixpoint trim_end (s : string) : string :=
  match s with
  | EmptyString => EmptyString
  | String c r =>
      match trim_end r with
      | EmptyString => if is_white c then EmptyString else String c EmptyString
      | r' => String c r'
      end
  end.

Definition trim (s : string) : string := trim_end (trim_start s).

(** [a < b] on strings: the code units are compared from the left. *)
Fixpoint ltb (a b : string) : bool :=
  match a, b with
  | _, EmptyString => false
  | EmptyString, String _ _ => true
  | String x a', String y b' =>
      if code x <? code y then true
      else if code x =? code y then ltb a' b' else false
  end.

(** [!(b < a)]: the order in which [sort()] without a comparator leaves
    strings. *)
Definition le (a b : string) : Prop := ltb b a = false.

Global Instance le_dec (a b : string) : Decision (le a b).
Proof. unfold le. apply _. Defined.

End JS.

(** ** GET /api/bookmarks: the effective page size
    (src/app/api/bookmarks/route.ts) *)

Module BookmarksRoute.

(** [searchParams.get('pageSize') || '10']: [null] and the empty string
    are falsy. *)
Definition pageSizeParam (q : option string) : string :=
  match q with
  | Some EmptyString => "10"
  | Some s => s
  | None => "10"
  end.

(** [parseInt(pageSizeParam) || 10]: [NaN] and [0] are falsy. *)
Definition parsedOrDefault (q : option string) : Z :=
  match JS.parseInt (pageSizeParam q) with
  | Some n => if n =? 0 then 10 else n
  | None => 10
  end.

(** [Math.min(Math.max(parseInt(pageSizeParam) || 10, 1), 100)] *)
Definition pageSize (q : option string) : Z :=
  Z.min (Z.max (parsedOrDefault q) 1) 100.

End BookmarksRoute.

(** ** Dates in a zone of constant offset

    A [Date] is the number of milliseconds since the epoch.  [tz] is the
    offset of local time from UTC in milliseconds; it does not change over
    the instants considered. *)

Module Clock.

Definition msPerSecond : Z := 1000.
Definition msPerMinute : Z := 60000.
Definition msPerHour : Z := 3600000.
Definition msPerDay : Z := 86400000.

Section Zone.
Variable tz : Z.

(** Local day number and millisecond within the local day. *)
Definition localDay (t : Z) : Z := (t + tz) / msPerDay.
Definition msOfDay (t : Z) : Z := (t + tz) mod msPerDay.

Definition getHours (t : Z) : Z := msOfDay t / msPerHour.
Definition getMinutes (t : Z) : Z := (msOfDay t mod msPerHour) / msPerMinute.

(** [d.setHours(h, m, s, ms)]: same local day, the given time of day. *)
Definition setHours (t h m s ms : Z) : Z :=
  localDay t * msPerDay - tz
  + h * msPerHour + m * msPerMinute + s * msPerSecond + ms.

(** [d.setDate(d.getDate() + 1)]: the same time of day on the next local
    day (a day of month past the end of the month carries over). *)
Definition setDate_next (t : Z) : Z := t + msPerDay.

End Zone.

End Clock.

(** ** Schedule entries *)

Module Entry.

Definition in_range (lo hi c : ascii) : bool :=
  (JS.code lo <=? JS.code c) && (JS.code c <=? JS.code hi).

(** [/^([0-1][0-9]|2[0-3]):[0-5][0-9]$/.test(s)] *)
Definition timeRegex_test (s : string) : bool :=
  match s with
  | String a (String b (String c (String d (String e EmptyString)))) =>
      ((in_range "0" "1" a && in_range "0" "9" b)
       || (bool_decide (a = "2"%char) && in_range "0" "3" b))
      && bool_decide (c = ":"%char)
      && in_range "0" "5" d && in_range "0" "9" e
  | _ => false
  end.

(** [Number(s)] on the strings the schedule code meets: a non-empty run of
    decimal digits is its value.  [None] is [NaN] or a numeric literal in
    another form (sign, radix prefix, fraction, exponent, white space),
    none of which a validated entry contains. *)
Definition Number (s : string) : option Z :=
  match s with
  | EmptyString => None
  | String _ _ =>
      if forallb (fun c => bool_decide (is_Some (JS.digit_val c)))
           (list_ascii_of_string s)
      then Some (JS.digits_go 10 JS.digit_val 0 s)
      else None
  end.

(** [const [hours, minutes] = time.split(':').map(Number)] *)
Definition hoursMinutes (time : string) : option (Z * Z) :=
  match JS.split ":" time with
  | h :: m :: _ =>
      match Number h, Number m with
      | Some hv, Some mv => Some (hv, mv)
      | _, _ => None
      end
  | _ => None
  end.

(** Two-digit rendering, and the entry "HH:MM" of an hour and a minute. *)
Definition digit (n : Z) : ascii := ascii_of_N (Z.to_N (48 + n)).
Definition two (n : Z) : string :=
  String (digit (n / 10)) (String (digit (n mod 10)) EmptyString).
Definition hhmm (h m : Z) : string := two h +:+ ":" +:+ two m.

(** The minute of the day that a well-formed entry stands for. *)
Definition denotes (e : string) (x : Z) : Prop :=
  exists h m, 0 <= h < 24 /\ 0 <= m < 60 /\ e = hhmm h m /\ x = h * 60 + m.

End Entry.

(** ** Next occurrence of a schedule entry *)

Module Scheduler.
Import Clock.

(** Outcome of [calculateNextNotificationTime]. *)
Inductive next :=
  | Null                (* no schedule *)
  | At (t : Z)          (* the next notification time *)
  | NotANumber.         (* some entry has no plain decimal reading *)

Section Zone.
Variable tz : Z.

(** The time computation of [scheduleNotificationForTime]
    (src/lib/hooks/useNotifications.ts): today's slot, or tomorrow's
    when today's is not after [now]. *)
Definition scheduledTime (now : Z) (time : string) : option Z :=
  match Entry.hoursMinutes time with
  | Some (hours, minutes) =>
      let scheduledTime := setHours tz now hours minutes 0 0 in
      Some (if scheduledTime <=? now then setDate_next scheduledTime
            else scheduledTime)
  | None => None
  end.

(** [schedule.map(...)]: minutes since midnight of every entry. *)
Fixpoint scheduleMinutes (schedule : list string) : option (list Z) :=
  match schedule with
  | [] => Some []
  | time :: rest =>
      match Entry.hoursMinutes time, scheduleMinutes rest with
      | Some (hours, minutes), Some l => Some (hours * 60 + minutes :: l)
      | _, _ => None
      end
  end.

(** The [for] loop: the first scheduled minute after the current one. *)
Fixpoint firstAfter (currentTime : Z) (l : list Z) : option Z :=
  match l with
  | [] => None
  | scheduledMinutes :: rest =>
      if currentTime <? scheduledMinutes then Some scheduledMinutes
      else firstAfter currentTime rest
  end.

(** [calculateNextNotificationTime] (src/app/api/notifications/schedule/
    route.ts and the service worker); the route renders the instant with
    [toISOString], the worker returns [getTime()]. *)
Definition calculateNextNotificationTime (now : Z) (schedule : list string)
    : next :=
  match schedule with
  | [] => Null
  | _ =>
      let currentTime := getHours tz now * 60 + getMinutes tz now in
      match scheduleMinutes schedule with
      | None => NotANumber
      | Some mins =>
          let sorted := merge_sort Z.le mins in
          match firstAfter currentTime sorted with
          | Some scheduledMinutes =>
              At (setHours tz now (scheduledMinutes / 60)
                    (scheduledMinutes mod 60) 0 0)
          | None =>
              let firstTimeTomorrow := default 0 (head sorted) in
              At (setHours tz (setDate_next now)
                    (firstTimeTomorrow / 60) (firstTimeTomorrow mod 60) 0 0)
          end
      end
  end.



(** The instant [x] minutes into the local day of [now], or of the day
    after when minute [x] is not after the current minute. *)
Definition occurrenceOfMinute (now x : Z) : Z :=
  let today := localDay tz now * msPerDay - tz in
  if getHours tz now * 60 + getMinutes tz now <? x
  then today + x * msPerMinute
  else today + msPerDay + x * msPerMinute.

End Zone.

End Scheduler.

(** ** JavaScript values that JSON can carry *)

Module Value.

#[local] Set Warnings "-register-all".

Inductive value :=
  | VUndefined
  | VNull
  | VBool (b : bool)
  | VNum (n : Z)
  | VStr (s : string)
  | VArr (items : list value)
  | VObj (fields : list (string * value)).

(** [typeof v] *)
Definition typeof (v : value) : string :=
  match v with
  | VUndefined => "undefined"
  | VBool _ => "boolean"
  | VNum _ => "number"
  | VStr _ => "string"
  | VNull | VArr _ | VObj _ => "object"
  end.

(** [Array.isArray(v)] *)
Definition isArray (v : value) : bool :=
  match v with VArr _ => true | _ => false end.

(** Truthiness: [undefined], [null], [false], [0] and [""] are falsy. *)
Definition truthy (v : value) : bool :=
  match v with
  | VUndefined | VNull => false
  | VBool b => b
  | VNum n => negb (n =? 0)
  | VStr s => negb (bool_decide (s = ""))
  | VArr _ | VObj _ => true
  end.

Fixpoint lookup_field (k : string) (fields : list (string * value))
    : value :=
  match fields with
  | [] => VUndefined
  | (k', v) :: rest => if decide (k = k') then v else lookup_field k rest
  end.

(** [v.k]: [None] is the [TypeError] of reading a property of
    [undefined] or [null]; a missing property is [undefined].  Only own
    data properties of objects are modelled (none of the names read by the
    sources is a built-in property of a string, number or array). *)
Definition get (v : value) (k : string) : option value :=
  match v with
  | VUndefined | VNull => None
  | VObj fields => Some (lookup_field k fields)
  | _ => Some VUndefined
  end.

(** [l.join(sep)] on strings. *)
Fixpoint join (sep : string) (l : list string) : string :=
  match l with
  | [] => ""
  | [s] => s
  | s :: rest => s +:+ sep +:+ join sep rest
  end.

(** [String(v)], the conversion [RegExp.prototype.test] applies to its
    argument: an array is its elements joined by commas, [null] and
    [undefined] elements as empty strings. *)
Fixpoint toString (v : value) : string :=
  match v with
  | VUndefined => "undefined"
  | VNull => "null"
  | VBool true => "true"
  | VBool false => "false"
  | VNum n => pretty n
  | VStr s => s
  | VArr items =>
      join ","
        (List.map (fun e =>
                     match e with
                     | VUndefined | VNull => ""
                     | _ => toString e
                     end) items)
  | VObj _ => "[object Object]"
  end.

(** [a || b] *)
Definition or_else (a b : value) : value := if truthy a then a else b.

End Value.

(** ** Server-side settings store (lib/utils/server-storage.ts) *)

Module ServerStorage.
Import Value.

(** [settingsStore], a [Map] from user id to settings. *)
Definition getServerNotificationSettings (store : gmap string value)
    (userId : string) : option value :=
  store !! userId.

Definition setServerNotificationSettings (store : gmap string value)
    (userId : string) (settings : value) : gmap string value :=
  <[userId := settings]> store.

End ServerStorage.

(** ** API key validation *)

Module Auth.

(** The two headers the routes read; [None] is an absent header. *)
Record headers := {
  authorization : option string;
  x_api_key : option string;
}.

(** [expectedApiKey && key === expectedApiKey] *)
Definition matchesExpected (API_KEY : option string) (key : string) : bool :=
  match API_KEY with
  | Some expected =>
      negb (bool_decide (expected = "")) && bool_decide (key = expected)
  | None => false
  end.

(** The header checks shared by both routes. *)
Definition headerKeyValid (API_KEY : option string) (h : headers) : bool :=
  let bearer :=
    match authorization h with
    | Some authHeader =>
        JS.startsWith "Bearer " authHeader
        && matchesExpected API_KEY (JS.substring_from 7 authHeader)
    | None => false
    end in
  if bearer then true
  else
    match x_api_key h with
    | Some apiKeyHeader =>
        negb (bool_decide (apiKeyHeader = ""))
        && matchesExpected API_KEY apiKeyHeader
    | None => false
    end.

(** [validateApiKey] of app/api/settings/notifications/route.ts. *)
Definition validateApiKey_settings (API_KEY : option string) (h : headers)
    : bool :=
  headerKeyValid API_KEY h.

(** [validateApiKey] of app/api/notifications/schedule/route.ts: validation
    is skipped when [process.env.API_KEY] is unset or empty. *)
Definition validateApiKey_schedule (API_KEY : option string) (h : headers)
    : bool :=
  match API_KEY with
  | None => true
  | Some "" => true
  | Some _ => headerKeyValid API_KEY h
  end.

(** A request carries a matching key for the configured [key]. *)
Definition carriesKey (key : string) (h : headers) : Prop :=
  authorization h = Some ("Bearer " +:+ key) \/ x_api_key h = Some key.

End Auth.

(** ** /api/settings/notifications *)

Module SettingsRoute.
Import Value Auth.

Definition userId : string := "default-user".

Record response := {
  status : Z;
  body : value;
}.

(** The double-quote character, as a string. *)
Definition dquote : string := String (ascii_of_nat 34) EmptyString.

Definition error (code : Z) (msg : string) : response :=
  {| status := code; body := VObj [("error", VStr msg)] |}.

Definition defaultSettings : value :=
  VObj [("enabled", VBool false); ("schedule", VArr []);
        ("lastNotificationDate", VStr "")].

(** [GET]: the stored settings, or the default object. *)
Definition GET (API_KEY : option string) (h : headers)
    (store : gmap string value) : response :=
  if negb (validateApiKey_settings API_KEY h)
  then error 401 "Unauthorized: Invalid API key"
  else
    match ServerStorage.getServerNotificationSettings store userId with
    | Some settings =>
        if truthy settings then {| status := 200; body := settings |}
        else {| status := 200; body := defaultSettings |}
    | None => {| status := 200; body := defaultSettings |}
    end.

(** [body.schedule.every((time) => timeRegex.test(time))] *)
Definition scheduleValid (items : list value) : bool :=
  forallb (fun time => Entry.timeRegex_test (toString time)) items.

(** [POST].  [reqBody] is the result of [request.json()]: [None] when the
    body is not JSON (a [SyntaxError]).  Returns the response and the
    store afterwards. *)
Definition POST (API_KEY : option string) (h : headers)
    (reqBody : option value) (store : gmap string value)
    : response * gmap string value :=
  if negb (validateApiKey_settings API_KEY h)
  then (error 401 "Unauthorized: Invalid API key", store)
  else
    match reqBody with
    | None => (error 400 "Invalid JSON in request body", store)
    | Some body =>
        match get body "enabled", get body "schedule",
              get body "lastNotificationDate" with
        | Some enabled, Some schedule, Some lastNotificationDate =>
            if negb (bool_decide (typeof enabled = "boolean"))
               || negb (isArray schedule)
               || negb (bool_decide (typeof lastNotificationDate = "string"))
            then (error 400 "Invalid notification settings format", store)
            else
              match schedule with
              | VArr items =>
                  if negb (scheduleValid items)
                  then (error 400
                        ("Invalid time format in schedule. "
                         +:+ "Use HH:MM format (e.g., " +:+ dquote
                         +:+ "09:00" +:+ dquote +:+ ")"),
                        store)
                  else
                    let settings :=
                      VObj [("enabled", enabled); ("schedule", schedule);
                            ("lastNotificationDate",
                             or_else lastNotificationDate (VStr ""))] in
                    ({| status := 200;
                        body := VObj [("success", VBool true);
                                      ("settings", settings)] |},
                     ServerStorage.setServerNotificationSettings store
                       userId settings)
              | _ => (error 400 "Invalid notification settings format", store)
              end
        | _, _, _ =>
            (* TypeError: a property of null was read *)
            (error 400 "Invalid JSON in request body", store)
        end
    end.

(** The shape the specification gives for a valid body. *)
Definition isTimeString (v : value) : bool :=
  match v with VStr s => Entry.timeRegex_test s | _ => false end.

Definition wellShaped (body : value) : bool :=
  match get body "enabled", get body "schedule",
        get body "lastNotificationDate" with
  | Some (VBool _), Some (VArr items), Some (VStr _) =>
      forallb isTimeString items
  | _, _, _ => false
  end.

(** A request body whose schedule holds a nested array. *)
Definition nestedBody : value :=
  VObj [("enabled", VBool true);
        ("schedule", VArr [VArr [VStr "09:00"]]);
        ("lastNotificationDate", VStr "")].

End SettingsRoute.

(** ** Timers of an event loop

    [setTimeout] hands out increasing ids and arms a timer; [clearTimeout]
    disarms it (and ignores an id that is not armed). *)

Module Timers.

Section Payload.
Context {A : Type}.

Record loop := {
  armed : gmap nat A;
  nextId : nat;
}.

Definition empty : loop := {| armed := ∅; nextId := 1 |}.

Definition setTimeout (l : loop) (a : A) : nat * loop :=
  (nextId l, {| armed := <[nextId l := a]> (armed l); nextId := S (nextId l) |}).

Definition clearTimeout (l : loop) (id : nat) : loop :=
  {| armed := delete id (armed l); nextId := nextId l |}.

(** [ids.forEach(id => clearTimeout(id))] *)
Definition clearAll (l : loop) (ids : list nat) : loop :=
  foldl clearTimeout l ids.

(** Every armed timer has an id the loop has already handed out. *)
Definition wf (l : loop) : Prop :=
  forall id, is_Some (armed l !! id) -> (id < nextId l)%nat.

End Payload.

Arguments loop : clear implicits.

End Timers.

(** ** The service worker's notification handlers (public/sw.js and
    worker/index.ts) *)

Module Worker.

(** A window client: its URL and whether it has a [focus] method. *)
Record client := {
  url : string;
  hasFocus : bool;
}.

Inductive action :=
  | CloseNotification
  | Focus (c : client)
  | OpenWindow (target : string).

(** [event.notification.data?.url || '/flashcards']; [dataUrl] is [None]
    when the notification has no data or no [url] in it. *)
Definition urlToOpen (dataUrl : option string) : string :=
  match dataUrl with
  | Some EmptyString => "/flashcards"
  | Some u => u
  | None => "/flashcards"
  end.

(** The loop over [clientList] with the given test, then
    [clients.openWindow] when that method exists. *)
Definition route (test : client -> bool) (hasOpenWindow : bool)
    (target : string) (clientList : list client) : list action :=
  match List.find (fun c => test c && hasFocus c) clientList with
  | Some c => [Focus c]
  | None => if hasOpenWindow then [OpenWindow target] else []
  end.

(** [notificationclick] of public/sw.js: [client.url.includes(urlToOpen)]. *)
Definition notificationclick_sw (hasOpenWindow : bool)
    (dataUrl : option string) (clientList : list client) : list action :=
  let urlToOpen := urlToOpen dataUrl in
  CloseNotification
  :: route (fun c => JS.includes urlToOpen (url c)) hasOpenWindow
       urlToOpen clientList.

(** [notificationclick] of worker/index.ts: [client.url === urlToOpen]. *)
Definition notificationclick_ts (hasOpenWindow : bool)
    (dataUrl : option string) (clientList : list client) : list action :=
  let urlToOpen := urlToOpen dataUrl in
  CloseNotification
  :: route (fun c => bool_decide (url c = urlToOpen)) hasOpenWindow
       urlToOpen clientList.

(** The URL a target resolves to for a worker served from [origin]: a
    target that starts with a slash is a path on the origin. *)
Definition resolve (origin target : string) : string :=
  if JS.startsWith "/" target then origin +:+ target else target.

(** A client shows the target when its URL is the resolved target. *)
Definition shows (origin : string) (c : client) (target : string) : Prop :=
  url c = resolve origin target.

(** *** Timers armed by messages (public/sw.js) *)

Inductive message :=
  | SKIP_WAITING
  | SHOW_NOTIFICATION
  | SCHEDULE_NOTIFICATION (time : string) (delay : Z)
  | CANCEL_NOTIFICATIONS
  | SCHEDULE_NEXT_NOTIFICATION
  | UPDATE_NOTIFICATION_SETTINGS.

(** What a worker timer knows: the [time] key it deletes after firing. *)
Record state := {
  scheduledNotifications : gmap string nat;   (* time -> timeout id *)
  loop : Timers.loop (string * Z);            (* armed: (time, delay) *)
}.

Definition initial : state :=
  {| scheduledNotifications := ∅; loop := Timers.empty |}.

(** The [message] listener, restricted to the timer state. *)
Definition onmessage (st : state) (m : message) : state :=
  match m with
  | SCHEDULE_NOTIFICATION time delay =>
      let '(timeoutId, l) := Timers.setTimeout (loop st) (time, delay) in
      {| scheduledNotifications := <[time := timeoutId]> (scheduledNotifications st);
         loop := l |}
  | CANCEL_NOTIFICATIONS =>
      {| scheduledNotifications := ∅;
         loop := Timers.clearAll (loop st)
                   (map_to_list (scheduledNotifications st)).*2 |}
  | _ => st
  end.







End Worker.

(** ** The notification hook (lib/hooks/useNotifications.ts) *)

Module Hook.
Import Value.

Inductive permission := Default | Granted | Denied.

Global Instance permission_eq_dec : EqDecision permission.
Proof. solve_decision. Defined.

Record NotificationSettings := {
  enabled : bool;
  schedule : list string;
  lastNotificationDate : string;
}.

(** A thrown value: [Some msg] is an [Error] with that message, [None] a
    value that is not an [Error]. *)
Definition thrown := option string.

(** How [fetch('/api/notifications/schedule')] and [response.json()]
    turn out. *)
Inductive fetchOutcome :=
  | FetchRejected (e : thrown)
  | FetchResolved (ok : bool) (json : thrown + value).

(** What the page finds around it during one call. *)
Record env := {
  tz : Z;
  now : Z;
  hasWindow : bool;                       (* typeof window !== "undefined" *)
  hasNotification : bool;                 (* "Notification" in window *)
  notificationPermission : permission;    (* Notification.permission *)
  requestPermission : thrown + permission;(* Notification.requestPermission() *)
  workerActive : bool;                    (* serviceWorker.ready has an active worker *)
  fetchSchedule : fetchOutcome;
  referenceError : string;                (* message of reading an undeclared name *)
  typeError : string;                     (* message of reading a property of null *)
}.

(** A page timer carries the notification it will show. *)
Record timer := {
  delay : Z;
  bookmarkTitle : value;
  bookmarkUrl : value;
}.

Record page := {
  scheduledTimeouts : gmap string nat;    (* scheduleId -> timeout id *)
  loop : Timers.loop timer;
  posted : list Worker.message;           (* messages to the worker, oldest first *)
  permissionState : permission;
  loading : bool;
  error : option string;
}.

Definition initial : page :=
  {| scheduledTimeouts := ∅; loop := Timers.empty; posted := [];
     permissionState := Default; loading := false; error := None |}.

Definition setLoading (b : bool) (p : page) : page :=
  {| scheduledTimeouts := scheduledTimeouts p; loop := loop p;
     posted := posted p; permissionState := permissionState p;
     loading := b; error := error p |}.

Definition setError (e : option string) (p : page) : page :=
  {| scheduledTimeouts := scheduledTimeouts p; loop := loop p;
     posted := posted p; permissionState := permissionState p;
     loading := loading p; error := e |}.

Definition setPermission (q : permission) (p : page) : page :=
  {| scheduledTimeouts := scheduledTimeouts p; loop := loop p;
     posted := posted p; permissionState := q;
     loading := loading p; error := error p |}.

(** [sendMessageToSW]: posts when there is a window and an active worker,
    does nothing otherwise. *)
Definition sendMessageToSW (e : env) (m : Worker.message) (p : page) : page :=
  if hasWindow e && workerActive e
  then {| scheduledTimeouts := scheduledTimeouts p; loop := loop p;
          posted := posted p ++ [m]; permissionState := permissionState p;
          loading := loading p; error := error p |}
  else p.

(** [scheduleNotificationForTime]; [None] when the entry has no plain
    decimal reading (see [Entry.Number]). *)
Definition scheduleNotificationForTime (e : env) (time : string)
    (title url : value) (p : page) : option (string * page) :=
  match Scheduler.scheduledTime (tz e) (now e) time with
  | Some scheduledTime =>
      let delay := scheduledTime - now e in
      let '(timeoutId, l) :=
        Timers.setTimeout (loop p)
          {| delay := delay; bookmarkTitle := title; bookmarkUrl := url |} in
      let p1 :=
        sendMessageToSW e (Worker.SCHEDULE_NOTIFICATION time delay)
          {| scheduledTimeouts := scheduledTimeouts p; loop := l;
             posted := posted p; permissionState := permissionState p;
             loading := loading p; error := error p |} in
      let scheduleId := time +:+ "-" +:+ pretty scheduledTime in
      Some (scheduleId,
            {| scheduledTimeouts := <[scheduleId := timeoutId]> (scheduledTimeouts p1);
               loop := loop p1; posted := posted p1;
               permissionState := permissionState p1;
               loading := loading p1; error := error p1 |})
  | None => None
  end.

(** [cancelNotifications] *)
Definition cancelNotifications (e : env) (p : page) : page :=
  sendMessageToSW e Worker.CANCEL_NOTIFICATIONS
    {| scheduledTimeouts := ∅;
       loop := Timers.clearAll (loop p) (map_to_list (scheduledTimeouts p)).*2;
       posted := posted p; permissionState := permissionState p;
       loading := loading p; error := error p |}.

(** [err instanceof Error ? err.message : fallback] *)
Definition messageOf (err : thrown) (fallback : string) : string :=
  default fallback err.

(** [requestNotificationPermission] *)
Definition requestNotificationPermission (e : env) (p : page)
    : bool * page :=
  if negb (hasWindow e && hasNotification e)
  then (false, setError (Some "This browser does not support notifications") p)
  else
    match notificationPermission e with
    | Granted => (true, setPermission Granted p)
    | Denied =>
        (false,
         setError (Some "Notification permission was previously denied")
           (setPermission Denied p))
    | Default =>
        let p1 := setError None (setLoading true p) in
        match requestPermission e with
        | inr result =>
            let p2 := setPermission result p1 in
            if decide (result = Granted)
            then (true, setLoading false p2)
            else (false,
                  setLoading false
                    (setError (Some "Notification permission was denied") p2))
        | inl err =>
            (false,
             setLoading false
               (setError
                  (Some (messageOf err "Failed to request notification permission"))
                  p1))
        end
    end.

(** The [for] loop over the schedule. *)
Fixpoint scheduleEach (e : env) (times : list string) (title url : value)
    (p : page) : option page :=
  match times with
  | [] => Some p
  | time :: rest =>
      match scheduleNotificationForTime e time title url p with
      | Some (_, p1) => scheduleEach e rest title url p1
      | None => None
      end
  end.

(** [bookmarkPreview?.name] *)
Definition optionalGet (v : value) (k : string) : value :=
  default VUndefined (get v k).

(** The body of the [try] block of [scheduleNotifications]: the page
    afterwards and, when the block throws, the thrown value. *)
Definition scheduleTry (e : env) (settings : NotificationSettings)
    (p : page) : option (page * option thrown) :=
  if negb (hasNotification e)
  then Some (p, Some (Some (referenceError e)))
  else
    let '(granted, p1) :=
      if decide (notificationPermission e = Granted) then (true, p)
      else requestNotificationPermission e p in
    if negb granted
    then Some (p1, Some (Some
           "Notification permission is required to schedule notifications"))
    else
      let p2 := cancelNotifications e p1 in
      if negb (enabled settings) || bool_decide (schedule settings = [])
      then Some (setLoading false p2, None)
      else
        match fetchSchedule e with
        | FetchRejected err => Some (p2, Some err)
        | FetchResolved false _ =>
            Some (p2, Some (Some "Failed to fetch notification schedule"))
        | FetchResolved true (inl err) => Some (p2, Some err)
        | FetchResolved true (inr scheduleData) =>
            match get scheduleData "bookmarkPreview" with
            | None => Some (p2, Some (Some (typeError e)))
            | Some bookmarkPreview =>
                let bookmarkTitle :=
                  or_else (optionalGet bookmarkPreview "name")
                    (VStr "Your bookmark") in
                let bookmarkUrl :=
                  or_else (optionalGet bookmarkPreview "url") (VStr "") in
                match scheduleEach e (schedule settings) bookmarkTitle
                        bookmarkUrl p2 with
                | Some p3 =>
                    (* registerBackgroundSync() catches its own errors and
                       touches none of this state *)
                    Some (p3, None)
                | None => None
                end
            end
        end.

(** [scheduleNotifications]: [try], [catch] (which sets the error) and
    [finally] (which clears the loading flag). *)
Definition scheduleNotifications (e : env) (settings : NotificationSettings)
    (p : page) : option page :=
  if negb (hasWindow e) then Some p
  else
    match scheduleTry e settings (setError None (setLoading true p)) with
    | Some (p1, None) => Some (setLoading false p1)
    | Some (p1, Some err) =>
        Some (setLoading false
                (setError (Some (messageOf err "Failed to schedule notifications"))
                   p1))
    | None => None
    end.

(** A page at 14:30 UTC on day 0 with notifications granted and an active
    worker, for a given outcome of the preview fetch. *)
Definition exampleEnv (f : fetchOutcome) : env :=
  {| tz := 0; now := 52200000; hasWindow := true; hasNotification := true;
     notificationPermission := Granted; requestPermission := inr Granted;
     workerActive := true; fetchSchedule := f;
     referenceError := "Notification is not defined";
     typeError := "Cannot read properties of null" |}.

(** Every armed page timer is recorded in [scheduledTimeouts]. *)
Definition tracked (p : page) : Prop :=
  forall id, is_Some (Timers.armed (loop p) !! id) ->
             exists scheduleId, scheduledTimeouts p !! scheduleId = Some id.

(** The state a loop over well-formed, pairwise different entries keeps:
    every armed timer is recorded, and ids are below the next id. *)
Definition orderly (p : page) : Prop :=
  tracked p /\ Timers.wf (loop p).

(** The message [scheduleNotificationForTime] posts for an entry. *)
Definition scheduleMessage (e : env) (time : string) : Worker.message :=
  Worker.SCHEDULE_NOTIFICATION time
    (default 0 (Scheduler.scheduledTime (tz e) (now e) time) - now e).

End Hook.

(** ** JSON text: [JSON.stringify] and [JSON.parse]

    Numbers are integers (written in plain decimal); a number with a
    fraction or an exponent, and a [\u] escape above 255, are reported as
    [Unsupported] rather than given a value.  Object members keep the
    order of the text. *)

Module Json.
Import Value.

Definition dq : ascii := ascii_of_nat 34.   (* the double quote *)
Definition bs : ascii := ascii_of_nat 92.   (* the backslash *)

Definition hexdigit (n : Z) : ascii :=
  if n <? 10 then ascii_of_N (Z.to_N (48 + n)) else ascii_of_N (Z.to_N (87 + n)).

(** [QuoteJSONString] on one code unit. *)
Definition escape_char (c : ascii) : string :=
  let n := JS.code c in
  if n =? 34 then String bs (String dq EmptyString)
  else if n =? 92 then String bs (String bs EmptyString)
  else if n =? 8 then String bs "b"
  else if n =? 12 then String bs "f"
  else if n =? 10 then String bs "n"
  else if n =? 13 then String bs "r"
  else if n =? 9 then String bs "t"
  else if n <? 32
  then String bs (String "u" (String "0" (String "0"
         (String (hexdigit (n / 16)) (String (hexdigit (n mod 16)) EmptyString)))))
  else String c EmptyString.

Fixpoint escape (s : string) : string :=
  match s with
  | EmptyString => EmptyString
  | String c r => escape_char c +:+ escape r
  end.

Definition quote (s : string) : string :=
  String dq (escape s +:+ String dq EmptyString).

(** [JSON.stringify(v)]; [None] is the result [undefined].  In an array
    [undefined] is written [null]; in an object a member whose value is
    [undefined] is left out. *)
Fixpoint stringify (v : value) : option string :=
  match v with
  | VUndefined => None
  | VNull => Some "null"
  | VBool true => Some "true"
  | VBool false => Some "false"
  | VNum n => Some (pretty n)
  | VStr s => Some (quote s)
  | VArr items =>
      Some ("[" +:+ join ","
              ((fix elements (l : list value) : list string :=
                  match l with
                  | [] => []
                  | e :: r => default "null" (stringify e) :: elements r
                  end) items) +:+ "]")
  | VObj fields =>
      Some ("{" +:+ join ","
              ((fix members (l : list (string * value)) : list string :=
                  match l with
                  | [] => []
                  | (k, e) :: r =>
                      match stringify e with
                      | Some t => (quote k +:+ ":" +:+ t) :: members r
                      | None => members r
                      end
                  end) fields) +:+ "}")
  end.

(** Results of the parser. *)
Inductive parsed (A : Type) :=
  | Ok (a : A) (rest : string)
  | SyntaxError
  | Unsupported
  | OutOfFuel.
Arguments Ok {A} a rest.
Arguments SyntaxError {A}.
Arguments Unsupported {A}.
Arguments OutOfFuel {A}.

Definition bind {A B} (p : parsed A) (k : A -> string -> parsed B) : parsed B :=
  match p with
  | Ok a rest => k a rest
  | SyntaxError => SyntaxError
  | Unsupported => Unsupported
  | OutOfFuel => OutOfFuel
  end.

(** JSON white space: TAB, LF, CR, SP. *)
Definition is_ws (c : ascii) : bool :=
  let n := JS.code c in (n =? 9) || (n =? 10) || (n =? 13) || (n =? 32).

Fixpoint skip_ws (s : string) : string :=
  match s with
  | String c r => if is_ws c then skip_ws r else s
  | EmptyString => s
  end.

Definition prepend (c : ascii) (p : parsed string) : parsed string :=
  bind p (fun str rest => Ok (String c str) rest).

(** The characters of a string literal after its opening quote. *)
Fixpoint parse_string_chars (s : string) : parsed string :=
  match s with
  | EmptyString => SyntaxError
  | String c r =>
      if JS.code c =? 34 then Ok EmptyString r
      else if JS.code c =? 92 then
        match r with
        | EmptyString => SyntaxError
        | String e r2 =>
            let n := JS.code e in
            if n =? 34 then prepend dq (parse_string_chars r2)
            else if n =? 92 then prepend bs (parse_string_chars r2)
            else if n =? 47 then prepend "/" (parse_string_chars r2)
            else if n =? 98 then prepend (ascii_of_nat 8) (parse_string_chars r2)
            else if n =? 102 then prepend (ascii_of_nat 12) (parse_string_chars r2)
            else if n =? 110 then prepend (ascii_of_nat 10) (parse_string_chars r2)
            else if n =? 114 then prepend (ascii_of_nat 13) (parse_string_chars r2)
            else if n =? 116 then prepend (ascii_of_nat 9) (parse_string_chars r2)
            else if n =? 117 then
              match r2 with
              | String h1 (String h2 (String h3 (String h4 r3))) =>
                  match JS.hex_val h1, JS.hex_val h2, JS.hex_val h3,
                        JS.hex_val h4 with
                  | Some a, Some b, Some c', Some d =>
                      let u := ((a * 16 + b) * 16 + c') * 16 + d in
                      if u <? 256
                      then prepend (ascii_of_N (Z.to_N u)) (parse_string_chars r3)
                      else Unsupported
                  | _, _, _, _ => SyntaxError
                  end
              | _ => SyntaxError
              end
            else SyntaxError
        end
      else if JS.code c <? 32 then SyntaxError
      else prepend c (parse_string_chars r)
  end.

(** What follows the leading decimal digits. *)
Fixpoint drop_digits (s : string) : string :=
  match s with
  | String c r => if bool_decide (is_Some (JS.digit_val c)) then drop_digits r else s
  | EmptyString => s
  end.

(** A number token that has started: digits, then no fraction and no
    exponent. *)
Definition parse_digits (sign : Z) (s : string) : parsed value :=
  match s with
  | String d r =>
      match JS.digit_val d with
      | None => SyntaxError
      | Some d0 =>
          let '(n, rest) :=
            if d0 =? 0 then (0, r)
            else (JS.digits_go 10 JS.digit_val 0 s, drop_digits s) in
          match rest with
          | String c _ =>
              if (JS.code c =? 46) || (JS.code c =? 101) || (JS.code c =? 69)
              then Unsupported
              else Ok (VNum (sign * n)) rest
          | EmptyString => Ok (VNum (sign * n)) rest
          end
      end
  | EmptyString => SyntaxError
  end.

(** [s] without the prefix [p], when it has it. *)
Fixpoint strip_prefix (p s : string) : option string :=
  match p, s with
  | EmptyString, _ => Some s
  | String a p', String b s' => if decide (a = b) then strip_prefix p' s' else None
  | String _ _, EmptyString => None
  end.

Definition literal (word : string) (v : value) (s : string) : parsed value :=
  match strip_prefix word s with
  | Some rest => Ok v rest
  | None => SyntaxError
  end.

(** Defining a member: a repeated key keeps its place and takes the new
    value. *)
Fixpoint set_field (k : string) (v : value) (fields : list (string * value))
    : list (string * value) :=
  match fields with
  | [] => [(k, v)]
  | (k', v') :: rest =>
      if decide (k = k') then (k, v) :: rest
      else (k', v') :: set_field k v rest
  end.

(** The recursive-descent parser.  [fuel] bounds the nesting and the number
    of elements read; [JSON_parse] supplies more than the text can use. *)
Fixpoint parse_value (fuel : nat) (s : string) : parsed value :=
  match fuel with
  | O => OutOfFuel
  | S f =>
      match skip_ws s with
      | EmptyString => SyntaxError
      | String c r as s1 =>
          let n := JS.code c in
          if n =? 110 then literal "null" VNull s1
          else if n =? 116 then literal "true" (VBool true) s1
          else if n =? 102 then literal "false" (VBool false) s1
          else if n =? 34 then
            bind (parse_string_chars r) (fun str rest => Ok (VStr str) rest)
          else if n =? 45 then parse_digits (-1) r
          else if n =? 91 then
            match skip_ws r with
            | String c' r' =>
                if JS.code c' =? 93 then Ok (VArr []) r'
                else parse_elements f r []
            | EmptyString => SyntaxError
            end
          else if n =? 123 then
            match skip_ws r with
            | String c' r' =>
                if JS.code c' =? 125 then Ok (VObj []) r'
                else parse_members f r []
            | EmptyString => SyntaxError
            end
          else parse_digits 1 s1
      end
  end
with parse_elements (fuel : nat) (s : string) (acc : list value)
    : parsed value :=
  match fuel with
  | O => OutOfFuel
  | S f =>
      bind (parse_value f s) (fun v rest =>
        match skip_ws rest with
        | String c r =>
            if JS.code c =? 44 then parse_elements f r (acc ++ [v])
            else if JS.code c =? 93 then Ok (VArr (acc ++ [v])) r
            else SyntaxError
        | EmptyString => SyntaxError
        end)
  end
with parse_members (fuel : nat) (s : string) (acc : list (string * value))
    : parsed value :=
  match fuel with
  | O => OutOfFuel
  | S f =>
      match skip_ws s with
      | String q r =>
          if JS.code q =? 34 then
            bind (parse_string_chars r) (fun k rest =>
              match skip_ws rest with
              | String colon r1 =>
                  if JS.code colon =? 58 then
                    bind (parse_value f r1) (fun v rest1 =>
                      match skip_ws rest1 with
                      | String c r2 =>
                          if JS.code c =? 44
                          then parse_members f r2 (set_field k v acc)
                          else if JS.code c =? 125
                          then Ok (VObj (set_field k v acc)) r2
                          else SyntaxError
                      | EmptyString => SyntaxError
                      end)
                  else SyntaxError
              | EmptyString => SyntaxError
              end)
          else SyntaxError
      | EmptyString => SyntaxError
      end
  end.

(** [JSON.parse(text)]: one value, then only white space. *)
Definition JSON_parse (text : string) : parsed value :=
  bind (parse_value (S (String.length text)) text) (fun v rest =>
    match skip_ws rest with
    | EmptyString => Ok v EmptyString
    | String _ _ => SyntaxError
    end).

(** Values that JSON text carries exactly: no [undefined], and no object
    with a repeated key. *)
Fixpoint jsonable (v : value) : Prop :=
  match v with
  | VUndefined => False
  | VNull | VBool _ | VNum _ | VStr _ => True
  | VArr items =>
      (fix all (l : list value) : Prop :=
         match l with
         | [] => True
         | e :: r => jsonable e /\ all r
         end) items
  | VObj fields =>
      NoDup (List.map fst fields)
      /\ (fix all (l : list (string * value)) : Prop :=
            match l with
            | [] => True
            | (_, e) :: r => jsonable e /\ all r
            end) fields
  end.

(** Nesting depth plus the longest run of elements: enough fuel to read the
    value back. *)
Fixpoint weight (v : value) : nat :=
  match v with
  | VArr items =>
      S ((fix sum (l : list value) : nat :=
            match l with
            | [] => O
            | e :: r => (S (weight e) + sum r)%nat
            end) items)
  | VObj fields =>
      S ((fix sum (l : list (string * value)) : nat :=
            match l with
            | [] => O
            | (_, e) :: r => (S (weight e) + sum r)%nat
            end) fields)
  | _ => 1%nat
  end.

(** The element and member texts that [stringify] joins. *)
Definition elements_text (items : list value) : list string :=
  List.map (fun e => default "null" (stringify e)) items.

Fixpoint members_text (fields : list (string * value)) : list string :=
  match fields with
  | [] => []
  | (k, e) :: r =>
      match stringify e with
      | Some t => (quote k +:+ ":" +:+ t) :: members_text r
      | None => members_text r
      end
  end.

(** The fuel the elements of an array, or the members of an object, use. *)
Fixpoint weights (l : list value) : nat :=
  match l with
  | [] => O
  | e :: r => (S (weight e) + weights r)%nat
  end.

(** Text that may follow a value inside a larger value: nothing, a comma,
    or a closing bracket or brace. *)
Definition delimited (rest : string) : Prop :=
  match rest with
  | EmptyString => True
  | String c _ => JS.code c = 44 \/ JS.code c = 93 \/ JS.code c = 125
  end.

(** A value whose text is read back: the text starts a value, is at least
    as long as the fuel the value needs, and parses to the value in front
    of any delimited rest. *)
Definition reads_back (v : value) : Prop :=
  jsonable v ->
  exists t, stringify v = Some t
    /\ (exists c r, t = String c r /\ is_ws c = false /\ JS.code c <> 93)
    /\ (weight v <= String.length t)%nat
    /\ forall fuel rest, (weight v <= fuel)%nat -> delimited rest ->
         parse_value fuel (t +:+ rest) = Ok v rest.

End Json.

(** ** localStorage helpers (lib/utils/storage.ts) *)

Module Storage.
Import Value Json.

Definition REVIEW_STATE_KEY : string := "zenchi-keep-review-state".
Definition NOTIFICATION_SETTINGS_KEY : string :=
  "zenchi-keep-notification-settings".

(** The [localStorage] object: its items, and whether reading or writing
    throws (storage disabled, quota exceeded). *)
Record localStorage := {
  items : gmap string string;
  getItemThrows : bool;
  setItemThrows : bool;
}.

(** [None] is a context without [window] (the server). *)
Definition context := option localStorage.

Definition defaultReviewState : value :=
  VObj [("reviewedIds", VArr []); ("skippedIds", VArr []);
        ("lastReviewDate", VStr EmptyString);
        ("sessionStats", VObj [("reviewed", VNum 0); ("skipped", VNum 0)])].

Definition defaultNotificationSettings : value :=
  VObj [("enabled", VBool false); ("schedule", VArr []);
        ("lastNotificationDate", VStr EmptyString)].

(** [localStorage.setItem(key, JSON.stringify(v))] inside [try]/[catch];
    [setItem] stores the string "undefined" for an [undefined] text. *)
Definition write (key : string) (v : value) (ctx : context) : context :=
  match ctx with
  | None => None
  | Some ls =>
      if setItemThrows ls then Some ls
      else Some {| items := <[key := default "undefined" (stringify v)]> (items ls);
                   getItemThrows := getItemThrows ls;
                   setItemThrows := setItemThrows ls |}
  end.

(** The common shape of the two readers: the default without a window, when
    reading throws, when nothing (or the empty string) is stored, when the
    text is not JSON and when [valid] rejects the parsed value or throws;
    [valid] gives [None] for a [TypeError].  The result is [None] when the
    stored text is outside the modelled JSON fragment. *)
Definition read (key : string) (dflt : value) (valid : value -> option bool)
    (ctx : context) : option value :=
  match ctx with
  | None => Some dflt
  | Some ls =>
      if getItemThrows ls then Some dflt
      else
        match items ls !! key with
        | None => Some dflt
        | Some EmptyString => Some dflt
        | Some stored =>
            match JSON_parse stored with
            | Ok parsed _ =>
                match valid parsed with
                | Some true => Some parsed
                | Some false | None => Some dflt
                end
            | SyntaxError => Some dflt
            | Unsupported | OutOfFuel => None
            end
        end
  end.

(** The structure check of [getNotificationSettings]. *)
Definition validNotificationSettings (parsed : value) : option bool :=
  match get parsed "enabled", get parsed "schedule",
        get parsed "lastNotificationDate" with
  | Some enabled, Some schedule, Some lastNotificationDate =>
      Some (bool_decide (typeof enabled = "boolean")
            && isArray schedule
            && bool_decide (typeof lastNotificationDate = "string"))
  | _, _, _ => None
  end.

(** The structure check of [getReviewState]; [parsed.sessionStats &&] guards
    the reads of its fields. *)
Definition validReviewState (parsed : value) : option bool :=
  match get parsed "reviewedIds", get parsed "skippedIds",
        get parsed "lastReviewDate", get parsed "sessionStats" with
  | Some reviewedIds, Some skippedIds, Some lastReviewDate, Some sessionStats =>
      Some (isArray reviewedIds && isArray skippedIds
            && bool_decide (typeof lastReviewDate = "string")
            && truthy sessionStats
            && bool_decide (typeof (default VUndefined (get sessionStats "reviewed"))
                            = "number")
            && bool_decide (typeof (default VUndefined (get sessionStats "skipped"))
                            = "number"))
  | _, _, _, _ => None
  end.

Definition getNotificationSettings : context -> option value :=
  read NOTIFICATION_SETTINGS_KEY defaultNotificationSettings
    validNotificationSettings.

Definition setNotificationSettings (settings : value) : context -> context :=
  write NOTIFICATION_SETTINGS_KEY settings.

Definition getReviewState : context -> option value :=
  read REVIEW_STATE_KEY defaultReviewState validReviewState.

Definition setReviewState (state : value) : context -> context :=
  write REVIEW_STATE_KEY state.

(** A [NotificationSettings] object as the TypeScript interface types it. *)
Definition settingsValue (s : Hook.NotificationSettings) : value :=
  VObj [("enabled", VBool (Hook.enabled s));
        ("schedule", VArr (List.map VStr (Hook.schedule s)));
        ("lastNotificationDate", VStr (Hook.lastNotificationDate s))].

(** The structure the specification calls valid: an object whose [enabled]
    is a boolean, [schedule] an array and [lastNotificationDate] a string. *)
Definition structurallyValid (v : value) : Prop :=
  exists b items d,
    get v "enabled" = Some (VBool b) /\ get v "schedule" = Some (VArr items)
    /\ get v "lastNotificationDate" = Some (VStr d).

(** A browser context whose storage neither fails to read nor to write. *)
Definition capable (ctx : context) : Prop :=
  exists ls, ctx = Some ls /\ getItemThrows ls = false /\ setItemThrows ls = false.

End Storage.

(** ** The flashcard hook (lib/hooks/useFlashcards.ts) *)

Module Flashcards.
Import Value Json Storage.

Record hook := {
  currentBookmark : option value;    (* [None] is [null] *)
  reviewedCount : value;
  skippedCount : value;
}.








(** [resetSession] *)
Definition resetSession (h : hook) (ctx : context) : hook * context :=
  ({| currentBookmark := None; reviewedCount := VNum 0; skippedCount := VNum 0 |},
   setReviewState defaultReviewState ctx).

End Flashcards.

(** ** The offline-cache worker (lib/pwa/service-worker.ts)

    Requests are GET requests, the only ones the Cache API stores and
    matches; a cache is keyed by the request URL. *)

Module OfflineCache.
Import Value.

Definition CACHE_NAME : string := "zenchi-keep-v1".
Definition API_CACHE_NAME : string := "zenchi-keep-api-v1".
Definition CACHE_ROUTES : list string := ["/"; "/flashcards"; "/settings"].

(** A request, by the parts [new URL(request.url)] gives, and its [Accept]
    header. *)
Record request := {
  origin : string;
  pathname : string;
  search : string;
  accept : option string;
}.

(** [request.url] *)
Definition urlOf (r : request) : string := origin r +:+ pathname r +:+ search r.

Record response := {
  status : Z;
  contentType : string;
  body : string;
}.

(** [caches]: the caches in creation order, each from URL to response. *)
Definition caches := list (string * gmap string response).

(** [caches.match(request)]: the first cache that holds the URL answers. *)
Fixpoint caches_match (cs : caches) (url : string) : option response :=
  match cs with
  | [] => None
  | (_, c) :: rest =>
      match c !! url with
      | Some r => Some r
      | None => caches_match rest url
      end
  end.

(** [caches.open(name).then(cache => cache.put(request, response))]: the
    cache is created at the end when there is none of that name. *)
Fixpoint cache_put (cs : caches) (name url : string) (r : response) : caches :=
  match cs with
  | [] => [(name, {[url := r]})]
  | (n, c) :: rest =>
      if decide (n = name) then (n, <[url := r]> c) :: rest
      else (n, c) :: cache_put rest name url r
  end.

(** The synthesized responses. *)
Definition offlineApi : response :=
  {| status := 503; contentType := "application/json";
     body := default EmptyString
               (Json.stringify
                  (VObj [("error", VStr "Offline: No cached data available")])) |}.

Definition offlineText : response :=
  {| status := 503; contentType := "text/plain"; body := "Offline" |}.

Definition offlineHtml : response :=
  {| status := 503; contentType := "text/html";
     body := "<!DOCTYPE html><html><head><title>Offline</title></head>"
             +:+ "<body><h1>You are offline</h1>"
             +:+ "<p>Please check your connection and try again.</p>"
             +:+ "</body></html>" |}.

(** [networkFirstStrategy]; [network] is the outcome of [fetch(request)],
    [None] when it rejects. *)
Definition networkFirstStrategy (network : option response) (req : request)
    (cacheName : string) (cs : caches) : response * caches :=
  match network with
  | Some networkResponse =>
      (networkResponse, cache_put cs cacheName (urlOf req) networkResponse)
  | None =>
      match caches_match cs (urlOf req) with
      | Some cachedResponse => (cachedResponse, cs)
      | None =>
          if JS.includes "/api/" (urlOf req) then (offlineApi, cs)
          else (offlineText, cs)
      end
  end.

(** [cacheFirstStrategy]; the response is [None] when the network error is
    thrown again. *)
Definition cacheFirstStrategy (network : option response) (req : request)
    (cacheName : string) (cs : caches) : option response * caches :=
  match caches_match cs (urlOf req) with
  | Some cachedResponse => (Some cachedResponse, cs)
  | None =>
      match network with
      | Some networkResponse =>
          (Some networkResponse,
           cache_put cs cacheName (urlOf req) networkResponse)
      | None =>
          match accept req with
          | Some a =>
              if JS.includes "text/html" a then (Some offlineHtml, cs)
              else (None, cs)
          | None => (None, cs)
          end
      end
  end.

(** What the [fetch] listener does with an event. *)
Inductive handled :=
  | NotHandled                       (* no [respondWith]: the browser fetches *)
  | Responded (r : response)
  | Failed.                          (* [respondWith] got a rejected promise *)

(** The [fetch] listener of a worker at [location]. *)
Definition onfetch (location : string) (network : option response)
    (req : request) (cs : caches) : handled * caches :=
  if negb (bool_decide (origin req = location)) then (NotHandled, cs)
  else if JS.startsWith "/api/" (pathname req) then
    let '(r, cs') := networkFirstStrategy network req API_CACHE_NAME cs in
    (Responded r, cs')
  else if bool_decide (pathname req ∈ CACHE_ROUTES)
          || JS.startsWith "/_next/static/" (pathname req) then
    match cacheFirstStrategy network req CACHE_NAME cs with
    | (Some r, cs') => (Responded r, cs')
    | (None, cs') => (Failed, cs')
    end
  else
    let '(r, cs') := networkFirstStrategy network req CACHE_NAME cs in
    (Responded r, cs').

(** The [activate] listener: every cache but the two of this version is
    deleted. *)
Definition onactivate (cs : caches) : caches :=
  List.filter (fun nc => negb (negb (bool_decide (nc.1 = CACHE_NAME))
                               && negb (bool_decide (nc.1 = API_CACHE_NAME))))
    cs.

(** No cache of another name holds the URL. *)
Definition onlyIn (name url : string) (cs : caches) : Prop :=
  forall n c, (n, c) ∈ cs -> n <> name -> c !! url = None.

(** Every cache is one of the two of this version. *)
Definition current (cs : caches) : Prop :=
  Forall (fun nc => nc.1 = CACHE_NAME \/ nc.1 = API_CACHE_NAME) cs.


End OfflineCache.

(** ** The settings component (components/NotificationSettings.tsx) *)

Module SettingsUI.
Import Hook.

(** The component's state that the handlers below read and write. *)
Record ui := {
  settings : NotificationSettings;
  newTime : string;
  saveError : option string;
}.

Definition isValidTime (time : string) : bool := Entry.timeRegex_test time.

(** [{ ...settings, schedule: updatedSchedule }] *)
Definition withSchedule (s : NotificationSettings) (l : list string)
    : NotificationSettings :=
  {| enabled := enabled s; schedule := l;
     lastNotificationDate := lastNotificationDate s |}.

(** [handleAddTime]; [[...schedule, newTime].sort()] is the list in the
    order of [JS.le]. *)
Definition handleAddTime (u : ui) : ui :=
  if bool_decide (JS.trim (newTime u) = EmptyString)
     || negb (isValidTime (newTime u))
  then u
  else if bool_decide (newTime u ∈ schedule (settings u))
  then {| settings := settings u; newTime := newTime u;
          saveError := Some "This time is already in your schedule" |}
  else {| settings :=
            withSchedule (settings u)
              (merge_sort JS.le (schedule (settings u) ++ [newTime u]));
          newTime := EmptyString; saveError := None |}.

(** [handleRemoveTime] *)
Definition handleRemoveTime (timeToRemove : string) (u : ui) : ui :=
  {| settings :=
       withSchedule (settings u)
         (List.filter (fun time => negb (bool_decide (time = timeToRemove)))
            (schedule (settings u)));
     newTime := newTime u; saveError := None |}.

(** [handleToggleEnabled], with the page timers of the hook. *)
Definition handleToggleEnabled (e : env) (u : ui) (p : page) : ui * page :=
  let updatedSettings :=
    {| enabled := negb (enabled (settings u));
       schedule := schedule (settings u);
       lastNotificationDate := lastNotificationDate (settings u) |} in
  ({| settings := updatedSettings; newTime := newTime u; saveError := None |},
   if negb (enabled updatedSettings) then cancelNotifications e p else p).

(** [handleSaveSettings]: the component, the page and the storage
    afterwards.  The helpers it calls catch their own errors, so that its
    [catch] block is never entered. *)
Definition handleSaveSettings (e : env) (u : ui) (p : page)
    (ctx : Storage.context) : option (ui * page * Storage.context) :=
  let ctx1 :=
    Storage.setNotificationSettings (Storage.settingsValue (settings u)) ctx in
  let cleared :=
    {| settings := settings u; newTime := newTime u; saveError := None |} in
  if enabled (settings u) && negb (bool_decide (schedule (settings u) = []))
  then
    let '(granted, p1) :=
      if decide (permissionState p = Granted) then (true, p)
      else requestNotificationPermission e p in
    if negb granted
    then Some ({| settings := settings u; newTime := newTime u;
                  saveError := Some "Notification permission is required" |},
               p1, ctx1)
    else
      match scheduleNotifications e (settings u) p1 with
      | Some p2 => Some (cleared, p2, ctx1)
      | None => None
      end
  else Some (cleared, cancelNotifications e p, ctx1).

(** A schedule as the component keeps it: well-formed entries in strictly
    increasing order. *)
Definition tidy (l : list string) : Prop :=
  Forall (fun time => isValidTime time = true) l
  /\ StronglySorted (fun a b => JS.ltb a b = true) l.

End SettingsUI.

(** ** /api/notifications/schedule *)

Module ScheduleRoute.
Import Value Auth.

Inductive result :=
  | Unauthorized                 (* 401 *)
  | Failed                       (* 500, from the [catch] block *)
  | Schedule (nextNotificationTime : option Z) (bookmarkPreview : value).

(** [randomBookmarks.length > 0 ? randomBookmarks[0] : null] *)
Definition preview (randomBookmarks : list value) : value :=
  default VNull (head randomBookmarks).

(** The entries [time.split(':')] can be called on: only a string has a
    [split] method, any other entry makes the call a [TypeError]. *)
Fixpoint entries (items : list value) : option (list string) :=
  match items with
  | [] => Some []
  | VStr s :: rest =>
      match entries rest with
      | Some l => Some (s :: l)
      | None => None
      end
  | _ :: _ => None
  end.

(** [GET] at the instant [now] in the zone [tz].  [randomBookmarks] is the
    outcome of [getRandomBookmarks(1)], [None] when it throws.  The
    instant stands for its [toISOString] rendering.  The result is [None]
    for stored settings whose schedule is not an array, or holds a string
    without a plain decimal reading. *)
Definition GET (tz now : Z) (API_KEY : option string) (h : headers)
    (store : gmap string value) (randomBookmarks : option (list value))
    : option result :=
  if negb (validateApiKey_schedule API_KEY h) then Some Unauthorized
  else
    let answer (nextNotificationTime : option Z) :=
      match randomBookmarks with
      | Some l => Some (Schedule nextNotificationTime (preview l))
      | None => Some Failed
      end in
    match ServerStorage.getServerNotificationSettings store
            SettingsRoute.userId with
    | None => answer None
    | Some settings =>
        if negb (truthy settings) then answer None
        else if negb (truthy (default VUndefined (get settings "enabled")))
        then answer None
        else
          match default VUndefined (get settings "schedule") with
          | VArr [] => answer None
          | VArr items =>
              match entries items with
              | None => Some Failed
              | Some schedule =>
                  match Scheduler.calculateNextNotificationTime tz now
                          schedule with
                  | Scheduler.At t => answer (Some t)
                  | Scheduler.Null => answer None
                  | Scheduler.NotANumber => None
                  end
              end
          | schedule => if truthy schedule then None else answer None
          end
    end.

End ScheduleRoute.

(** ** Pagination of the home page (app/page.tsx) *)

Module Home.
Import Value.

(** The body of a successful /api/bookmarks response. *)
Record data := {
  bookmarks : list value;
  hasMore : bool;
  nextCursor : option string;          (* [None] is [undefined] *)
}.

(** The component's state that pagination reads and writes. *)
Record home := {
  shown : list value;                  (* [bookmarks] *)
  more : bool;                         (* [hasMore] *)
  cursorHistory : list string;
  currentCursor : option string;
  currentPage : Z;
  error : option string;
}.

(** [if (cursor)]: the cursor sent, [None] when it is [undefined] or
    empty. *)
Definition sent (cursor : option string) : option string :=
  match cursor with
  | Some EmptyString => None
  | _ => cursor
  end.

(** [fetchBookmarks(cursor, pageNumber, search)] for the current search.
    [server] is the outcome of the request for the cursor sent: the data,
    or the message of the error thrown. *)
Definition fetchBookmarks (server : option string -> string + data)
    (cursor : option string) (pageNumber : option Z) (st : home) : home :=
  match server (sent cursor) with
  | inr d =>
      {| shown := bookmarks d; more := hasMore d;
         cursorHistory := cursorHistory st; currentCursor := nextCursor d;
         currentPage := default (currentPage st) pageNumber;
         error := None |}
  | inl msg =>
      {| shown := shown st; more := more st;
         cursorHistory := cursorHistory st; currentCursor := currentCursor st;
         currentPage := currentPage st; error := Some msg |}
  end.

Definition withHistory (newHistory : list string) (page : Z) (st : home)
    : home :=
  {| shown := shown st; more := more st; cursorHistory := newHistory;
     currentCursor := currentCursor st; currentPage := page;
     error := error st |}.

(** [handleNext] *)
Definition handleNext (server : option string -> string + data) (st : home)
    : home :=
  match sent (currentCursor st) with
  | Some cursor =>
      fetchBookmarks server (Some cursor) (Some (currentPage st + 1))
        (withHistory (cursorHistory st ++ [cursor]) (currentPage st + 1) st)
  | None => st
  end.

(** [handlePrevious] *)
Definition handlePrevious (server : option string -> string + data)
    (st : home) : home :=
  match cursorHistory st with
  | _ :: _ =>
      let newHistory := removelast (cursorHistory st) in
      let previousCursor := last newHistory in
      let newPage := currentPage st - 1 in
      fetchBookmarks server previousCursor (Some newPage)
        (withHistory newHistory newPage st)
  | [] =>
      fetchBookmarks server None (Some 1) (withHistory [] 1 st)
  end.

(** What the state shows is the server's page for the last cursor of the
    history (the first page when the history is empty), no cursor of the
    history is empty, and the page number counts the history. *)
Definition settled (server : option string -> string + data) (st : home)
    : Prop :=
  server (last (cursorHistory st))
  = inr {| bookmarks := shown st; hasMore := more st;
           nextCursor := currentCursor st |}
  /\ Forall (fun c => c <> EmptyString) (cursorHistory st)
  /\ currentPage st = Z.of_nat (List.length (cursorHistory st)) + 1
  /\ error st = None.

End Home.

(** ** Bookmarks from Notion (lib/notion.ts) *)

Module Notion.

Record Bookmark := {
  id : string;
  name : string;
  link : string;
  type : string;
  status : string;
}.

(** What [getBookmarks] returns. *)
Record result := {
  bookmarks : list Bookmark;
  hasMore : bool;
  nextCursor : option string;           (* [None] is [undefined] *)
}.

(** [cachedBookmarks] and [cacheTimestamp]. *)
Record cache := {
  cachedBookmarks : option (list Bookmark);   (* [None] is [null] *)
  cacheTimestamp : Z;
}.

Definition noCache : cache := {| cachedBookmarks := None; cacheTimestamp := 0 |}.

Definition CACHE_TTL : Z := 5 * 60 * 1000.

Inductive outcome :=
  | Returned (allBookmarks : list Bookmark)
  | Thrown
  | OutOfFuel.

Section Queries.

(** [getBookmarks(100, cursor)]: the page for a cursor, [None] when the
    call throws. *)
Variable getBookmarks : option string -> option result.

(** The [while (hasMore)] loop of [getAllBookmarks]; [fuel] bounds the
    number of pages read. *)
Fixpoint collect (fuel : nat) (cursor : option string)
    (allBookmarks : list Bookmark) : outcome :=
  match fuel with
  | O => OutOfFuel
  | S f =>
      match getBookmarks cursor with
      | None => Thrown
      | Some r =>
          let allBookmarks' := (allBookmarks ++ bookmarks r)%list in
          if hasMore r then collect f (nextCursor r) allBookmarks'
          else Returned allBookmarks'
      end
  end.

(** [getAllBookmarks] at the instant [now]; an array, also an empty one, is
    truthy. *)
Definition getAllBookmarks (fuel : nat) (now : Z) (c : cache)
    : outcome * cache :=
  let load :=
    match collect fuel None [] with
    | Returned allBookmarks =>
        (Returned allBookmarks,
         {| cachedBookmarks := Some allBookmarks; cacheTimestamp := now |})
    | o => (o, c)
    end in
  match cachedBookmarks c with
  | Some cached =>
      if now - cacheTimestamp c <? CACHE_TTL then (Returned cached, c)
      else load
  | None => load
  end.

End Queries.

(** The pages of a database: each but the last says there is more and
    names the cursor of the next. *)
Fixpoint chain (getBookmarks : option string -> option result)
    (cursor : option string) (pages : list result) : Prop :=
  match pages with
  | [] => False
  | [r] => getBookmarks cursor = Some r /\ hasMore r = false
  | r :: rest =>
      getBookmarks cursor = Some r /\ hasMore r = true
      /\ chain getBookmarks (nextCursor r) rest
  end.

Section Featured.

(** [Math.floor(Math.random() * n)] at the [i]-th draw. *)
Variable randomIndex : nat -> nat -> nat.

(** The [for] loop of [getFeaturedBookmarks], [count] rounds from the
    [i]-th draw on. *)
Fixpoint pick (count i : nat) (available featured : list Bookmark)
    : list Bookmark :=
  match count, available with
  | S count', _ :: _ =>
      let index := randomIndex i (List.length available) in
      match available !! index with
      | Some b => pick count' (S i) (delete index available)
                    (featured ++ [b])%list
      | None => featured      (* not reached: the index is below the length *)
      end
  | _, _ => featured
  end.

(** [getFeaturedBookmarks], given what [getAllBookmarks] returned. *)
Definition getFeaturedBookmarks (allBookmarks : list Bookmark)
    : list Bookmark :=
  match allBookmarks with
  | [] => []
  | _ => pick 3 0 allBookmarks []
  end.

End Featured.

End Notion.

(** ** /api/flashcards/random and the query the flashcard hook sends *)

Module FlashcardsRoute.
Import Value.

(** [fetchRandomBookmark] of the hook: the value of the [excludeIds] query
    parameter for the ids read from the review state, [None] when the
    parameter is left out. *)
Definition excludeIdsParam (reviewedIds skippedIds : list string)
    : option string :=
  let excludeIds := (reviewedIds ++ skippedIds)%list in
  match excludeIds with
  | [] => None
  | _ =>
      match join "," excludeIds with
      | EmptyString => None
      | param => Some param
      end
  end.

(** The route: [excludeIdsParam.split(',').map(id => id.trim())
    .filter(id => id.length > 0)], [None] being [undefined]. *)
Definition excludeIds (excludeIdsParam : option string)
    : option (list string) :=
  match excludeIdsParam with
  | None | Some EmptyString => None
  | Some param =>
      Some (List.filter (fun id => negb (bool_decide (id = EmptyString)))
              (List.map JS.trim (JS.split "," param)))
  end.

Definition availableCount (allBookmarks : list Notion.Bookmark)
    (excludeIds : option (list string)) : Z :=
  match excludeIds with
  | Some ids =>
      Z.of_nat (List.length
                  (List.filter
                     (fun bookmark => negb (bool_decide (Notion.id bookmark ∈ ids)))
                     allBookmarks))
  | None => Z.of_nat (List.length allBookmarks)
  end.

Inductive response :=
  | Ok (bookmark : option Notion.Bookmark) (remainingCount : Z)
  | Failed.                               (* 500 *)

(** [GET].  [allBookmarks] and [getRandomBookmarks] are the outcomes of the
    two calls into lib/notion, [None] when they throw. *)
Definition GET (excludeIdsParam : option string)
    (allBookmarks : option (list Notion.Bookmark))
    (getRandomBookmarks : option (list string)
                          -> option (list Notion.Bookmark))
    : response :=
  let excludeIds := excludeIds excludeIdsParam in
  match allBookmarks with
  | None => Failed
  | Some allBookmarks =>
      let availableCount := availableCount allBookmarks excludeIds in
      match getRandomBookmarks excludeIds with
      | None => Failed
      | Some [] => Ok None 0
      | Some (bookmark :: _) => Ok (Some bookmark) (availableCount - 1)
      end
  end.

(** An id as Notion gives them: not empty, no comma in it and no white
    space around it. *)
Definition plain (id : string) : Prop :=
  id <> EmptyString /\ JS.trim id = id
  /\ Forall (fun c => c <> ","%char) (list_ascii_of_string id).

End FlashcardsRoute.

(** * Properties *)

(** ** Decimal numerals and [parseInt] *)

Module JSFacts.
Import JS.

Lemma digit_val_pretty_N_char (d : N) :
  (d < 10)%N -> digit_val (pretty_N_char d) = Some (Z.of_N d).
Proof.
  intros Hd.
  assert (d = 0 \/ d = 1 \/ d = 2 \/ d = 3 \/ d = 4 \/ d = 5 \/ d = 6
          \/ d = 7 \/ d = 8 \/ d = 9)%N as Hcases by lia.
  repeat (destruct Hcases as [-> | Hcases]; [reflexivity |]).
  subst d. reflexivity.
Qed.

(** Reading back the digits that [pretty_N_go] writes in front of [s]. *)
Lemma digits_go_pretty_N_go (x : N) :
  exists p : Z, forall s acc,
    digits_go 10 digit_val acc (pretty_N_go x s)
    = digits_go 10 digit_val (acc * p + Z.of_N x) s.
Proof.
  induction (N.lt_wf_0 x) as [x _ IH].
  destruct (decide (x = 0%N)) as [-> | Hx].
  - exists 1. intros s acc. rewrite pretty_N_go_0. f_equal. lia.
  - destruct (IH (x `div` 10)%N) as [p Hp].
    { apply N.div_lt; lia. }
    exists (p * 10). intros s acc.
    rewrite pretty_N_go_step by lia.
    rewrite Hp. simpl.
    rewrite digit_val_pretty_N_char by (apply N.mod_lt; lia).
    f_equal.
    pose proof (N.div_mod x 10 ltac:(lia)) as Hdm.
    rewrite N2Z.inj_mod, N2Z.inj_div in *.
    assert (Z.of_N x = 10 * (Z.of_N x / 10) + Z.of_N x mod 10) by
      (apply Z.div_mod; lia).
    change (Z.of_N 10) with 10. lia.
Qed.

(** A positive numeral starts with a digit from 1 to 9. *)
Lemma pretty_N_go_head (x : N) (s : string) :
  (0 < x)%N ->
  exists d r, (1 <= d <= 9)%N /\ pretty_N_go x s = String (pretty_N_char d) r.
Proof.
  revert s. induction (N.lt_wf_0 x) as [x _ IH]. intros s Hx.
  rewrite pretty_N_go_step by done.
  destruct (decide (x < 10)%N) as [Hlt | Hge].
  - rewrite N.div_small, N.mod_small, pretty_N_go_0 by lia.
    exists x, s. split; [lia | reflexivity].
  - apply IH.
    + apply N.div_lt; lia.
    + apply N.div_str_pos; lia.
Qed.

Local Ltac eval_chars :=
  repeat match goal with
    | |- context [is_white ?c] =>
        let v := eval vm_compute in (is_white c) in
        change (is_white c) with v
    | |- context [digit_val (Ascii ?a ?b ?c ?d ?e ?f ?g ?h)] =>
        let v := eval vm_compute in (digit_val (Ascii a b c d e f g h)) in
        change (digit_val (Ascii a b c d e f g h)) with v
    end.

Local Ltac eval_head :=
  cbn [trim_start pretty_N_char]; eval_chars;
  cbn -[digits_go Z.mul Z.opp]; eval_chars;
  cbn -[digits_go Z.mul Z.opp];
  split; f_equal; lia.

(** A numeral that starts with a digit from 1 to 9 is read in radix 10,
    with or without a minus sign in front. *)
Lemma parseInt_digit_head (c : ascii) (r : string) (d : N) :
  (1 <= d <= 9)%N -> c = pretty_N_char d ->
  parseInt (String c r) = Some (digits_go 10 digit_val 0 (String c r))
  /\ parseInt (String "-" (String c r))
     = Some (- digits_go 10 digit_val 0 (String c r)).
Proof.
  intros Hd ->.
  assert (d = 1 \/ d = 2 \/ d = 3 \/ d = 4 \/ d = 5 \/ d = 6
          \/ d = 7 \/ d = 8 \/ d = 9)%N as Hcases by lia.
  unfold parseInt.
  repeat (destruct Hcases as [-> | Hcases]; [eval_head |]).
  subst d. eval_head.
Qed.

Lemma parseInt_positive_numeral (x : N) :
  (0 < x)%N ->
  parseInt (pretty_N_go x "") = Some (Z.of_N x)
  /\ parseInt (String "-" (pretty_N_go x "")) = Some (- Z.of_N x).
Proof.
  intros Hx.
  destruct (digits_go_pretty_N_go x) as [p Hp].
  specialize (Hp "" 0). simpl in Hp.
  destruct (pretty_N_go_head x "" Hx) as (d & r & Hd & Hr).
  rewrite Hr in *.
  destruct (parseInt_digit_head _ r d Hd eq_refl) as [H1 H2].
  rewrite H1, H2, Hp. split; reflexivity.
Qed.

(** [parseInt] reads every decimal numeral back. *)
Lemma parseInt_pretty (n : Z) : parseInt (pretty n) = Some n.
Proof.
  destruct n as [| q | q].
  - reflexivity.
  - change (pretty (Z.pos q)) with (pretty_N_go (N.pos q) "").
    apply (parseInt_positive_numeral (N.pos q)). lia.
  - change (pretty (Z.neg q)) with (String "-" (pretty_N_go (N.pos q) "")).
    apply (parseInt_positive_numeral (N.pos q)). lia.
Qed.

End JSFacts.

(** ** Clock arithmetic *)

Module ClockFacts.
Import Clock.

Lemma local_split tz t :
  t + tz = localDay tz t * msPerDay + msOfDay tz t
  /\ 0 <= msOfDay tz t < msPerDay.
Proof.
  unfold localDay, msOfDay, msPerDay. split.
  - pose proof (Z.div_mod (t + tz) 86400000). lia.
  - apply Z.mod_pos_bound. lia.
Qed.

(** An instant that lies [k] milliseconds into local day [d]. *)
Lemma local_of_parts tz t d k :
  t + tz = d * msPerDay + k -> 0 <= k < msPerDay ->
  localDay tz t = d /\ msOfDay tz t = k.
Proof.
  unfold localDay, msOfDay, msPerDay. intros -> Hk.
  rewrite Z.add_comm, Z.div_add, Z.mod_add by lia.
  rewrite Z.div_small, Z.mod_small by lia. lia.
Qed.


(** Minutes since local midnight, as the schedule code computes them. *)
Lemma minutes_of_day tz t :
  getHours tz t * 60 + getMinutes tz t = msOfDay tz t / msPerMinute.
Proof.
  unfold getHours, getMinutes. generalize (msOfDay tz t). intros r.
  unfold msPerHour, msPerMinute.
  pose proof (Z.div_mod r 3600000 ltac:(lia)).
  pose proof (Z.mod_pos_bound r 3600000 ltac:(lia)).
  pose proof (Z.div_mod (r mod 3600000) 60000 ltac:(lia)).
  pose proof (Z.mod_pos_bound (r mod 3600000) 60000 ltac:(lia)).
  apply Z.div_unique with ((r mod 3600000) mod 60000); lia.
Qed.


Lemma localDay_next tz t :
  localDay tz (setDate_next t) = localDay tz t + 1
  /\ msOfDay tz (setDate_next t) = msOfDay tz t.
Proof.
  destruct (local_split tz t) as [E B].
  apply local_of_parts; [| exact B].
  unfold setDate_next. lia.
Qed.

End ClockFacts.

(** ** Schedule entries: the regular expression and the parse *)

Module EntryFacts.
Import Entry.

Lemma code_bound c : 0 <= JS.code c < 256.
Proof.
  unfold JS.code. pose proof (N_ascii_bounded c). lia.
Qed.

Lemma code_digit k : 0 <= k <= 9 -> JS.code (digit k) = 48 + k.
Proof.
  intros Hk. unfold JS.code, digit.
  rewrite N_ascii_embedding by lia. lia.
Qed.

Lemma digit_of_code c : 48 <= JS.code c <= 57 -> c = digit (JS.code c - 48).
Proof.
  intros Hc. unfold digit, JS.code in *.
  replace (48 + (Z.of_N (N_of_ascii c) - 48)) with (Z.of_N (N_of_ascii c)) by lia.
  rewrite N2Z.id. symmetry. apply ascii_N_embedding.
Qed.

Lemma digit_val_digit k : 0 <= k <= 9 -> JS.digit_val (digit k) = Some k.
Proof.
  intros Hk. unfold JS.digit_val. rewrite code_digit by lia.
  destruct (48 <=? 48 + k) eqn:E1; [| lia].
  destruct (48 + k <=? 57) eqn:E2; [| lia].
  simpl. f_equal. lia.
Qed.

Lemma digit_not_colon k : 0 <= k <= 9 -> digit k <> ":"%char.
Proof.
  intros Hk E. apply (f_equal JS.code) in E.
  rewrite code_digit in E by lia. change (JS.code ":") with 58 in E. lia.
Qed.

Lemma in_range_spec lo hi c :
  in_range lo hi c = true <-> JS.code lo <= JS.code c <= JS.code hi.
Proof. unfold in_range. rewrite andb_true_iff, !Z.leb_le. tauto. Qed.

Lemma split_two_two c1 c2 c3 c4 :
  c1 <> ":"%char -> c2 <> ":"%char -> c3 <> ":"%char -> c4 <> ":"%char ->
  JS.split ":" (String c1 (String c2 (String ":" (String c3 (String c4 "")))))
  = [String c1 (String c2 ""); String c3 (String c4 "")].
Proof.
  intros H1 H2 H3 H4. unfold JS.split. simpl.
  rewrite !decide_False by assumption. reflexivity.
Qed.

Lemma Number_two_digits a b :
  0 <= a <= 9 -> 0 <= b <= 9 ->
  Number (String (digit a) (String (digit b) "")) = Some (a * 10 + b).
Proof.
  intros Ha Hb. unfold Number. simpl.
  rewrite !digit_val_digit by lia. simpl. f_equal; lia.
Qed.

Lemma two_digits n :
  0 <= n < 100 -> 0 <= n / 10 <= 9 /\ 0 <= n mod 10 <= 9
                  /\ n = n / 10 * 10 + n mod 10.
Proof.
  intros Hn. pose proof (Z.div_mod n 10 ltac:(lia)).
  pose proof (Z.mod_pos_bound n 10 ltac:(lia)).
  assert (0 <= n / 10) by (apply Z.div_pos; lia).
  assert (n / 10 < 10) by (apply Z.div_lt_upper_bound; lia).
  lia.
Qed.

(** The parse of a rendered entry gives back its hour and minute. *)
Lemma hoursMinutes_hhmm h m :
  0 <= h < 100 -> 0 <= m < 100 -> hoursMinutes (hhmm h m) = Some (h, m).
Proof.
  intros Hh Hm.
  destruct (two_digits h Hh) as (Ha & Hb & Eh).
  destruct (two_digits m Hm) as (Hc & Hd & Em).
  unfold hoursMinutes.
  change (hhmm h m) with
    (String (digit (h / 10)) (String (digit (h mod 10)) (String ":"
       (String (digit (m / 10)) (String (digit (m mod 10)) ""))))).
  rewrite split_two_two by (apply digit_not_colon; lia).
  rewrite !Number_two_digits by lia. congruence.
Qed.

(** The strings the regular expression accepts are exactly the renderings
    of an hour below 24 and a minute below 60. *)
Lemma timeRegex_test_hhmm s :
  timeRegex_test s = true
  <-> exists h m, 0 <= h < 24 /\ 0 <= m < 60 /\ s = hhmm h m.
Proof.
  split.
  - destruct s as [| a [| b [| c [| d [| e [| ? ?]]]]]]; simpl; try discriminate.
    rewrite !andb_true_iff, orb_true_iff, !andb_true_iff,
      !bool_decide_eq_true, !in_range_spec.
    change (JS.code "0") with 48. change (JS.code "1") with 49.
    change (JS.code "3") with 51. change (JS.code "5") with 53.
    change (JS.code "9") with 57.
    intros [[[Hab ->] Hd] He].
    assert (48 <= JS.code a <= 50 /\ 48 <= JS.code b <= 57
            /\ (JS.code a = 50 -> JS.code b <= 51)) as (Ha & Hb & Hab').
    { destruct Hab as [[? ?] | [-> ?]];
        [lia | change (JS.code "2") with 50; lia]. }
    exists ((JS.code a - 48) * 10 + (JS.code b - 48)),
           ((JS.code d - 48) * 10 + (JS.code e - 48)).
    split; [lia |]. split; [lia |].
    unfold hhmm, two. simpl.
    rewrite !Z.div_add_l, !(Z.add_comm (_ * 10)), !Z.mod_add by lia.
    rewrite !Z.div_small, !Z.mod_small, !Z.add_0_r by lia.
    rewrite <- !digit_of_code by lia. reflexivity.
  - intros (h & m & Hh & Hm & ->).
    destruct (two_digits h ltac:(lia)) as (Ha & Hb & Eh).
    destruct (two_digits m ltac:(lia)) as (Hc & Hd & Em).
    unfold hhmm, two. simpl.
    rewrite !andb_true_iff, orb_true_iff, !andb_true_iff,
      !bool_decide_eq_true, !in_range_spec.
    rewrite !code_digit by lia.
    change (JS.code "0") with 48. change (JS.code "1") with 49.
    change (JS.code "3") with 51. change (JS.code "5") with 53.
    change (JS.code "9") with 57.
    assert (h / 10 <= 1 \/ h / 10 = 2 /\ h mod 10 <= 3) as Hcase by lia.
    split; [split; [split |] |]; try lia; try reflexivity.
    destruct Hcase as [? | [E ?]]; [left; lia | right].
    split; [| lia]. rewrite E. reflexivity.
Qed.

End EntryFacts.

(** ** Next occurrence of a schedule entry *)

Module SchedulerFacts.
Import Clock Scheduler ClockFacts EntryFacts.

Lemma setHours_minute tz t x :
  setHours tz t (x / 60) (x mod 60) 0 0
  = localDay tz t * msPerDay - tz + x * msPerMinute.
Proof.
  unfold setHours, msPerHour, msPerMinute, msPerSecond.
  pose proof (Z.div_mod x 60 ltac:(lia)). lia.
Qed.

Section Zone.
Variables tz now : Z.

Let today := localDay tz now * msPerDay - tz.
Let cur := getHours tz now * 60 + getMinutes tz now.

Lemma now_split : now = today + msOfDay tz now
                  /\ 0 <= msOfDay tz now < msPerDay.
Proof. unfold today. pose proof (local_split tz now). lia. Qed.

(** Minute [x] is after the current minute exactly when its slot today
    is after [now]. *)
Lemma minute_after_iff x :
  cur < x <-> now < today + x * msPerMinute.
Proof.
  destruct now_split as [E B]. unfold cur.
  rewrite minutes_of_day. unfold msPerMinute in *.
  pose proof (Z.div_mod (msOfDay tz now) 60000 ltac:(lia)).
  pose proof (Z.mod_pos_bound (msOfDay tz now) 60000 ltac:(lia)).
  lia.
Qed.

(** The page-side computation, in closed form. *)
Lemma scheduledTime_hhmm h m :
  0 <= h < 24 -> 0 <= m < 60 ->
  scheduledTime tz now (Entry.hhmm h m)
  = Some (occurrenceOfMinute tz now (h * 60 + m)).
Proof.
  intros Hh Hm. unfold scheduledTime, occurrenceOfMinute.
  rewrite hoursMinutes_hhmm by lia. f_equal.
  fold today. fold cur.
  pose proof (minute_after_iff (h * 60 + m)) as Hiff.
  assert (setHours tz now h m 0 0 = today + (h * 60 + m) * msPerMinute) as E.
  { unfold setHours, today, msPerHour, msPerMinute, msPerSecond. lia. }
  rewrite E. unfold setDate_next.
  destruct (cur <? h * 60 + m) eqn:Ec.
  - apply Z.ltb_lt in Ec. apply Hiff in Ec.
    destruct (_ <=? now) eqn:El; [apply Z.leb_le in El; lia | reflexivity].
  - apply Z.ltb_ge in Ec.
    destruct (_ <=? now) eqn:El; [lia |].
    apply Z.leb_gt in El. apply Hiff in El. lia.
Qed.



Lemma occurrenceOfMinute_mono x y :
  0 <= x < 1440 -> 0 <= y < 1440 ->
  (cur < y -> cur < x /\ x <= y) ->
  (y <= cur -> cur < x \/ x <= y) ->
  occurrenceOfMinute tz now x <= occurrenceOfMinute tz now y.
Proof.
  intros Hx Hy H1 H2. unfold occurrenceOfMinute. fold cur.
  unfold msPerMinute, msPerDay.
  destruct (cur <? x) eqn:Ex; destruct (cur <? y) eqn:Ey;
    rewrite ?Z.ltb_lt, ?Z.ltb_ge in *; lia.
Qed.

End Zone.

End SchedulerFacts.

Module ServerScheduleFacts.
Import Clock Scheduler ClockFacts EntryFacts SchedulerFacts.

Lemma scheduleMinutes_valid schedule :
  Forall (fun e => Entry.timeRegex_test e = true) schedule ->
  exists mins, scheduleMinutes schedule = Some mins
               /\ Forall2 Entry.denotes schedule mins.
Proof.
  induction 1 as [| e l He _ (mins & E & F)]; simpl.
  - exists []. split; [reflexivity | constructor].
  - apply timeRegex_test_hhmm in He as (h & m & Hh & Hm & ->).
    rewrite hoursMinutes_hhmm, E by lia.
    exists (h * 60 + m :: mins). split; [reflexivity |].
    constructor; [| exact F]. exists h, m. auto.
Qed.

Lemma firstAfter_Some cur l x :
  firstAfter cur l = Some x ->
  x ∈ l /\ cur < x
  /\ (StronglySorted Z.le l -> forall y, y ∈ l -> cur < y -> x <= y).
Proof.
  induction l as [| a l IH]; simpl; [discriminate |].
  destruct (cur <? a) eqn:Ea.
  - intros [= ->]. apply Z.ltb_lt in Ea.
    split; [left |]. split; [exact Ea |].
    intros Hs y Hy _. apply StronglySorted_cons in Hs as [Hall _].
    apply elem_of_cons in Hy as [-> | Hy]; [lia |].
    rewrite Forall_forall in Hall. auto.
  - intros H. apply Z.ltb_ge in Ea.
    destruct (IH H) as (Hin & Hlt & Hmin).
    split; [right; exact Hin |]. split; [exact Hlt |].
    intros Hs y Hy Hcy. apply StronglySorted_cons in Hs as [_ Hs].
    apply elem_of_cons in Hy as [-> | Hy]; [lia | auto].
Qed.

Lemma firstAfter_None cur l :
  firstAfter cur l = None -> forall y, y ∈ l -> y <= cur.
Proof.
  induction l as [| a l IH]; simpl; intros H y Hy.
  - inversion Hy.
  - destruct (cur <? a) eqn:Ea; [discriminate |].
    apply Z.ltb_ge in Ea.
    apply elem_of_cons in Hy as [-> | Hy]; [lia | auto].
Qed.

Lemma sorted_head l :
  StronglySorted Z.le l -> l <> [] ->
  exists f, head l = Some f /\ f ∈ l /\ forall y, y ∈ l -> f <= y.
Proof.
  intros Hs Hne. destruct l as [| f l]; [done |].
  exists f. split; [reflexivity |]. split; [left |].
  intros y Hy. apply StronglySorted_cons in Hs as [Hall _].
  apply elem_of_cons in Hy as [-> | Hy]; [lia |].
  rewrite Forall_forall in Hall. auto.
Qed.

(** The server and worker computation returns the least of the entries'
    next occurrences. *)
Lemma calculateNextNotificationTime_least tz now schedule :
  schedule <> [] ->
  Forall (fun e => Entry.timeRegex_test e = true) schedule ->
  exists t, calculateNextNotificationTime tz now schedule = At t
    /\ (exists e, e ∈ schedule /\ scheduledTime tz now e = Some t)
    /\ (forall e, e ∈ schedule ->
          exists t', scheduledTime tz now e = Some t' /\ t <= t').
Proof.
  intros Hne Hvalid.
  destruct (scheduleMinutes_valid schedule Hvalid) as (mins & Emins & Hden).
  set (sorted := merge_sort Z.le mins).
  assert (sorted ≡ₚ mins) as Hperm by apply merge_sort_Permutation.
  assert (StronglySorted Z.le sorted) as Hsorted
    by apply (StronglySorted_merge_sort Z.le).
  assert (forall y, y ∈ sorted ->
            exists e, e ∈ schedule /\ Entry.denotes e y) as Hback.
  { intros y Hy. rewrite Hperm in Hy.
    apply list_elem_of_lookup in Hy as [i Hi].
    destruct (Forall2_lookup_r _ _ _ _ _ Hden Hi) as (e & He & Hd).
    exists e. split; [| exact Hd]. apply list_elem_of_lookup. eauto. }
  assert (forall e, e ∈ schedule ->
            exists y, y ∈ sorted /\ Entry.denotes e y) as Hforth.
  { intros e He. apply list_elem_of_lookup in He as [i Hi].
    destruct (Forall2_lookup_l _ _ _ _ _ Hden Hi) as (y & Hy & Hd).
    exists y. split; [| exact Hd]. rewrite Hperm.
    apply list_elem_of_lookup. eauto. }
  assert (sorted <> []) as Hsne.
  { intros E. destruct schedule as [| e l]; [done |].
    destruct (Hforth e ltac:(left)) as (y & Hy & _).
    rewrite E in Hy. inversion Hy. }
  assert (forall x, x ∈ sorted ->
            (forall y, y ∈ sorted ->
               occurrenceOfMinute tz now x <= occurrenceOfMinute tz now y) ->
            (exists e, e ∈ schedule
               /\ scheduledTime tz now e = Some (occurrenceOfMinute tz now x))
            /\ (forall e, e ∈ schedule ->
                  exists t', scheduledTime tz now e = Some t'
                             /\ occurrenceOfMinute tz now x <= t')) as Hfin.
  { intros x Hx Hmin. split.
    - destruct (Hback x Hx) as (e & He & h & m & Hh & Hm & -> & ->).
      exists (Entry.hhmm h m). split; [exact He |].
      apply scheduledTime_hhmm; lia.
    - intros e He.
      destruct (Hforth e He) as (y & Hy & h & m & Hh & Hm & -> & ->).
      exists (occurrenceOfMinute tz now (h * 60 + m)).
      split; [apply scheduledTime_hhmm; lia | auto]. }
  assert (forall y, y ∈ sorted -> 0 <= y < 1440) as Hrange.
  { intros y Hy. destruct (Hback y Hy) as (e & _ & h & m & Hh & Hm & _ & ->).
    lia. }
  unfold calculateNextNotificationTime.
  destruct schedule as [| e0 l0]; [done |].
  rewrite Emins. fold sorted.
  destruct (firstAfter _ sorted) as [x |] eqn:Efirst.
  - apply firstAfter_Some in Efirst as (Hx & Hcx & Hleast).
    specialize (Hleast Hsorted).
    exists (occurrenceOfMinute tz now x). split.
    { rewrite setHours_minute. unfold occurrenceOfMinute.
      apply Z.ltb_lt in Hcx. rewrite Hcx. reflexivity. }
    apply Hfin; [exact Hx |].
    intros y Hy. apply occurrenceOfMinute_mono; auto.
  - pose proof (firstAfter_None _ _ Efirst) as Hall.
    destruct (sorted_head sorted Hsorted Hsne) as (f & Ef & Hf & Hfmin).
    rewrite Ef. simpl.
    exists (occurrenceOfMinute tz now f). split.
    { rewrite setHours_minute.
      destruct (localDay_next tz now) as [-> _].
      unfold occurrenceOfMinute.
      destruct (_ <? f) eqn:Ec.
      - apply Z.ltb_lt in Ec. specialize (Hall f Hf). lia.
      - f_equal. lia. }
    apply Hfin; [exact Hf |].
    intros y Hy. apply occurrenceOfMinute_mono; auto.
    + intros Hc. specialize (Hall y Hy). lia.
Qed.



End ServerScheduleFacts.

(** ** GET /api/bookmarks: page size *)

Module BookmarksRouteFacts.
Import BookmarksRoute JSFacts.

Lemma pageSizeParam_parse q :
  JS.parseInt (pageSizeParam q)
  = match q with
    | Some s => match JS.parseInt s with Some n => Some n | None =>
                  if decide (s = "") then Some 10 else None end
    | None => Some 10
    end.
Proof.
  destruct q as [[| c s] |]; try reflexivity.
  simpl. destruct (JS.parseInt (String c s)); reflexivity.
Qed.

(** The claim as the specification words it fails for [pageSize=0]: the
    supplied integer clamped into [1,100] would be 1, the route uses 10. *)
Lemma pageSize_zero_not_clamped :
  ~ (forall n : Z, pageSize (Some (pretty n)) = Z.min (Z.max n 1) 100).
Proof.
  intros H. specialize (H 0). vm_compute in H. discriminate.
Qed.

(** C9 (amended). The effective page size is 10 when the parameter is
    absent, has no leading integer, or that integer is zero; otherwise it
    is the integer clamped into [1,100].  It always lies in [1,100], and
    [pageSize=500] gives the same size as [pageSize=100]. *)
Theorem pageSize_effective :
  (forall q,
     pageSize q
     = match q with
       | None => 10
       | Some s =>
           match JS.parseInt s with
           | None => 10
           | Some n => if n =? 0 then 10 else Z.min (Z.max n 1) 100
           end
       end)
  /\ (forall n : Z,
        pageSize (Some (pretty n))
        = if n =? 0 then 10 else Z.min (Z.max n 1) 100)
  /\ (forall q, 1 <= pageSize q <= 100)
  /\ pageSize (Some "500") = pageSize (Some "100").
Proof.
  assert (forall q,
     pageSize q
     = match q with
       | None => 10
       | Some s =>
           match JS.parseInt s with
           | None => 10
           | Some n => if n =? 0 then 10 else Z.min (Z.max n 1) 100
           end
       end) as Hgen.
  { intros q. unfold pageSize, parsedOrDefault.
    rewrite pageSizeParam_parse.
    destruct q as [s |]; [| reflexivity].
    destruct (JS.parseInt s) as [n |] eqn:E.
    - destruct (n =? 0); reflexivity.
    - destruct (decide (s = "")); reflexivity. }
  split; [exact Hgen |]. split; [| split].
  - intros n. rewrite Hgen, parseInt_pretty. reflexivity.
  - intros q. unfold pageSize. lia.
  - reflexivity.
Qed.

End BookmarksRouteFacts.

(** ** API key validation *)

Module AuthFacts.
Import Auth.

Lemma startsWith_app p s : JS.startsWith p (p +:+ s) = true.
Proof.
  induction p as [| c p IH]; [reflexivity |].
  change (JS.startsWith (String c p) (String c (p +:+ s)) = true). simpl.
  destruct (decide (c = c)); [exact IH | congruence].
Qed.

Lemma startsWith_split p s :
  JS.startsWith p s = true ->
  s = p +:+ JS.substring_from (String.length p) s.
Proof.
  revert s. induction p as [| c p IH]; intros s; simpl.
  - reflexivity.
  - destruct s as [| d s]; [discriminate |].
    destruct (decide (c = d)) as [-> |]; [| discriminate].
    intros H.
    change (String d s = String d (p +:+ JS.substring_from (String.length p) s)).
    f_equal. apply IH, H.
Qed.

Lemma substring_from_app p s :
  JS.substring_from (String.length p) (p +:+ s) = s.
Proof. induction p as [| c p IH]; [reflexivity | exact IH]. Qed.

Lemma matchesExpected_iff key k :
  key <> "" -> matchesExpected (Some key) k = true <-> k = key.
Proof.
  intros Hne. unfold matchesExpected.
  rewrite andb_true_iff, negb_true_iff, bool_decide_eq_false,
    bool_decide_eq_true. tauto.
Qed.

Lemma bearer_iff key a :
  key <> "" ->
  JS.startsWith "Bearer " a
  && matchesExpected (Some key) (JS.substring_from 7 a) = true
  <-> a = "Bearer " +:+ key.
Proof.
  intros Hne. rewrite andb_true_iff, matchesExpected_iff by exact Hne.
  split.
  - intros [Es Em]. rewrite (startsWith_split _ _ Es).
    change (String.length "Bearer ") with 7%nat. rewrite Em. reflexivity.
  - intros ->. split.
    + apply startsWith_app.
    + apply (substring_from_app "Bearer " key).
Qed.

Lemma x_api_key_iff key x :
  key <> "" ->
  negb (bool_decide (x = "")) && matchesExpected (Some key) x = true
  <-> x = key.
Proof.
  intros Hne. rewrite andb_true_iff, negb_true_iff, bool_decide_eq_false,
    matchesExpected_iff by exact Hne.
  split; [tauto |]. intros ->. auto.
Qed.

(** With a key configured, the header checks pass exactly for a request
    that carries the key as a Bearer token or in X-API-Key. *)
Lemma headerKeyValid_iff key h :
  key <> "" -> headerKeyValid (Some key) h = true <-> carriesKey key h.
Proof.
  intros Hne. unfold headerKeyValid, carriesKey.
  destruct h as [a x]. cbn [authorization x_api_key].
  assert ((match a with
           | Some authHeader =>
               JS.startsWith "Bearer " authHeader
               && matchesExpected (Some key) (JS.substring_from 7 authHeader)
           | None => false
           end) = true <-> a = Some ("Bearer " +:+ key)) as Ha.
  { destruct a as [a |].
    - rewrite bearer_iff by exact Hne. split; congruence.
    - split; discriminate. }
  assert ((match x with
           | Some apiKeyHeader =>
               negb (bool_decide (apiKeyHeader = ""))
               && matchesExpected (Some key) apiKeyHeader
           | None => false
           end) = true <-> x = Some key) as Hx.
  { destruct x as [x |].
    - rewrite x_api_key_iff by exact Hne. split; congruence.
    - split; discriminate. }
  destruct (match a with Some _ => _ | None => _ end).
  - split; [| reflexivity]. intros _. left. apply Ha. reflexivity.
  - rewrite Hx. split; [tauto |].
    intros [H | H]; [apply Ha in H; discriminate | exact H].
Qed.

End AuthFacts.

(** ** /api/settings/notifications *)

Module SettingsRouteFacts.
Import Value Auth SettingsRoute AuthFacts.

(** C3. With no API key configured (unset or empty) the settings route
    rejects every GET and POST with status 401 and leaves the store
    untouched, whatever headers the request carries, while the schedule
    route's validation lets every request through. *)
Theorem settings_route_rejects_when_no_key_configured
    (API_KEY : option string) (h : headers) (reqBody : option value)
    (store : gmap string value) :
  API_KEY = None \/ API_KEY = Some "" ->
  status (GET API_KEY h store) = 401
  /\ status (fst (POST API_KEY h reqBody store)) = 401
  /\ snd (POST API_KEY h reqBody store) = store
  /\ validateApiKey_schedule API_KEY h = true.
Proof.
  assert (validateApiKey_settings None h = false) as E1.
  { unfold validateApiKey_settings, headerKeyValid.
    change (matchesExpected None) with (fun _ : string => false).
    destruct (x_api_key h), (authorization h); cbv beta;
      rewrite ?andb_false_r; reflexivity. }
  assert (validateApiKey_settings (Some "") h = false) as E2.
  { unfold validateApiKey_settings, headerKeyValid.
    change (matchesExpected (Some "")) with (fun _ : string => false).
    destruct (x_api_key h), (authorization h); cbv beta;
      rewrite ?andb_false_r; reflexivity. }
  intros [-> | ->]; unfold GET, POST; rewrite ?E1, ?E2; simpl; auto.
Qed.

Lemma settings_route_rejects_when_no_key_configured_witness :
  status (GET None {| authorization := None; x_api_key := None |} ∅) = 401.
Proof.
  apply (settings_route_rejects_when_no_key_configured None
           {| authorization := None; x_api_key := None |} None ∅).
  left. reflexivity.
Defined.

(** C4. The schedule entry [["09:00"]] is an array, not a string, yet the
    authorized POST accepts the body with status 200 and stores it: the
    regular expression is tested against the entry converted to a
    string. *)
Theorem POST_accepts_nested_array (store : gmap string value) :
  let h := {| authorization := None; x_api_key := Some "secret" |} in
  wellShaped nestedBody = false
  /\ status (fst (POST (Some "secret") h (Some nestedBody) store)) = 200
  /\ snd (POST (Some "secret") h (Some nestedBody) store) !! userId
     = Some nestedBody.
Proof.
  intros h. split; [reflexivity |]. split; [reflexivity |].
  change (snd (POST (Some "secret") h (Some nestedBody) store))
    with (<[userId := nestedBody]> store).
  apply lookup_insert_eq.
Qed.

End SettingsRouteFacts.

(** ** Timers *)

Module TimersFacts.
Import Timers.

Section Payload.
Context {A : Type}.
Implicit Types (l : loop A) (ids : list nat).

Lemma clearAll_nextId l ids : nextId (clearAll l ids) = nextId l.
Proof.
  revert l. induction ids as [| i ids IH]; intros l; [reflexivity |].
  simpl. rewrite IH. reflexivity.
Qed.

(** After [clearAll] exactly the timers outside [ids] stay armed. *)
Lemma clearAll_lookup l ids id :
  armed (clearAll l ids) !! id
  = if decide (id ∈ ids) then None else armed l !! id.
Proof.
  revert l. induction ids as [| i ids IH]; intros l.
  - simpl. destruct (decide (id ∈ [])) as [H |]; [inversion H | reflexivity].
  - simpl. rewrite IH. simpl.
    destruct (decide (id ∈ ids)) as [Hin | Hnin].
    + rewrite decide_True by (right; exact Hin). reflexivity.
    + destruct (decide (id = i)) as [-> | Hne].
      * rewrite decide_True by left. apply lookup_delete_eq.
      * rewrite decide_False by (rewrite elem_of_cons; tauto).
        apply lookup_delete_ne. congruence.
Qed.


(** Clearing every id a map records leaves nothing armed, provided every
    armed timer is recorded. *)
Lemma clearAll_recorded l (m : gmap string nat) :
  (forall id, is_Some (armed l !! id) -> exists k, m !! k = Some id) ->
  armed (clearAll l (map_to_list m).*2) = ∅.
Proof.
  intros Htracked. apply map_eq. intros id.
  rewrite clearAll_lookup, lookup_empty.
  destruct (decide (id ∈ (map_to_list m).*2)) as [| Hnin]; [reflexivity |].
  destruct (armed l !! id) as [a |] eqn:E; [| reflexivity].
  destruct (Htracked id ltac:(rewrite E; eauto)) as [k Hk].
  exfalso. apply Hnin. apply list_elem_of_fmap. exists (k, id).
  split; [reflexivity |]. apply elem_of_map_to_list. exact Hk.
Qed.

End Payload.

End TimersFacts.

(** ** The worker's handlers *)

Module WorkerFacts.
Import Worker.

Lemma find_none_route test hasOpenWindow target clientList :
  (forall c, c ∈ clientList -> test c = false) ->
  route test hasOpenWindow target clientList
  = if hasOpenWindow then [OpenWindow target] else [].
Proof.
  intros Hnone. unfold route.
  destruct (List.find _ clientList) as [c |] eqn:E; [| reflexivity].
  apply find_some in E as [Hin Ht].
  apply list_elem_of_In in Hin.
  rewrite (Hnone c Hin) in Ht. discriminate.
Qed.

(** C2. The worker of worker/index.ts compares [client.url] with the
    target by [===].  Client URLs are absolute (none starts with a
    slash), so for a target that is a path (such as the default
    /flashcards) no client matches and a new window is opened, also when
    a client showing the target is in the list; the
    worker of public/sw.js, which tests [includes], focuses that client. *)
Theorem notificationclick_ts_opens_despite_open_client
    (origin : string) (dataUrl : option string) (clientList : list client)
    (c : client) :
  JS.startsWith "/" (urlToOpen dataUrl) = true ->
  (forall c', c' ∈ clientList -> JS.startsWith "/" (url c') = false) ->
  c ∈ clientList -> shows origin c (urlToOpen dataUrl) ->
  notificationclick_ts true dataUrl clientList
  = [CloseNotification; OpenWindow (urlToOpen dataUrl)]
  /\ (hasFocus c = true ->
      exists c', notificationclick_sw true dataUrl clientList
                 = [CloseNotification; Focus c']).
Proof.
  intros Htarget Hclients Hin Hshows. split.
  - unfold notificationclick_ts. f_equal.
    rewrite find_none_route; [reflexivity |].
    intros c' Hc'. apply bool_decide_eq_false. intros E.
    specialize (Hclients c' Hc'). rewrite E in Hclients. congruence.
  - intros Hfocus. unfold notificationclick_sw, route.
    destruct (List.find _ clientList) as [c' |] eqn:E; [eauto |].
    exfalso.
    pose proof (find_none _ _ E c (proj1 (list_elem_of_In _ _) Hin)) as Hc.
    simpl in Hc.
    rewrite Hfocus, andb_true_r in Hc.
    unfold shows, resolve in Hshows. rewrite Htarget in Hshows.
    rewrite Hshows in Hc.
    assert (forall p s, JS.includes s (p +:+ s) = true) as Hinc.
    { intros p s. induction p as [| x p IH].
      - destruct s; simpl; rewrite ?decide_True by reflexivity.
        + reflexivity.
        + assert (JS.startsWith s s = true) as ->.
          { clear. induction s as [| y s IH]; [reflexivity |].
            simpl. rewrite decide_True by reflexivity. exact IH. }
          reflexivity.
      - change (JS.includes s (String x (p +:+ s)) = true).
        simpl. rewrite IH. apply orb_true_r. }
    rewrite Hinc in Hc. discriminate.
Qed.

Lemma notificationclick_ts_opens_despite_open_client_witness :
  let c := {| url := "https://zenchi.app/flashcards"; hasFocus := true |} in
  notificationclick_ts true None [c]
  = [CloseNotification; OpenWindow "/flashcards"]
  /\ notificationclick_sw true None [c] = [CloseNotification; Focus c].
Proof.
  intros c.
  destruct (notificationclick_ts_opens_despite_open_client
              "https://zenchi.app" None [c] c) as [H _].
  - reflexivity.
  - intros c' Hc'. apply list_elem_of_singleton in Hc'. subst c'. reflexivity.
  - left.
  - reflexivity.
  - split; [exact H | reflexivity].
Defined.

End WorkerFacts.

(** ** The notification hook *)

Module HookFacts.
Import Value Hook TimersFacts.

Lemma sendMessageToSW_frame e m p :
  scheduledTimeouts (sendMessageToSW e m p) = scheduledTimeouts p
  /\ loop (sendMessageToSW e m p) = loop p
  /\ error (sendMessageToSW e m p) = error p
  /\ loading (sendMessageToSW e m p) = loading p
  /\ permissionState (sendMessageToSW e m p) = permissionState p.
Proof. unfold sendMessageToSW. destruct (_ && _); simpl; auto. Qed.

(** What [cancelNotifications] does to the timers. *)
Lemma cancelNotifications_timers e p :
  scheduledTimeouts (cancelNotifications e p) = ∅
  /\ loop (cancelNotifications e p)
     = Timers.clearAll (loop p) (map_to_list (scheduledTimeouts p)).*2.
Proof.
  unfold cancelNotifications.
  destruct (sendMessageToSW_frame e Worker.CANCEL_NOTIFICATIONS
    {| scheduledTimeouts := ∅;
       loop := Timers.clearAll (loop p) (map_to_list (scheduledTimeouts p)).*2;
       posted := posted p; permissionState := permissionState p;
       loading := loading p; error := error p |}) as (-> & -> & _).
  auto.
Qed.

Lemma requestNotificationPermission_frame e p :
  scheduledTimeouts (requestNotificationPermission e p).2 = scheduledTimeouts p
  /\ loop (requestNotificationPermission e p).2 = loop p.
Proof.
  unfold requestNotificationPermission.
  destruct (negb _); [simpl; auto |].
  destruct (notificationPermission e); simpl; auto.
  destruct (requestPermission e) as [err | result]; simpl; auto.
  destruct (decide (result = Granted)); simpl; auto.
Qed.


End HookFacts.

Module CancelFacts.
Import Value Hook TimersFacts HookFacts.

Lemma values_singleton (k : string) (id : nat) :
  (map_to_list (<[k := id]> (∅ : gmap string nat))).*2 = [id].
Proof. rewrite insert_empty, map_to_list_singleton. reflexivity. Qed.

(** The worker after two SCHEDULE_NOTIFICATION messages for one time and a
    CANCEL_NOTIFICATIONS message. *)
Lemma worker_cancel_misses_duplicate time delay1 delay2 :
  let st := foldl Worker.onmessage Worker.initial
              [Worker.SCHEDULE_NOTIFICATION time delay1;
               Worker.SCHEDULE_NOTIFICATION time delay2;
               Worker.CANCEL_NOTIFICATIONS] in
  Worker.scheduledNotifications st = ∅
  /\ Timers.armed (Worker.loop st) = {[1%nat := (time, delay1)]}.
Proof.
  simpl. split; [reflexivity |].
  rewrite insert_insert_eq, values_singleton. simpl.
  rewrite delete_insert_eq. rewrite delete_id.
  - apply insert_empty.
  - rewrite lookup_insert_ne by lia. apply lookup_empty.
Qed.

(** Scheduling one entry from a page. *)
Lemma scheduleNotificationForTime_valid e time title url p :
  Entry.timeRegex_test time = true ->
  exists t,
    Scheduler.scheduledTime (tz e) (now e) time = Some t
    /\ exists p',
      scheduleNotificationForTime e time title url p
      = Some (time +:+ "-" +:+ pretty t, p')
      /\ scheduledTimeouts p'
         = <[time +:+ "-" +:+ pretty t := Timers.nextId (loop p)]>
             (scheduledTimeouts p)
      /\ Timers.armed (loop p')
         = <[Timers.nextId (loop p) :=
               {| delay := t - now e; bookmarkTitle := title;
                  bookmarkUrl := url |}]> (Timers.armed (loop p))
      /\ Timers.nextId (loop p') = S (Timers.nextId (loop p))
      /\ error p' = error p /\ loading p' = loading p.
Proof.
  intros Hvalid.
  apply EntryFacts.timeRegex_test_hhmm in Hvalid as (h & m & Hh & Hm & ->).
  eexists. split; [apply SchedulerFacts.scheduledTime_hhmm; lia |].
  unfold scheduleNotificationForTime.
  rewrite SchedulerFacts.scheduledTime_hhmm by lia.
  cbn [Timers.setTimeout].
  match goal with
  | |- context [sendMessageToSW e ?m ?q] =>
      destruct (sendMessageToSW_frame e m q) as (-> & -> & -> & -> & ->)
  end.
  eexists. split; [reflexivity |]. simpl. auto.
Qed.

(** C7. A schedule that names one time twice arms two page timers under
    one [scheduleId], and two worker timers under one [time] key; the
    later id overwrites the earlier one in the map.  [cancelNotifications]
    (called once or twice) and the worker's CANCEL_NOTIFICATIONS handler
    then empty their maps but leave the first timer armed. *)
Theorem cancel_misses_timer_of_repeated_entry
    (e : env) (time : string) (scheduleData bookmarkPreview : value)
    (delay1 delay2 : Z) :
  hasWindow e = true -> hasNotification e = true ->
  notificationPermission e = Granted ->
  fetchSchedule e = FetchResolved true (inr scheduleData) ->
  get scheduleData "bookmarkPreview" = Some bookmarkPreview ->
  Entry.timeRegex_test time = true ->
  (exists p1,
     scheduleNotifications e
       {| enabled := true; schedule := [time; time];
          lastNotificationDate := "" |} initial = Some p1
     /\ let p2 := cancelNotifications e p1 in
        let p3 := cancelNotifications e p2 in
        scheduledTimeouts p2 = ∅
        /\ is_Some (Timers.armed (loop p2) !! 1%nat)
        /\ scheduledTimeouts p3 = ∅
        /\ is_Some (Timers.armed (loop p3) !! 1%nat))
  /\ (let st := foldl Worker.onmessage Worker.initial
                  [Worker.SCHEDULE_NOTIFICATION time delay1;
                   Worker.SCHEDULE_NOTIFICATION time delay2;
                   Worker.CANCEL_NOTIFICATIONS] in
      Worker.scheduledNotifications st = ∅
      /\ Timers.armed (Worker.loop st) = {[1%nat := (time, delay1)]}).
Proof.
  intros Hw Hn Hg Hfetch Hprev Hvalid.
  split; [| apply worker_cancel_misses_duplicate].
  set (p0 := setError None (setLoading true initial)).
  set (q := cancelNotifications e p0).
  destruct (cancelNotifications_timers e p0) as [Hq1 Hq2]. fold q in Hq1, Hq2.
  change (scheduledTimeouts p0) with (∅ : gmap string nat) in Hq2.
  rewrite map_to_list_empty in Hq2. simpl in Hq2.
  set (title := or_else (optionalGet bookmarkPreview "name")
                  (VStr "Your bookmark")).
  set (url := or_else (optionalGet bookmarkPreview "url") (VStr "")).
  destruct (scheduleNotificationForTime_valid e time title url q Hvalid)
    as (t & Et & q1 & E1 & M1 & A1 & N1 & _).
  destruct (scheduleNotificationForTime_valid e time title url q1 Hvalid)
    as (t' & Et' & q2 & E2 & M2 & A2 & N2 & _).
  assert (t' = t) as -> by congruence.
  rewrite Hq1, Hq2 in *. simpl in *.
  rewrite M1, N1 in M2. rewrite A1, N1 in A2.
  rewrite insert_insert_eq in M2.
  exists (setLoading false q2). split.
  { unfold scheduleNotifications. rewrite Hw. simpl. fold p0.
    unfold scheduleTry. rewrite Hn. simpl.
    rewrite decide_True by exact Hg. simpl. fold q.
    rewrite Hfetch, Hprev. fold title. fold url.
    simpl. rewrite E1, E2. reflexivity. }
  cbv zeta.
  set (p2 := cancelNotifications e (setLoading false q2)).
  set (p3 := cancelNotifications e p2).
  destruct (cancelNotifications_timers e (setLoading false q2)) as [C1 C2].
  fold p2 in C1, C2.
  destruct (cancelNotifications_timers e p2) as [D1 D2].
  fold p3 in D1, D2.
  simpl in C2. rewrite M2, values_singleton in C2.
  rewrite C1, map_to_list_empty in D2. simpl in D2.
  split; [exact C1 |].
  assert (is_Some (Timers.armed (loop p2) !! 1%nat)) as Harmed.
  { rewrite C2. simpl. rewrite A2.
    rewrite lookup_delete_ne, lookup_insert_ne by lia.
    rewrite lookup_insert_eq. eauto. }
  split; [exact Harmed |]. split; [exact D1 |].
  rewrite D2. exact Harmed.
Qed.

Lemma cancel_misses_timer_of_repeated_entry_witness :
  let e := exampleEnv
             (FetchResolved true (inr (VObj [("bookmarkPreview", VNull)]))) in
  exists p1,
    scheduleNotifications e
      {| enabled := true; schedule := ["09:00"; "09:00"];
         lastNotificationDate := "" |} initial = Some p1
    /\ scheduledTimeouts (cancelNotifications e p1) = ∅
    /\ is_Some (Timers.armed (loop (cancelNotifications e p1)) !! 1%nat).
Proof.
  intros e.
  destruct (cancel_misses_timer_of_repeated_entry e "09:00"
              (VObj [("bookmarkPreview", VNull)]) VNull 0 0)
    as [(p1 & E & H1 & H2 & _) _]; try reflexivity.
  exists p1. auto.
Defined.


End CancelFacts.

(** ** JSON: reading back what [JSON.stringify] writes *)

Module JsonStringFacts.
Import Value Json.

Lemma append_assoc (a b c : string) : (a +:+ b) +:+ c = a +:+ (b +:+ c).
Proof.
induction a as [| x a IH]; [reflexivity |].
change (String x ((a +:+ b) +:+ c) = String x (a +:+ (b +:+ c))).
f_equal. exact IH.
Qed.

Lemma append_nil_r (a : string) : a +:+ EmptyString = a.
Proof.
induction a as [| x a IH]; [reflexivity |].
change (String x (a +:+ EmptyString) = String x a). f_equal. exact IH.
Qed.

Lemma append_cons (x : ascii) (a b : string) :
  String x a +:+ b = String x (a +:+ b).
Proof. reflexivity. Qed.

Lemma length_append (a b : string) :
  String.length (a +:+ b) = (String.length a + String.length b)%nat.
Proof.
induction a as [| x a IH]; [reflexivity |].
rewrite append_cons. simpl. rewrite IH. reflexivity.
Qed.

(** One escaped character is read back as that character. *)
Lemma parse_escape_char (c : ascii) (r : string) :
  parse_string_chars (escape_char c +:+ r) = prepend c (parse_string_chars r).
Proof.
destruct c as [[] [] [] [] [] [] [] []]; reflexivity.
Qed.

(** A quoted string is read back, up to its closing quote. *)
Lemma parse_escape (s rest : string) :
  parse_string_chars (escape s +:+ String dq rest) = Ok s rest.
Proof.
induction s as [| c s IH]; [reflexivity |].
simpl escape. rewrite append_assoc, parse_escape_char, IH. reflexivity.
Qed.

Lemma escape_char_length (c : ascii) : (1 <= String.length (escape_char c))%nat.
Proof. destruct c as [[] [] [] [] [] [] [] []]; vm_compute; lia. Qed.

End JsonStringFacts.

Module JsonNumberFacts.
Import Value Json JsonStringFacts.

Lemma pretty_N_go_app (x : N) (s : string) :
  pretty_N_go x s = pretty_N_go x EmptyString +:+ s.
Proof.
revert s. induction (N.lt_wf_0 x) as [x _ IH]. intros s.
destruct (decide (x = 0%N)) as [-> | Hx]; [reflexivity |].
rewrite !(pretty_N_go_step x) by lia.
rewrite (IH (x `div` 10)%N) by (apply N.div_lt; lia).
rewrite (IH (x `div` 10)%N ltac:(apply N.div_lt; lia) (String _ EmptyString)).
rewrite append_assoc. reflexivity.
Qed.

Lemma drop_digits_pretty_N_go (x : N) (s : string) :
  drop_digits (pretty_N_go x s) = drop_digits s.
Proof.
revert s. induction (N.lt_wf_0 x) as [x _ IH]. intros s.
destruct (decide (x = 0%N)) as [-> | Hx]; [reflexivity |].
rewrite pretty_N_go_step by lia.
rewrite IH by (apply N.div_lt; lia).
simpl. rewrite JSFacts.digit_val_pretty_N_char by (apply N.mod_lt; lia).
rewrite bool_decide_eq_true_2 by eauto. reflexivity.
Qed.

Lemma delimited_no_digit (rest : string) :
  delimited rest ->
  drop_digits rest = rest
  /\ (forall acc, JS.digits_go 10 JS.digit_val acc rest = acc)
  /\ match rest with
     | String c _ =>
         (JS.code c =? 46) || (JS.code c =? 101) || (JS.code c =? 69) = false
     | EmptyString => True
     end.
Proof.
destruct rest as [| c r]; [simpl; auto |].
intros Hc. simpl in Hc.
assert (JS.digit_val c = None) as Hd.
{ unfold JS.digit_val.
  destruct (48 <=? JS.code c) eqn:E1; [| reflexivity].
  destruct (JS.code c <=? 57) eqn:E2; [| reflexivity]. lia. }
simpl. rewrite Hd.
rewrite bool_decide_eq_false_2 by (intros [? ?]; discriminate).
split; [reflexivity |]. split; [reflexivity |].
destruct (Z.eqb_spec (JS.code c) 46); [lia |].
destruct (Z.eqb_spec (JS.code c) 101); [lia |].
destruct (Z.eqb_spec (JS.code c) 69); [lia |]. reflexivity.
Qed.

(** The digits of a positive numeral are read back. *)
Lemma parse_digits_numeral (sign : Z) (x : N) (rest : string) :
  (0 < x)%N -> delimited rest ->
  parse_digits sign (pretty_N_go x EmptyString +:+ rest)
  = Ok (VNum (sign * Z.of_N x)) rest.
Proof.
intros Hx Hrest.
destruct (delimited_no_digit rest Hrest) as (Hdrop & Hgo & Htail).
rewrite <- pretty_N_go_app.
destruct (JSFacts.pretty_N_go_head x rest Hx) as (d & r & Hd & Hr).
destruct (JSFacts.digits_go_pretty_N_go x) as [p Hp].
pose proof (Hp rest 0) as Hval. rewrite Hgo in Hval.
pose proof (drop_digits_pretty_N_go x rest) as Hdr. rewrite Hdrop in Hdr.
rewrite Hr in *. unfold parse_digits.
rewrite JSFacts.digit_val_pretty_N_char by lia.
destruct (Z.eqb_spec (Z.of_N d) 0); [lia |].
rewrite Hval, Hdr.
replace (0 * p + Z.of_N x) with (Z.of_N x) by lia.
destruct rest as [| c rest']; [reflexivity |].
rewrite Htail. reflexivity.
Qed.

End JsonNumberFacts.

Module JsonFacts.
Import Value Json JsonStringFacts JsonNumberFacts.

(** Induction on values, with the hypothesis for every element of an array
    and every member of an object. *)
Lemma value_ind_nested (P : value -> Prop) :
  P VUndefined -> P VNull -> (forall b, P (VBool b)) ->
  (forall n, P (VNum n)) -> (forall s, P (VStr s)) ->
  (forall items, Forall P items -> P (VArr items)) ->
  (forall fields, Forall (fun kv => P kv.2) fields -> P (VObj fields)) ->
  forall v, P v.
Proof.
intros Hu Hn Hb Hz Hs Ha Ho. fix IH 1.
intros [| | b | n | s | items | fields];
  [exact Hu | exact Hn | apply Hb | apply Hz | apply Hs | |].
- apply Ha. revert items. fix IHl 1.
  intros [| e items]; constructor; [apply IH | apply IHl].
- apply Ho. revert fields. fix IHl 1.
  intros [| [k e] fields]; constructor; [apply IH | apply IHl].
Qed.

Lemma stringify_arr items :
  stringify (VArr items)
  = Some ("[" +:+ join "," (elements_text items) +:+ "]").
Proof.
reflexivity.
Qed.

Lemma stringify_obj fields :
  stringify (VObj fields)
  = Some ("{" +:+ join "," (members_text fields) +:+ "}").
Proof.
reflexivity.
Qed.

Lemma jsonable_arr items : jsonable (VArr items) <-> Forall jsonable items.
Proof.
simpl. induction items as [| e items IH].
- split; constructor.
- rewrite Forall_cons, <- IH. reflexivity.
Qed.

Lemma jsonable_obj fields :
  jsonable (VObj fields)
  <-> NoDup (List.map fst fields) /\ Forall (fun kv => jsonable kv.2) fields.
Proof.
simpl. apply and_iff_compat_l.
induction fields as [| [k e] fields IH].
- split; constructor.
- rewrite Forall_cons, <- IH. reflexivity.
Qed.

Lemma weight_arr items : weight (VArr items) = S (weights items).
Proof.
reflexivity.
Qed.

Lemma weight_obj fields : weight (VObj fields) = S (weights fields.*2).
Proof.
simpl. f_equal. induction fields as [| [k e] fields IH]; [reflexivity |].
simpl. rewrite IH. reflexivity.
Qed.

Lemma skip_ws_head c r : is_ws c = false -> skip_ws (String c r) = String c r.
Proof. intros H. simpl. rewrite H. reflexivity. Qed.

Lemma set_field_fresh k v fields :
  k ∉ List.map fst fields -> set_field k v fields = (fields ++ [(k, v)])%list.
Proof.
induction fields as [| [k' v'] fields IH]; intros Hk; [reflexivity |].
simpl in *. rewrite decide_False.
- rewrite IH; [reflexivity |]. intros H. apply Hk. right. exact H.
- intros ->. apply Hk. left.
Qed.

Lemma digit_code c d : JS.digit_val c = Some d -> 48 <= JS.code c <= 57.
Proof.
unfold JS.digit_val.
destruct (48 <=? JS.code c) eqn:E1; [| discriminate].
destruct (JS.code c <=? 57) eqn:E2; [| discriminate]. lia.
Qed.

Local Ltac decide_codes :=
  repeat match goal with
    | |- context [?a =? ?b] =>
        destruct (Z.eqb_spec a b); [lia |]
    end.

(** A value that starts with a digit is a number. *)
Lemma parse_value_digit f c r d :
  JS.digit_val c = Some d ->
  parse_value (S f) (String c r) = parse_digits 1 (String c r).
Proof.
intros Hd. apply digit_code in Hd.
assert (is_ws c = false) as Hws.
{ unfold is_ws. decide_codes. reflexivity. }
simpl. rewrite Hws. decide_codes. reflexivity.
Qed.

Lemma reads_back_num n : reads_back (VNum n).
Proof.
intros _. exists (pretty n). split; [reflexivity |].
destruct n as [| q | q].
- split; [exists "0"%char, EmptyString; auto |].
  split; [simpl; lia |].
  intros [| f] rest Hf Hrest; [simpl in Hf; lia |].
  destruct (delimited_no_digit rest Hrest) as (_ & _ & Htail).
  change (pretty 0 +:+ rest) with (String "0" rest).
  rewrite (parse_value_digit f "0" rest 0) by reflexivity.
  unfold parse_digits.
  change (JS.digit_val "0") with (Some 0). simpl.
  destruct rest as [| c rest']; [reflexivity |].
  rewrite Htail. reflexivity.
- change (pretty (Z.pos q)) with (pretty_N_go (N.pos q) EmptyString).
  destruct (JSFacts.pretty_N_go_head (N.pos q) EmptyString ltac:(lia))
    as (d & r & Hd & Hr).
  pose proof (JSFacts.digit_val_pretty_N_char d ltac:(lia)) as Hdv.
  pose proof (digit_code _ _ Hdv) as Hcode.
  split.
  { exists (pretty_N_char d), r. split; [exact Hr |].
    split; [| lia]. unfold is_ws. decide_codes. reflexivity. }
  split; [rewrite Hr; simpl; lia |].
  intros [| f] rest Hf Hrest; [simpl in Hf; lia |].
  pose proof (parse_digits_numeral 1 (N.pos q) rest ltac:(lia) Hrest) as Hp.
  rewrite Hr in *. rewrite append_cons in *.
  rewrite (parse_value_digit f _ _ _ Hdv), Hp. do 2 f_equal; lia.
- change (pretty (Z.neg q))
    with (String "-" (pretty_N_go (N.pos q) EmptyString)).
  split; [exists "-"%char, (pretty_N_go (N.pos q) EmptyString); auto |].
  split; [simpl; lia |].
  intros [| f] rest Hf Hrest; [simpl in Hf; lia |].
  change (parse_value (S f)
            (String "-" (pretty_N_go (N.pos q) EmptyString) +:+ rest))
    with (parse_digits (-1) (pretty_N_go (N.pos q) EmptyString +:+ rest)).
  rewrite parse_digits_numeral by (lia || assumption).
  do 2 f_equal; lia.
Qed.

Lemma reads_back_str s : reads_back (VStr s).
Proof.
intros _. exists (quote s). split; [reflexivity |].
split; [exists dq, (escape s +:+ String dq EmptyString); auto |].
split; [simpl; lia |].
intros [| f] rest Hf Hrest; [simpl in Hf; lia |].
change (parse_value (S f) (quote s +:+ rest))
  with (bind (parse_string_chars ((escape s +:+ String dq EmptyString) +:+ rest))
          (fun str rest => Ok (VStr str) rest)).
rewrite append_assoc. change (String dq EmptyString +:+ rest) with (String dq rest).
rewrite parse_escape. reflexivity.
Qed.

Lemma join_head sep c r ts :
  exists r', join sep (String c r :: ts) = String c r'.
Proof. destruct ts; simpl; eauto. Qed.

Lemma join_cons2 sep t t2 ts :
  join sep (t :: t2 :: ts) = t +:+ sep +:+ join sep (t2 :: ts).
Proof. reflexivity. Qed.

Lemma parse_elements_step f s acc :
  parse_elements (S f) s acc
  = bind (parse_value f s) (fun v rest =>
      match skip_ws rest with
      | String c r =>
          if JS.code c =? 44 then parse_elements f r (acc ++ [v])%list
          else if JS.code c =? 93 then Ok (VArr (acc ++ [v])%list) r
          else SyntaxError
      | EmptyString => SyntaxError
      end).
Proof. reflexivity. Qed.

(** The elements of an array are read back, up to the closing bracket. *)
Lemma parse_elements_back items :
  Forall reads_back items -> Forall jsonable items -> items <> [] ->
  forall acc fuel rest, (weights items <= fuel)%nat ->
    parse_elements fuel (join "," (elements_text items) +:+ "]" +:+ rest) acc
    = Ok (VArr (acc ++ items)%list) rest.
Proof.
induction items as [| e items IH]; [done |].
intros Hrb Hj _ acc fuel rest Hfuel.
apply Forall_cons in Hrb as [Hrbe Hrb]. apply Forall_cons in Hj as [Hje Hj].
destruct (Hrbe Hje) as (t & Est & _ & _ & Hparse).
destruct fuel as [| f]; [simpl in Hfuel; lia |].
simpl in Hfuel. rewrite parse_elements_step.
unfold elements_text. simpl List.map. rewrite Est. simpl default.
fold (elements_text items).
destruct items as [| e2 items'].
- simpl join. change ("]" +:+ rest) with (String "]" rest).
  rewrite (Hparse f (String "]" rest)); [| lia | simpl; auto].
  reflexivity.
- change (elements_text (e2 :: items'))
    with (default "null" (stringify e2) :: elements_text items') in *.
  rewrite join_cons2, !append_assoc.
  change ("," +:+ ?x) with (String "," x).
  rewrite (Hparse f); [| lia | simpl; auto].
  change (bind (Ok e ?r) ?k) with (k e r). cbv beta.
  change (skip_ws (String "," ?x)) with (String "," x).
  destruct (Z.eqb_spec (JS.code ",") 44) as [_ | Hne];
    [| exfalso; apply Hne; reflexivity].
  rewrite (IH Hrb Hj ltac:(done) (acc ++ [e])%list f rest) by lia.
  rewrite <- app_assoc. reflexivity.
Qed.

Lemma weights_length items :
  Forall reads_back items -> Forall jsonable items ->
  (weights items <= S (String.length (join "," (elements_text items))))%nat.
Proof.
induction items as [| e items IH]; intros Hrb Hj; [simpl; lia |].
apply Forall_cons in Hrb as [Hrbe Hrb]. apply Forall_cons in Hj as [Hje Hj].
destruct (Hrbe Hje) as (t & Est & _ & Hlen & _).
specialize (IH Hrb Hj).
unfold elements_text in *. simpl List.map. rewrite Est. simpl default.
destruct items as [| e2 items'].
- simpl. lia.
- simpl List.map in *. rewrite join_cons2, !length_append.
  set (J := join "," (_ :: _)) in *.
  change (String.length ",") with 1%nat.
  simpl weights in *. lia.
Qed.

Lemma reads_back_arr items : Forall reads_back items -> reads_back (VArr items).
Proof.
intros Hrb Hj. apply jsonable_arr in Hj.
exists ("[" +:+ join "," (elements_text items) +:+ "]").
split; [apply stringify_arr |].
split; [exists "["%char, (join "," (elements_text items) +:+ "]"); auto |].
pose proof (weights_length items Hrb Hj) as Hw.
split.
{ rewrite weight_arr. change ("[" +:+ ?x) with (String "[" x).
  simpl String.length. rewrite length_append. simpl. lia. }
intros [| f] rest Hf Hrest; [simpl in Hf; lia |].
rewrite weight_arr in Hf.
rewrite !append_assoc. change ("[" +:+ ?x) with (String "[" x).
destruct items as [| e items'].
- reflexivity.
- apply Forall_cons in Hrb as Hrb'. destruct Hrb' as [Hrbe _].
  apply Forall_cons in Hj as Hj'. destruct Hj' as [Hje _].
  destruct (Hrbe Hje) as (t & Est & (c & r & -> & Hws & Hc) & _ & _).
  pose proof (parse_elements_back (e :: items') Hrb Hj ltac:(done) [] f rest
                ltac:(lia)) as Hp.
  unfold elements_text in *. simpl List.map in *. rewrite Est in *.
  simpl default in *.
  destruct (join_head "," c r
              (List.map (fun e => default "null" (stringify e)) items'))
    as [r' Hr'].
  rewrite Hr' in *. rewrite append_cons in *.
  simpl parse_value. rewrite Hws.
  destruct (Z.eqb_spec (JS.code c) 93); [lia |].
  exact Hp.
Qed.

Local Ltac code_is c n :=
  destruct (Z.eqb_spec (JS.code c) n) as [_ | Hne];
    [| exfalso; apply Hne; reflexivity].

Lemma parse_members_step f s acc :
  parse_members (S f) s acc
  = match skip_ws s with
    | String q r =>
        if JS.code q =? 34 then
          bind (parse_string_chars r) (fun k rest =>
            match skip_ws rest with
            | String colon r1 =>
                if JS.code colon =? 58 then
                  bind (parse_value f r1) (fun v rest1 =>
                    match skip_ws rest1 with
                    | String c r2 =>
                        if JS.code c =? 44
                        then parse_members f r2 (set_field k v acc)
                        else if JS.code c =? 125
                        then Ok (VObj (set_field k v acc)) r2
                        else SyntaxError
                    | EmptyString => SyntaxError
                    end)
                else SyntaxError
            | EmptyString => SyntaxError
            end)
        else SyntaxError
    | EmptyString => SyntaxError
    end.
Proof. reflexivity. Qed.

(** One member, up to the text after its value. *)
Lemma parse_members_member f k t tail acc :
  parse_members (S f) (quote k +:+ ":" +:+ t +:+ tail) acc
  = bind (parse_value f (t +:+ tail)) (fun v rest1 =>
      match skip_ws rest1 with
      | String c r2 =>
          if JS.code c =? 44
          then parse_members f r2 (set_field k v acc)
          else if JS.code c =? 125
          then Ok (VObj (set_field k v acc)) r2
          else SyntaxError
      | EmptyString => SyntaxError
      end).
Proof.
rewrite parse_members_step.
change (quote k +:+ ":" +:+ t +:+ tail)
  with (String dq ((escape k +:+ String dq EmptyString)
                   +:+ String ":" (t +:+ tail))).
rewrite skip_ws_head by reflexivity.
code_is dq 34.
rewrite append_assoc.
change (String dq EmptyString +:+ ?x) with (String dq x).
rewrite parse_escape.
change (bind (Ok k ?r) ?g) with (g k r). cbv beta.
rewrite skip_ws_head by reflexivity.
code_is ":"%char 58.
reflexivity.
Qed.

(** The members of an object are read back, up to the closing brace. *)
Lemma parse_members_back fields :
  Forall (fun kv => reads_back kv.2) fields ->
  Forall (fun kv => jsonable kv.2) fields -> fields <> [] ->
  forall acc fuel rest,
    NoDup (List.map fst (acc ++ fields)%list) ->
    (weights fields.*2 <= fuel)%nat ->
    parse_members fuel (join "," (members_text fields) +:+ "}" +:+ rest) acc
    = Ok (VObj (acc ++ fields)%list) rest.
Proof.
induction fields as [| [k e] fields IH]; [done |].
intros Hrb Hj _ acc fuel rest Hnd Hfuel.
apply Forall_cons in Hrb as [Hrbe Hrb]. apply Forall_cons in Hj as [Hje Hj].
destruct (Hrbe Hje) as (t & Est & _ & _ & Hparse). simpl in Hparse.
destruct fuel as [| f]; [simpl in Hfuel; lia |].
simpl in Hfuel.
assert (set_field k e acc = (acc ++ [(k, e)])%list) as Hset.
{ apply set_field_fresh. rewrite map_app in Hnd.
  apply NoDup_app in Hnd as (_ & Hdis & _).
  intros Hin. apply (Hdis k Hin). left. }
assert ((acc ++ (k, e) :: fields)%list = ((acc ++ [(k, e)]) ++ fields)%list)
  as Happ by (rewrite <- app_assoc; reflexivity).
simpl members_text. simpl in Est. rewrite Est.
destruct fields as [| [k2 e2] fields'].
- simpl members_text. simpl join.
  rewrite !append_assoc. rewrite parse_members_member.
  change ("}" +:+ rest) with (String "}" rest).
  rewrite (Hparse f (String "}" rest)); [| lia | simpl; auto].
  change (bind (Ok e ?r) ?g) with (g e r). cbv beta.
  rewrite skip_ws_head by reflexivity.
  destruct (Z.eqb_spec (JS.code "}") 44) as [Hc |]; [discriminate Hc |].
  code_is "}"%char 125.
  rewrite Hset. reflexivity.
- set (ms := members_text ((k2, e2) :: fields')) in *.
  assert (exists m ms', ms = m :: ms') as (m & ms' & Hms).
  { subst ms. simpl.
    apply Forall_cons in Hj as [Hj2 _]. apply Forall_cons in Hrb as [Hrb2 _].
    destruct (Hrb2 Hj2) as (t2 & E2 & _). simpl in E2. rewrite E2. eauto. }
  rewrite Hms, join_cons2, <- Hms.
  rewrite !append_assoc. rewrite parse_members_member.
  change ("," +:+ ?x) with (String "," x).
  rewrite (Hparse f); [| lia | simpl; auto].
  change (bind (Ok e ?r) ?g) with (g e r). cbv beta.
  rewrite skip_ws_head by reflexivity.
  code_is ","%char 44.
  rewrite Hset, Happ.
  apply IH; [assumption | assumption | done | | simpl in *; lia].
  rewrite <- Happ. exact Hnd.
Qed.

Lemma member_weights_length fields :
  Forall (fun kv => reads_back kv.2) fields ->
  Forall (fun kv => jsonable kv.2) fields ->
  (weights fields.*2 <= S (String.length (join "," (members_text fields))))%nat.
Proof.
induction fields as [| [k e] fields IH]; intros Hrb Hj; [simpl; lia |].
apply Forall_cons in Hrb as [Hrbe Hrb]. apply Forall_cons in Hj as [Hje Hj].
destruct (Hrbe Hje) as (t & Est & _ & Hlen & _). simpl in Est, Hlen.
specialize (IH Hrb Hj).
simpl members_text. rewrite Est.
destruct (members_text fields) as [| m ms] eqn:Ems.
- destruct fields as [| [k2 e2] fields'].
  + simpl join. rewrite !length_append. simpl weights. lia.
  + exfalso. apply Forall_cons in Hj as [Hj2 _].
    apply Forall_cons in Hrb as [Hrb2 _].
    destruct (Hrb2 Hj2) as (t2 & E2 & _). simpl in E2, Ems.
    rewrite E2 in Ems. discriminate.
- rewrite join_cons2, !length_append.
  set (J := join "," (m :: ms)) in *.
  change (String.length ",") with 1%nat.
  change (weights ((k, e) :: fields).*2)
    with (S (weight e) + weights fields.*2)%nat.
  lia.
Qed.

Lemma reads_back_obj fields :
  Forall (fun kv => reads_back kv.2) fields -> reads_back (VObj fields).
Proof.
intros Hrb Hj. apply jsonable_obj in Hj as [Hnd Hj].
exists ("{" +:+ join "," (members_text fields) +:+ "}").
split; [apply stringify_obj |].
split; [exists "{"%char, (join "," (members_text fields) +:+ "}"); auto |].
pose proof (member_weights_length fields Hrb Hj) as Hw.
split.
{ rewrite weight_obj. change ("{" +:+ ?x) with (String "{" x).
  simpl String.length. rewrite length_append. simpl. lia. }
intros [| f] rest Hf Hrest; [simpl in Hf; lia |].
rewrite weight_obj in Hf.
rewrite !append_assoc. change ("{" +:+ ?x) with (String "{" x).
destruct fields as [| [k e] fields'].
- reflexivity.
- pose proof (parse_members_back ((k, e) :: fields') Hrb Hj ltac:(done) [] f
                rest Hnd ltac:(lia)) as Hp.
  apply Forall_cons in Hrb as Hrb'. destruct Hrb' as [Hrbe _].
  apply Forall_cons in Hj as Hj'. destruct Hj' as [Hje _].
  destruct (Hrbe Hje) as (t & Est & _). simpl in Est.
  simpl members_text in *. rewrite Est in *.
  destruct (join_head "," dq
              ((escape k +:+ String dq EmptyString) +:+ ":" +:+ t)
              (members_text fields')) as [r' Hr'].
  change (quote k +:+ ":" +:+ t)
    with (String dq ((escape k +:+ String dq EmptyString) +:+ ":" +:+ t)) in *.
  rewrite Hr' in *. rewrite append_cons in *.
  simpl parse_value.
  change (is_ws dq) with false. cbv iota.
  destruct (Z.eqb_spec (JS.code dq) 125) as [Hc |]; [discriminate Hc |].
  exact Hp.
Qed.

(** Every value is read back from its text. *)
Lemma reads_back_all (v : value) : reads_back v.
Proof.
induction v using value_ind_nested.
- intros [].
- intros _. exists "null". split; [reflexivity |].
  split; [exists "n"%char, "ull"; auto |]. split; [simpl; lia |].
  intros [| f] rest Hf _; [simpl in Hf; lia | reflexivity].
- intros _. destruct b.
  + exists "true". split; [reflexivity |].
    split; [exists "t"%char, "rue"; auto |]. split; [simpl; lia |].
    intros [| f] rest Hf _; [simpl in Hf; lia | reflexivity].
  + exists "false". split; [reflexivity |].
    split; [exists "f"%char, "alse"; auto |]. split; [simpl; lia |].
    intros [| f] rest Hf _; [simpl in Hf; lia | reflexivity].
- apply reads_back_num.
- apply reads_back_str.
- apply reads_back_arr. assumption.
- apply reads_back_obj. assumption.
Qed.

(** [JSON.parse(JSON.stringify(v))] gives [v] back, for every value without
    [undefined] and without repeated keys (numbers being integers). *)
Lemma JSON_parse_stringify (v : value) :
  jsonable v ->
  exists t, stringify v = Some t /\ JSON_parse t = Ok v EmptyString.
Proof.
intros Hj. destruct (reads_back_all v Hj) as (t & Est & _ & Hlen & Hparse).
exists t. split; [exact Est |].
unfold JSON_parse.
pose proof (Hparse (S (String.length t)) EmptyString ltac:(lia) I) as Hp.
rewrite append_nil_r in Hp. rewrite Hp. reflexivity.
Qed.

End JsonFacts.

(** ** localStorage helpers *)

Module StorageFacts.
Import Value Json Storage JsonFacts.


(** Without a window: reads give the default, writes do nothing. *)
Lemma server_context key dflt valid v :
  write key v None = None /\ read key dflt valid (write key v None) = Some dflt.
Proof. split; reflexivity. Qed.

(** In a capable browser context a value that JSON carries exactly and that
    passes the structure check is read back as written. *)
Lemma read_write key dflt valid ctx v :
  capable ctx -> jsonable v -> valid v = Some true ->
  read key dflt valid (write key v ctx) = Some v.
Proof.
intros (ls & -> & Hg & Hs) Hj Hvalid.
destruct (reads_back_all v Hj) as (t & Est & (c & r & -> & _) & _).
destruct (JSON_parse_stringify v Hj) as (t' & Est' & Hparse).
assert (t' = String c r) as -> by congruence.
unfold write, read. rewrite Hs. cbn [getItemThrows items]. rewrite Hg.
rewrite lookup_insert_eq. rewrite Est. cbn [default id].
rewrite Hparse, Hvalid. reflexivity.
Qed.

Lemma settingsValue_jsonable s : jsonable (settingsValue s).
Proof.
apply jsonable_obj. split.
- cbn. repeat constructor; rewrite ?elem_of_cons, ?elem_of_nil;
    intros H; decompose [or] H; try discriminate; try contradiction.
- repeat constructor; cbn; auto.
  apply jsonable_arr. apply Forall_forall. intros v Hv.
  apply list_elem_of_In in Hv. apply in_map_iff in Hv as (x & <- & _). exact I.
Qed.

Lemma structurallyValid_valid v :
  structurallyValid v -> validNotificationSettings v = Some true.
Proof.
intros (b & items & d & E1 & E2 & E3).
unfold validNotificationSettings. rewrite E1, E2, E3. reflexivity.
Qed.

(** C6. In a browser context whose storage reads and writes, writing a
    structurally valid settings value (one that JSON carries exactly, as
    every value of the TypeScript type does) and reading it gives the value
    back; without a window the write does nothing and the read gives the
    default object. *)
Theorem notification_settings_round_trip :
  (forall ctx v,
     capable ctx -> jsonable v -> structurallyValid v ->
     getNotificationSettings (setNotificationSettings v ctx) = Some v)
  /\ (forall ctx s,
        capable ctx ->
        getNotificationSettings (setNotificationSettings (settingsValue s) ctx)
        = Some (settingsValue s))
  /\ (forall v,
        setNotificationSettings v None = None
        /\ getNotificationSettings (setNotificationSettings v None)
           = Some defaultNotificationSettings).
Proof.
split; [| split].
- intros ctx v Hc Hj Hv. apply read_write; auto using structurallyValid_valid.
- intros ctx s Hc. apply read_write; auto using settingsValue_jsonable.
- intros v. apply server_context.
Qed.

Lemma notification_settings_round_trip_witness :
  let ctx := Some {| items := ∅; getItemThrows := false; setItemThrows := false |} in
  let s := {| Hook.enabled := true; Hook.schedule := ["09:00"; "14:00"];
              Hook.lastNotificationDate := "2025-01-01" |} in
  getNotificationSettings (setNotificationSettings (settingsValue s) ctx)
  = Some (settingsValue s).
Proof.
intros ctx s.
apply (proj1 (proj2 notification_settings_round_trip) ctx s).
exists {| items := ∅; getItemThrows := false; setItemThrows := false |}.
repeat split.
Defined.

End StorageFacts.

(** ** The flashcard hook *)

Module FlashcardsFacts.
Import Value Json Storage Flashcards StorageFacts.






End FlashcardsFacts.

(** ** The offline-cache worker *)

Module OfflineCacheFacts.
Import OfflineCache.



(** After a put, the cache of that name answers for the URL, provided no
    cache of another name holds it. *)
Lemma caches_match_put cs name url r :
  onlyIn name url cs -> caches_match (cache_put cs name url r) url = Some r.
Proof.
induction cs as [| [n c] cs IH]; intros Honly; simpl.
- rewrite lookup_singleton_eq. reflexivity.
- destruct (decide (n = name)) as [-> | Hne]; simpl.
  + rewrite lookup_insert_eq. reflexivity.
  + rewrite (Honly n c) by (left || exact Hne).
    apply IH. intros n' c' Hin. apply Honly. right. exact Hin.
Qed.




End OfflineCacheFacts.

(** ** /api/settings/notifications: further properties *)

Module SettingsRouteMore.
Import Value Auth SettingsRoute AuthFacts.

(** The status of a POST, by cases. *)
Lemma POST_status API_KEY h reqBody store :
  let r := POST API_KEY h reqBody store in
  (status r.1 = 401 /\ validateApiKey_settings API_KEY h = false /\ r.2 = store)
  \/ (status r.1 = 400 /\ validateApiKey_settings API_KEY h = true /\ r.2 = store)
  \/ (status r.1 = 200 /\ validateApiKey_settings API_KEY h = true
      /\ exists body enabled items lastNotificationDate,
           reqBody = Some body
           /\ get body "enabled" = Some enabled
           /\ typeof enabled = "boolean"
           /\ get body "schedule" = Some (VArr items)
           /\ get body "lastNotificationDate" = Some lastNotificationDate
           /\ typeof lastNotificationDate = "string"
           /\ scheduleValid items = true
           /\ r = ({| status := 200;
                      body := VObj [("success", VBool true);
                                    ("settings",
                                     VObj [("enabled", enabled);
                                           ("schedule", VArr items);
                                           ("lastNotificationDate",
                                            or_else lastNotificationDate (VStr ""))])] |},
                   <[userId :=
                       VObj [("enabled", enabled); ("schedule", VArr items);
                             ("lastNotificationDate",
                              or_else lastNotificationDate (VStr ""))]]> store)).
Proof.
unfold POST.
destruct (validateApiKey_settings API_KEY h); cbn [negb]; [| left; auto].
right.
destruct reqBody as [body |]; [| left; auto].
destruct (get body "enabled") as [enabled |] eqn:E1; [| left; auto].
destruct (get body "schedule") as [schedule |] eqn:E2; [| left; auto].
destruct (get body "lastNotificationDate") as [lnd |] eqn:E3; [| left; auto].
destruct (bool_decide (typeof enabled = "boolean")) eqn:T1; cbn [negb orb];
  [| left; auto].
destruct schedule as [| | | | | items |]; cbn [isArray negb orb];
  try (left; auto; fail).
destruct (bool_decide (typeof lnd = "string")) eqn:T3; cbn [negb orb];
  [| left; auto].
destruct (scheduleValid items) eqn:V; cbn [negb]; [| left; auto].
right. split; [reflexivity |]. split; [reflexivity |].
apply bool_decide_eq_true in T1, T3.
exists body, enabled, items, lnd. auto 10.
Qed.

(** With a key configured, the settings route answers 401 exactly to the
    requests that carry the key neither as a Bearer token nor in X-API-Key,
    and the schedule route's validation passes exactly the others. *)
Theorem auth_with_key_configured key h reqBody store :
  key <> "" ->
  (status (GET (Some key) h store) = 401 <-> ~ carriesKey key h)
  /\ (status (POST (Some key) h reqBody store).1 = 401 <-> ~ carriesKey key h)
  /\ (validateApiKey_schedule (Some key) h = true <-> carriesKey key h).
Proof.
intros Hne.
pose proof (headerKeyValid_iff key h Hne) as Hiff.
assert (validateApiKey_settings (Some key) h = false <-> ~ carriesKey key h)
  as Hneg.
{ unfold validateApiKey_settings. rewrite <- Hiff.
  destruct (headerKeyValid (Some key) h); split; congruence. }
split; [| split].
- unfold GET. rewrite <- Hneg.
  destruct (validateApiKey_settings (Some key) h); cbn [negb].
  + split; [| discriminate].
    destruct (ServerStorage.getServerNotificationSettings store userId)
      as [s |]; [destruct (truthy s) |]; discriminate.
  + split; reflexivity.
- rewrite <- Hneg.
  destruct (POST_status (Some key) h reqBody store)
    as [(S & V & _) | [(S & V & _) | (S & V & _)]];
    rewrite S, V; split; (reflexivity || discriminate).
- unfold validateApiKey_schedule.
  destruct key as [| c key']; [congruence | exact Hiff].
Qed.

Lemma auth_with_key_configured_witness :
  status (GET (Some "secret")
            {| authorization := Some "Bearer wrong"; x_api_key := None |} ∅)
  = 401.
Proof.
apply (auth_with_key_configured "secret"
         {| authorization := Some "Bearer wrong"; x_api_key := None |} None ∅).
- discriminate.
- intros [H | H]; discriminate.
Defined.

(** An authorized POST of a body of the documented shape is accepted and
    stores the three fields as sent; the schedule is kept entry for entry,
    repeated entries included.  A GET that follows returns what was stored. *)
Theorem POST_stores_schedule_as_sent API_KEY h sent b items d store :
  validateApiKey_settings API_KEY h = true ->
  get sent "enabled" = Some (VBool b) ->
  get sent "schedule" = Some (VArr items) ->
  get sent "lastNotificationDate" = Some (VStr d) ->
  forallb isTimeString items = true ->
  let settings := VObj [("enabled", VBool b); ("schedule", VArr items);
                        ("lastNotificationDate", VStr d)] in
  let r := POST API_KEY h (Some sent) store in
  status r.1 = 200
  /\ SettingsRoute.body r.1 = VObj [("success", VBool true); ("settings", settings)]
  /\ r.2 !! userId = Some settings
  /\ GET API_KEY h r.2 = {| status := 200; body := settings |}.
Proof.
intros Hauth E1 E2 E3 Hitems settings r.
assert (scheduleValid items = true) as Hvalid.
{ unfold scheduleValid. rewrite forallb_forall in *.
  intros v Hv. specialize (Hitems v Hv).
  destruct v; try discriminate. exact Hitems. }
assert (or_else (VStr d) (VStr "") = VStr d) as Hor.
{ unfold or_else. simpl. destruct d; reflexivity. }
assert (r = ({| status := 200;
                body := VObj [("success", VBool true); ("settings", settings)] |},
             <[userId := settings]> store)) as ->.
{ subst r. unfold POST. rewrite Hauth, E1, E2, E3. cbn [negb typeof isArray].
  rewrite !bool_decide_eq_true_2 by reflexivity. cbn [negb orb].
  rewrite Hvalid, Hor. reflexivity. }
cbn [fst snd status SettingsRoute.body].
split; [reflexivity |]. split; [reflexivity |].
split; [apply lookup_insert_eq |].
unfold GET, ServerStorage.getServerNotificationSettings.
rewrite Hauth, lookup_insert_eq. reflexivity.
Qed.

Lemma POST_stores_schedule_as_sent_witness :
  let h := {| authorization := None; x_api_key := Some "secret" |} in
  let sent := VObj [("enabled", VBool true);
                    ("schedule", VArr [VStr "09:00"; VStr "09:00"]);
                    ("lastNotificationDate", VStr "")] in
  (POST (Some "secret") h (Some sent) ∅).2 !! userId = Some sent.
Proof.
intros h sent.
apply (POST_stores_schedule_as_sent (Some "secret") h sent true
         [VStr "09:00"; VStr "09:00"] "" ∅); reflexivity.
Defined.


End SettingsRouteMore.

(** ** Scheduling: further properties *)

Module SchedulerMore.
Import Clock Scheduler ClockFacts EntryFacts SchedulerFacts ServerScheduleFacts.




(** The next notification time depends only on which entries the schedule
    holds, not on their order or on repetitions. *)
Theorem next_time_depends_on_entries_only tz now schedule1 schedule2 :
  Forall (fun e => Entry.timeRegex_test e = true) schedule1 ->
  (forall e, e ∈ schedule1 <-> e ∈ schedule2) ->
  calculateNextNotificationTime tz now schedule1
  = calculateNextNotificationTime tz now schedule2.
Proof.
intros Hv1 Hsame.
assert (Forall (fun e => Entry.timeRegex_test e = true) schedule2) as Hv2.
{ rewrite Forall_forall in *. intros e He. apply Hv1, Hsame, He. }
destruct schedule1 as [| a l1].
- destruct schedule2 as [| b l2]; [reflexivity |].
  exfalso. assert (b ∈ []) as H by (apply Hsame; left). inversion H.
- assert (schedule2 <> []) as Hne2.
  { intros ->. assert (a ∈ []) as H by (apply Hsame; left). inversion H. }
  destruct (calculateNextNotificationTime_least tz now (a :: l1)
              ltac:(done) Hv1) as (t1 & E1 & (e1 & He1 & Ee1) & Hmin1).
  destruct (calculateNextNotificationTime_least tz now schedule2 Hne2 Hv2)
    as (t2 & E2 & (e2 & He2 & Ee2) & Hmin2).
  rewrite E1, E2. f_equal.
  destruct (Hmin1 e2 (proj2 (Hsame e2) He2)) as (t2' & Et2' & Hle1).
  destruct (Hmin2 e1 (proj1 (Hsame e1) He1)) as (t1' & Et1' & Hle2).
  assert (t2' = t2) by congruence. assert (t1' = t1) by congruence. lia.
Qed.

Lemma next_time_depends_on_entries_only_witness :
  calculateNextNotificationTime 0 52200000 ["20:00"; "09:00"; "20:00"]
  = calculateNextNotificationTime 0 52200000 ["09:00"; "20:00"].
Proof.
apply next_time_depends_on_entries_only.
- repeat constructor.
- intros e. rewrite !elem_of_cons, !elem_of_nil. tauto.
Defined.

End SchedulerMore.

(** ** The notification hook: further properties *)

Module HookMore.
Import Value Hook TimersFacts HookFacts CancelFacts.

(** Two well-formed entries with the same [scheduleId] are the same entry. *)
Lemma scheduleId_inj time1 time2 n1 n2 :
  Entry.timeRegex_test time1 = true -> Entry.timeRegex_test time2 = true ->
  time1 +:+ "-" +:+ n1 = time2 +:+ "-" +:+ n2 -> time1 = time2.
Proof.
intros H1 H2 E.
destruct time1 as [| a1 [| b1 [| c1 [| d1 [| e1 [| ? ?]]]]]]; try discriminate.
destruct time2 as [| a2 [| b2 [| c2 [| d2 [| e2 [| ? ?]]]]]]; try discriminate.
injection E as -> -> -> -> -> _. reflexivity.
Qed.

Lemma scheduleEach_orderly e times title url q :
  Forall (fun time => Entry.timeRegex_test time = true) times ->
  NoDup times ->
  (forall time n, time ∈ times ->
     scheduledTimeouts q !! (time +:+ "-" +:+ n) = None) ->
  orderly q ->
  exists q',
    scheduleEach e times title url q = Some q'
    /\ orderly q'
    /\ Timers.nextId (loop q') = (Timers.nextId (loop q) + List.length times)%nat
    /\ (forall id, is_Some (Timers.armed (loop q') !! id) <->
          is_Some (Timers.armed (loop q) !! id)
          \/ (Timers.nextId (loop q) <= id
              < Timers.nextId (loop q) + List.length times)%nat)
    /\ error q' = error q /\ loading q' = loading q.
Proof.
revert q. induction times as [| time times IH]; intros q Hv Hnd Hfresh Hq.
- exists q. simpl. split; [reflexivity |]. split; [exact Hq |].
  split; [lia |]. split; [| auto]. intros id. split; [auto |].
  intros [H | H]; [exact H | lia].
- apply Forall_cons in Hv as [Hvt Hv]. apply NoDup_cons in Hnd as [Hnin Hnd].
  destruct (scheduleNotificationForTime_valid e time title url q Hvt)
    as (t & Et & q1 & E1 & M1 & A1 & N1 & Er1 & L1).
  destruct Hq as [Htr Hwf].
  assert (orderly q1) as Hq1.
  { split.
    - intros id [x Hid]. rewrite A1 in Hid. rewrite M1.
      destruct (decide (id = Timers.nextId (loop q))) as [-> | Hne].
      + exists (time +:+ "-" +:+ pretty t). apply lookup_insert_eq.
      + rewrite lookup_insert_ne in Hid by congruence.
        destruct (Htr id ltac:(eauto)) as [k Hk].
        exists k. rewrite lookup_insert_ne; [exact Hk |].
        intros <-. rewrite (Hfresh time (pretty t)) in Hk by left.
        discriminate.
    - intros id [x Hid]. rewrite A1 in Hid. rewrite N1.
      destruct (decide (id = Timers.nextId (loop q))) as [-> | Hne]; [lia |].
      rewrite lookup_insert_ne in Hid by congruence.
      specialize (Hwf id ltac:(eauto)). lia. }
  destruct (IH q1 Hv Hnd) as (q' & E' & Hq' & N' & A' & Er' & L'); [| exact Hq1 |].
  { intros time' n Hin. rewrite M1.
    rewrite lookup_insert_ne; [apply Hfresh; right; exact Hin |].
    intros E. apply scheduleId_inj in E; [| exact Hvt |].
    - subst time'. contradiction.
    - rewrite Forall_forall in Hv. apply Hv, Hin. }
  exists q'. simpl. rewrite E1. split; [exact E' |]. split; [exact Hq' |].
  split; [simpl; lia |]. split; [| split; congruence].
  intros id. rewrite A', A1, N1. simpl length.
  destruct (decide (id = Timers.nextId (loop q))) as [-> | Hne].
  + rewrite lookup_insert_eq. split; [intros _; right; lia | eauto].
  + rewrite lookup_insert_ne by congruence.
    split; (intros [H | H]; [left; exact H | right; lia]).
Qed.

Lemma cancelNotifications_frame e p :
  error (cancelNotifications e p) = error p
  /\ loading (cancelNotifications e p) = loading p
  /\ posted (cancelNotifications e p)
     = (posted p ++ if hasWindow e && workerActive e
                    then [Worker.CANCEL_NOTIFICATIONS] else [])%list.
Proof.
unfold cancelNotifications, sendMessageToSW.
destruct (hasWindow e && workerActive e); simpl; rewrite ?app_nil_r; auto.
Qed.

(** [cancelNotifications] a second time changes neither the timers nor the
    map. *)
Lemma cancelNotifications_twice e p :
  loop (cancelNotifications e (cancelNotifications e p))
  = loop (cancelNotifications e p)
  /\ scheduledTimeouts (cancelNotifications e (cancelNotifications e p)) = ∅.
Proof.
destruct (cancelNotifications_timers e (cancelNotifications e p)) as [-> ->].
destruct (cancelNotifications_timers e p) as [-> _].
rewrite map_to_list_empty. auto.
Qed.

(** For a schedule of well-formed entries without repetition, scheduling
    from an orderly page arms exactly one timer per entry, each recorded in
    [scheduledTimeouts]; [cancelNotifications] then leaves no timer armed
    and the map empty, and a second call changes nothing. *)
Theorem cancel_complete_without_repeats
    (e : env) (settings : NotificationSettings) (p : page)
    (scheduleData bookmarkPreview : value) :
  hasWindow e = true -> hasNotification e = true ->
  notificationPermission e = Granted ->
  fetchSchedule e = FetchResolved true (inr scheduleData) ->
  get scheduleData "bookmarkPreview" = Some bookmarkPreview ->
  enabled settings = true -> schedule settings <> [] ->
  Forall (fun time => Entry.timeRegex_test time = true) (schedule settings) ->
  NoDup (schedule settings) ->
  tracked p ->
  exists p1,
    scheduleNotifications e settings p = Some p1
    /\ error p1 = None /\ loading p1 = false
    /\ tracked p1
    /\ (forall id, is_Some (Timers.armed (loop p1) !! id) <->
          (Timers.nextId (loop p) <= id
           < Timers.nextId (loop p) + List.length (schedule settings))%nat)
    /\ Timers.armed (loop (cancelNotifications e p1)) = ∅
    /\ scheduledTimeouts (cancelNotifications e p1) = ∅
    /\ loop (cancelNotifications e (cancelNotifications e p1))
       = loop (cancelNotifications e p1).
Proof.
intros Hw Hn Hg Hfetch Hprev Hen Hne Hvalid Hnd Htracked.
set (p0 := setError None (setLoading true p)).
set (q := cancelNotifications e p0).
destruct (cancelNotifications_timers e p0) as [Hq1 Hq2]. fold q in Hq1, Hq2.
destruct (cancelNotifications_frame e p0) as (Hqe & Hql & _).
fold q in Hqe, Hql.
assert (Timers.armed (loop q) = ∅) as Hempty.
{ rewrite Hq2. apply clearAll_recorded. exact Htracked. }
assert (Timers.nextId (loop q) = Timers.nextId (loop p)) as Hnext.
{ rewrite Hq2. apply clearAll_nextId. }
assert (orderly q) as Hord.
{ split; intros id [x Hid]; rewrite Hempty, lookup_empty in Hid; discriminate. }
set (title := or_else (optionalGet bookmarkPreview "name") (VStr "Your bookmark")).
set (url := or_else (optionalGet bookmarkPreview "url") (VStr "")).
destruct (scheduleEach_orderly e (schedule settings) title url q Hvalid Hnd)
  as (q' & E' & [Htr' Hwf'] & N' & A' & Er' & L'); [| exact Hord |].
{ intros time n _. rewrite Hq1. apply lookup_empty. }
exists (setLoading false q'). split.
{ unfold scheduleNotifications. rewrite Hw. simpl. fold p0.
  unfold scheduleTry. rewrite Hn. simpl.
  rewrite decide_True by exact Hg. simpl. fold q.
  rewrite Hen. simpl. rewrite bool_decide_eq_false_2 by exact Hne.
  rewrite Hfetch, Hprev. fold title. fold url. rewrite E'. reflexivity. }
split; [simpl; rewrite Er', Hqe; reflexivity |].
split; [reflexivity |]. split; [exact Htr' |].
split.
{ intros id. simpl. rewrite A', Hempty, lookup_empty, Hnext.
  split; [intros [[x Hx] | H]; [discriminate | exact H] | auto]. }
destruct (cancelNotifications_timers e (setLoading false q')) as [C1 C2].
split; [| split; [exact C1 | apply cancelNotifications_twice]].
rewrite C2. apply clearAll_recorded. exact Htr'.
Qed.

Lemma cancel_complete_without_repeats_witness :
  let e := exampleEnv
             (FetchResolved true (inr (VObj [("bookmarkPreview", VNull)]))) in
  exists p1,
    scheduleNotifications e
      {| enabled := true; schedule := ["09:00"; "20:00"];
         lastNotificationDate := "" |} initial = Some p1
    /\ Timers.armed (loop (cancelNotifications e p1)) = ∅.
Proof.
intros e.
destruct (cancel_complete_without_repeats e
            {| enabled := true; schedule := ["09:00"; "20:00"];
               lastNotificationDate := "" |} initial
            (VObj [("bookmarkPreview", VNull)]) VNull)
  as (p1 & E & _ & _ & _ & _ & H & _); try reflexivity; try discriminate.
- repeat constructor.
- repeat constructor; rewrite ?elem_of_cons, ?elem_of_nil;
    intros H; decompose [or] H; try discriminate; try contradiction.
- intros id [x Hid]. simpl in Hid. rewrite lookup_empty in Hid. discriminate.
- exists p1. auto.
Defined.

Lemma scheduleEach_posted e times title url q q' :
  scheduleEach e times title url q = Some q' ->
  posted q'
  = (posted q ++ if hasWindow e && workerActive e
                 then List.map (scheduleMessage e) times else [])%list.
Proof.
revert q. induction times as [| time times IH]; intros q.
- intros [= <-]. simpl. destruct (_ && _); rewrite app_nil_r; reflexivity.
- simpl. unfold scheduleNotificationForTime, scheduleMessage.
  destruct (Scheduler.scheduledTime (tz e) (now e) time) as [t |] eqn:Et;
    [| discriminate].
  cbn [Timers.setTimeout default]. intros H. rewrite (IH _ H).
  unfold sendMessageToSW. destruct (hasWindow e && workerActive e); simpl.
  + rewrite <- app_assoc. reflexivity.
  + reflexivity.
Qed.

(** A successful call posts to an active worker one CANCEL_NOTIFICATIONS
    message and then, in schedule order, one SCHEDULE_NOTIFICATION message
    per entry carrying the delay of that entry's page timer; with no active
    worker nothing is posted. *)
Theorem scheduleNotifications_posts
    (e : env) (settings : NotificationSettings) (p p1 : page)
    (scheduleData bookmarkPreview : value) :
  hasWindow e = true -> hasNotification e = true ->
  notificationPermission e = Granted ->
  fetchSchedule e = FetchResolved true (inr scheduleData) ->
  get scheduleData "bookmarkPreview" = Some bookmarkPreview ->
  enabled settings = true -> schedule settings <> [] ->
  scheduleNotifications e settings p = Some p1 ->
  posted p1
  = (posted p ++ if workerActive e
                 then Worker.CANCEL_NOTIFICATIONS
                      :: List.map (scheduleMessage e) (schedule settings)
                 else [])%list.
Proof.
intros Hw Hn Hg Hfetch Hprev Hen Hne.
unfold scheduleNotifications. rewrite Hw. simpl.
set (p0 := setError None (setLoading true p)).
unfold scheduleTry. rewrite Hn. simpl.
rewrite decide_True by exact Hg. simpl.
set (q := cancelNotifications e p0).
rewrite Hen. simpl. rewrite bool_decide_eq_false_2 by exact Hne.
rewrite Hfetch, Hprev.
destruct (scheduleEach e _ _ _ q) as [q' |] eqn:E'; [| discriminate].
intros [= <-]. simpl.
rewrite (scheduleEach_posted _ _ _ _ _ _ E').
destruct (cancelNotifications_frame e p0) as (_ & _ & Hpost).
fold q in Hpost. rewrite Hpost.
rewrite Hw. simpl. destruct (workerActive e); simpl.
- rewrite <- app_assoc. reflexivity.
- rewrite !app_nil_r. reflexivity.
Qed.

Lemma scheduleNotifications_posts_witness :
  let e := exampleEnv
             (FetchResolved true (inr (VObj [("bookmarkPreview", VNull)]))) in
  exists p1,
    scheduleNotifications e
      {| enabled := true; schedule := ["20:00"];
         lastNotificationDate := "" |} initial = Some p1
    /\ posted p1 = [Worker.CANCEL_NOTIFICATIONS;
                    Worker.SCHEDULE_NOTIFICATION "20:00" 19800000].
Proof.
intros e.
destruct (scheduleNotifications e
            {| enabled := true; schedule := ["20:00"];
               lastNotificationDate := "" |} initial) as [p1 |] eqn:E;
  [| vm_compute in E; discriminate].
exists p1. split; [reflexivity |].
rewrite (scheduleNotifications_posts e
           {| enabled := true; schedule := ["20:00"];
              lastNotificationDate := "" |} initial p1
           (VObj [("bookmarkPreview", VNull)]) VNull eq_refl eq_refl eq_refl
           eq_refl eq_refl eq_refl ltac:(discriminate) E).
reflexivity.
Defined.

(** [requestNotificationPermission] answers [true] exactly when the page
    has the Notification API and permission is already granted or the
    prompt grants it; whenever it answers [false] an error message is set;
    it never touches the timers, and it leaves the loading flag cleared
    whenever it has prompted. *)
Theorem requestNotificationPermission_result (e : env) (p : page) :
  let r := requestNotificationPermission e p in
  (r.1 = true <->
     hasWindow e = true /\ hasNotification e = true
     /\ (notificationPermission e = Granted
         \/ (notificationPermission e = Default
             /\ requestPermission e = inr Granted)))
  /\ (r.1 = true -> permissionState r.2 = Granted)
  /\ (r.1 = false -> is_Some (error r.2))
  /\ scheduledTimeouts r.2 = scheduledTimeouts p /\ loop r.2 = loop p
  /\ (hasWindow e = true -> hasNotification e = true ->
      notificationPermission e = Default -> loading r.2 = false).
Proof.
intros r. subst r.
destruct (requestNotificationPermission_frame e p) as [F1 F2].
unfold requestNotificationPermission in *.
destruct (hasWindow e), (hasNotification e); simpl in *;
  try (repeat split; try tauto; try discriminate; eauto;
       intros (? & ? & _); discriminate).
destruct (notificationPermission e); simpl in *.
- destruct (requestPermission e) as [err | result]; simpl in *.
  + repeat split; try tauto; try discriminate; eauto.
    intros (_ & _ & [? | [_ ?]]); discriminate.
  + destruct (decide (result = Granted)) as [-> | Hne]; simpl in *.
    * repeat split; try tauto; try discriminate; eauto.
    * repeat split; try tauto; try discriminate; eauto.
      intros (_ & _ & [? | [_ ?]]); congruence.
- repeat split; try tauto; try discriminate; eauto.
- repeat split; try tauto; try discriminate; eauto.
  intros (_ & _ & [? | [? _]]); discriminate.
Qed.

Lemma requestNotificationPermission_result_witness :
  (requestNotificationPermission
     (exampleEnv (FetchRejected None)) initial).1 = true.
Proof.
apply (proj1 (requestNotificationPermission_result
                (exampleEnv (FetchRejected None)) initial)).
repeat split. left. reflexivity.
Defined.

(** When permission is denied, or the prompt does not grant it,
    [scheduleNotifications] cancels nothing and schedules nothing: timers,
    map and posted messages stay as they were, and the error says that
    permission is required. *)
Theorem scheduleNotifications_without_permission
    (e : env) (settings : NotificationSettings) (p : page) :
  hasWindow e = true -> hasNotification e = true ->
  (notificationPermission e = Denied
   \/ (notificationPermission e = Default
       /\ requestPermission e <> inr Granted)) ->
  exists p1,
    scheduleNotifications e settings p = Some p1
    /\ error p1
       = Some "Notification permission is required to schedule notifications"
    /\ loading p1 = false
    /\ scheduledTimeouts p1 = scheduledTimeouts p
    /\ loop p1 = loop p /\ posted p1 = posted p.
Proof.
intros Hw Hn Hperm.
unfold scheduleNotifications. rewrite Hw. simpl.
unfold scheduleTry. rewrite Hn. simpl.
unfold requestNotificationPermission. rewrite Hw, Hn. simpl.
destruct Hperm as [-> | [-> Hreq]].
- rewrite decide_False by discriminate. simpl.
  eexists. split; [reflexivity |]. simpl. auto.
- rewrite decide_False by discriminate.
  destruct (requestPermission e) as [err | result]; simpl.
  + eexists. split; [reflexivity |]. simpl. auto.
  + destruct (decide (result = Granted)) as [-> | Hne]; [congruence |].
    simpl. eexists. split; [reflexivity |]. simpl. auto.
Qed.

Lemma scheduleNotifications_without_permission_witness :
  let e := {| tz := 0; now := 0; hasWindow := true; hasNotification := true;
              notificationPermission := Denied;
              requestPermission := inr Denied; workerActive := true;
              fetchSchedule := FetchRejected None;
              referenceError := ""; typeError := "" |} in
  exists p1,
    scheduleNotifications e
      {| enabled := true; schedule := ["09:00"]; lastNotificationDate := "" |}
      initial = Some p1
    /\ loop p1 = loop initial.
Proof.
intros e.
destruct (scheduleNotifications_without_permission e
            {| enabled := true; schedule := ["09:00"];
               lastNotificationDate := "" |} initial)
  as (p1 & E & _ & _ & _ & H & _); try reflexivity.
- left. reflexivity.
- exists p1. auto.
Defined.

End HookMore.

(** ** JSON: what the parser returns *)

Module JsonParseFacts.
Import Value Json JsonFacts.







End JsonParseFacts.

(** ** localStorage helpers: fallbacks and independence of the two keys *)

Module StorageMore.
Import Value Json Storage JsonFacts JsonParseFacts StorageFacts.

Lemma defaultReviewState_jsonable : jsonable defaultReviewState.
Proof.
apply jsonable_obj. split.
- apply (bool_decide_unpack (NoDup _)). vm_compute. exact I.
- repeat constructor; cbn; auto.
  + intros H. apply list_elem_of_singleton in H. discriminate.
  + intros H. inversion H.
Qed.




(** A write under one key leaves what is read under another. *)
Lemma write_other_key key key' dflt valid v ctx :
  key <> key' ->
  read key dflt valid (write key' v ctx) = read key dflt valid ctx.
Proof.
intros Hne. destruct ctx as [ls |]; [| reflexivity].
unfold write, read. destruct (setItemThrows ls); [reflexivity |].
cbn [getItemThrows items]. rewrite lookup_insert_ne by congruence.
reflexivity.
Qed.





(** The two helpers use different keys: saving the notification settings
    never changes what [getReviewState] returns, and saving the review state
    never changes what [getNotificationSettings] returns; a write that
    throws changes nothing at all. *)
Theorem storage_keys_independent (ctx : context) (v : value) :
  getReviewState (setNotificationSettings v ctx) = getReviewState ctx
  /\ getNotificationSettings (setReviewState v ctx)
     = getNotificationSettings ctx
  /\ (forall ls, ctx = Some ls -> setItemThrows ls = true ->
        setReviewState v ctx = ctx /\ setNotificationSettings v ctx = ctx).
Proof.
split; [apply write_other_key; discriminate |].
split; [apply write_other_key; discriminate |].
intros ls -> Hs. unfold setReviewState, setNotificationSettings, write.
rewrite Hs. split; reflexivity.
Qed.

Lemma storage_keys_independent_witness :
  let ls := {| items := ∅; getItemThrows := false; setItemThrows := true |} in
  setReviewState defaultReviewState (Some ls) = Some ls.
Proof.
intros ls.
apply (proj2 (proj2 (storage_keys_independent (Some ls) defaultReviewState))
         ls eq_refl eq_refl).
Defined.

End StorageMore.

(** ** The flashcard hook: what is stored is what is read next *)

Module FlashcardsMore.
Import Value Json Storage Flashcards JsonFacts JsonParseFacts StorageFacts
  FlashcardsFacts StorageMore.








(** [resetSession] stores the default state and zeroes both counters: in a
    browser context whose storage reads and writes, the next
    [getReviewState] returns the default state, whatever was stored; the
    notification settings are as before. *)
Theorem resetSession_restores_default (h : hook) (ctx : context) :
  capable ctx ->
  let (h', ctx') := resetSession h ctx in
  getReviewState ctx' = Some defaultReviewState
  /\ getNotificationSettings ctx' = getNotificationSettings ctx
  /\ currentBookmark h' = None
  /\ reviewedCount h' = VNum 0 /\ skippedCount h' = VNum 0.
Proof.
intros Hc. unfold resetSession. split; [| split; [| repeat split]].
- apply read_write;
    [exact Hc | exact defaultReviewState_jsonable | reflexivity].
- apply write_other_key. discriminate.
Qed.

Lemma resetSession_restores_default_witness :
  let ctx :=
    Some {| items := {[ REVIEW_STATE_KEY := "{oops" ]};
            getItemThrows := false; setItemThrows := false |} in
  let h := {| currentBookmark := None; reviewedCount := VNum 4;
              skippedCount := VNum 2 |} in
  getReviewState (snd (resetSession h ctx)) = Some defaultReviewState.
Proof.
intros ctx h.
refine (proj1 (resetSession_restores_default h ctx _)).
eexists. repeat split.
Defined.

End FlashcardsMore.

(** ** The worker: click routing and the timers it records *)

Module WorkerMore.
Import Worker TimersFacts.

Lemma route_cases test hasOpenWindow target clientList :
  (exists before c after,
     clientList = (before ++ c :: after)%list
     /\ test c = true /\ hasFocus c = true
     /\ (forall c', c' ∈ before -> test c' && hasFocus c' = false)
     /\ route test hasOpenWindow target clientList = [Focus c])
  \/ ((forall c', c' ∈ clientList -> test c' && hasFocus c' = false)
      /\ route test hasOpenWindow target clientList
         = if hasOpenWindow then [OpenWindow target] else []).
Proof.
unfold route. induction clientList as [| c0 rest IH].
- right. split; [| reflexivity]. intros c' H. inversion H.
- simpl. destruct (test c0 && hasFocus c0) eqn:E.
  + left. exists [], c0, rest. apply andb_true_iff in E as [Ht Hf].
    repeat split; auto. intros c' H. inversion H.
  + destruct IH as [(before & c & after & -> & Ht & Hf & Hb & Hr) | [Hall Hr]].
    * left. exists (c0 :: before), c, after. repeat split; auto.
      intros c' [-> | H]%elem_of_cons; auto.
    * right. split; [| exact Hr].
      intros c' [-> | H]%elem_of_cons; auto.
Qed.

(** A click closes the notification and then does exactly one thing: it
    focuses the first client of the list that passes the worker's URL test
    and can be focused, or, when there is none, opens the target in a new
    window if the browser can.  The target is never the empty string.
    public/sw.js tests [includes], worker/index.ts tests [===]. *)
Theorem notificationclick_focuses_first_match (hasOpenWindow : bool)
    (dataUrl : option string) (clientList : list client) :
  let target := urlToOpen dataUrl in
  target <> EmptyString
  /\ ((exists before c after,
         clientList = (before ++ c :: after)%list
         /\ JS.includes target (url c) = true /\ hasFocus c = true
         /\ (forall c', c' ∈ before ->
               JS.includes target (url c') && hasFocus c' = false)
         /\ notificationclick_sw hasOpenWindow dataUrl clientList
            = [CloseNotification; Focus c])
      \/ ((forall c', c' ∈ clientList ->
             JS.includes target (url c') && hasFocus c' = false)
          /\ notificationclick_sw hasOpenWindow dataUrl clientList
             = CloseNotification
               :: (if hasOpenWindow then [OpenWindow target] else [])))
  /\ ((exists before c after,
         clientList = (before ++ c :: after)%list
         /\ url c = target /\ hasFocus c = true
         /\ (forall c', c' ∈ before -> url c' <> target \/ hasFocus c' = false)
         /\ notificationclick_ts hasOpenWindow dataUrl clientList
            = [CloseNotification; Focus c])
      \/ ((forall c', c' ∈ clientList ->
             url c' <> target \/ hasFocus c' = false)
          /\ notificationclick_ts hasOpenWindow dataUrl clientList
             = CloseNotification
               :: (if hasOpenWindow then [OpenWindow target] else []))).
Proof.
intros target. split; [| split].
- subst target. destruct dataUrl as [[| c u] |]; discriminate.
- unfold notificationclick_sw. fold target.
  destruct (route_cases (fun c => JS.includes target (url c)) hasOpenWindow
              target clientList)
    as [(before & c & after & -> & Ht & Hf & Hb & ->) | [Hall ->]].
  + left. exists before, c, after. auto.
  + right. auto.
- unfold notificationclick_ts. fold target.
  assert (forall c', bool_decide (url c' = target) && hasFocus c' = false ->
            url c' <> target \/ hasFocus c' = false) as Hconv.
  { intros c' [H | H]%andb_false_iff; [left | right; exact H].
    apply bool_decide_eq_false in H. exact H. }
  destruct (route_cases (fun c => bool_decide (url c = target)) hasOpenWindow
              target clientList)
    as [(before & c & after & -> & Ht & Hf & Hb & ->) | [Hall ->]].
  + left. exists before, c, after. apply bool_decide_eq_true in Ht. auto 10.
  + right. auto.
Qed.

(** *** Timers *)






End WorkerMore.

(** ** The offline-cache worker: cache-first pages, and what is written *)

Module OfflineCacheMore.
Import OfflineCache OfflineCacheFacts.

Lemma static_not_api (p : string) :
  JS.startsWith "/_next/static/" p = true -> JS.startsWith "/api/" p = false.
Proof.
destruct p as [| a [| b p]]; [discriminate | |].
- simpl. destruct (decide _); discriminate.
- cbn [JS.startsWith].
  destruct (decide ("/"%char = a)) as [<- |]; [| discriminate].
  destruct (decide ("_"%char = b)) as [<- |]; [| discriminate].
  intros _. rewrite decide_False by discriminate. reflexivity.
Qed.

Lemma route_not_api (p : string) :
  p ∈ CACHE_ROUTES -> JS.startsWith "/api/" p = false.
Proof.
unfold CACHE_ROUTES. rewrite !elem_of_cons, elem_of_nil.
intros [-> | [-> | [-> | []]]]; reflexivity.
Qed.

(** Under the cache-first strategy a cached response is returned without
    using the network and without touching the caches, so that a response
    once put stays the answer whatever the network returns later; an
    uncached request is answered from the network and put in the named
    cache; with neither, a request that accepts text/html gets the offline
    page with status 503 and any other request fails.  The listener applies
    the strategy to the three page routes and to /_next/static/ paths of its
    own origin. *)
Theorem cacheFirstStrategy_cases (network : option response) (req : request)
    (cacheName : string) (cs : caches) :
  (forall r, caches_match cs (urlOf req) = Some r ->
     cacheFirstStrategy network req cacheName cs = (Some r, cs))
  /\ (forall r, caches_match cs (urlOf req) = None -> network = Some r ->
        cacheFirstStrategy network req cacheName cs
        = (Some r, cache_put cs cacheName (urlOf req) r)
        /\ (onlyIn cacheName (urlOf req) cs ->
            forall later,
              cacheFirstStrategy later req cacheName
                (cache_put cs cacheName (urlOf req) r)
              = (Some r, cache_put cs cacheName (urlOf req) r)))
  /\ (caches_match cs (urlOf req) = None -> network = None ->
        cacheFirstStrategy network req cacheName cs
        = (match accept req with
           | Some a => if JS.includes "text/html" a then Some offlineHtml
                       else None
           | None => None
           end, cs))
  /\ (pathname req ∈ CACHE_ROUTES
      \/ JS.startsWith "/_next/static/" (pathname req) = true ->
      onfetch (origin req) network req cs
      = (match (cacheFirstStrategy network req CACHE_NAME cs).1 with
         | Some r => Responded r
         | None => Failed
         end,
         (cacheFirstStrategy network req CACHE_NAME cs).2)).
Proof.
split; [| split; [| split]].
- intros r Hm. unfold cacheFirstStrategy. rewrite Hm. reflexivity.
- intros r Hm ->. unfold cacheFirstStrategy. rewrite Hm.
  split; [reflexivity |]. intros Honly later.
  rewrite caches_match_put by exact Honly. reflexivity.
- intros Hm ->. unfold cacheFirstStrategy. rewrite Hm.
  destruct (accept req) as [a |]; [destruct (JS.includes _ a) |]; reflexivity.
- intros Hroute. unfold onfetch.
  rewrite bool_decide_eq_true_2 by reflexivity. cbn [negb].
  assert (JS.startsWith "/api/" (pathname req) = false) as ->
    by (destruct Hroute; [apply route_not_api | apply static_not_api];
        assumption).
  assert (bool_decide (pathname req ∈ CACHE_ROUTES)
          || JS.startsWith "/_next/static/" (pathname req) = true) as ->.
  { destruct Hroute as [H | H].
    - rewrite bool_decide_eq_true_2 by exact H. reflexivity.
    - rewrite H. apply orb_true_r. }
  destruct (cacheFirstStrategy network req CACHE_NAME cs) as [[r |] cs'];
    reflexivity.
Qed.

Lemma cacheFirstStrategy_cases_witness :
  let req := {| origin := "https://zenchi.app"; pathname := "/flashcards";
                search := EmptyString; accept := Some "text/html,*/*" |} in
  onfetch "https://zenchi.app" None req [] = (Responded offlineHtml, []).
Proof.
intros req.
destruct (cacheFirstStrategy_cases None req CACHE_NAME [])
  as (_ & _ & H & Hl).
assert (pathname req ∈ CACHE_ROUTES) as Hin by (right; left).
change (onfetch (origin req) None req [] = (Responded offlineHtml, [])).
rewrite (Hl (or_introl Hin)).
rewrite (H eq_refl eq_refl). reflexivity.
Defined.

(** The caches after the listener ran: as before, or with one response
    put in one of the two caches of this version. *)
Lemma onfetch_caches (location : string) (network : option response)
    (req : request) (cs : caches) :
  (onfetch location network req cs).2 = cs
  \/ exists r name,
       (name = CACHE_NAME \/ name = API_CACHE_NAME)
       /\ (onfetch location network req cs).2
          = cache_put cs name (urlOf req) r.
Proof.
unfold onfetch. destruct (negb _); [left; reflexivity |].
destruct (JS.startsWith "/api/" (pathname req)).
{ unfold networkFirstStrategy. destruct network as [r |]; [right; eauto |].
  left. destruct (caches_match _ _); [| destruct (JS.includes _ _)];
    reflexivity. }
destruct (_ || _).
{ unfold cacheFirstStrategy.
  destruct (caches_match _ _); [left; reflexivity |].
  destruct network as [r |]; [right; eauto |].
  left. destruct (accept req) as [a |]; [destruct (JS.includes _ a) |];
    reflexivity. }
unfold networkFirstStrategy. destruct network as [r |]; [right; eauto |].
left. destruct (caches_match _ _); [| destruct (JS.includes _ _)];
  reflexivity.
Qed.

(** What the listener writes: nothing for a request of another origin
    (which it does not answer at all) and nothing when the network fails, so
    that a synthesized 503 response is never cached; otherwise at most the
    network response, under the request URL, in one of the two caches of
    this version. *)
Theorem onfetch_writes (location : string) (network : option response)
    (req : request) (cs : caches) :
  let result := onfetch location network req cs in
  (origin req <> location -> result = (NotHandled, cs))
  /\ (network = None -> result.2 = cs)
  /\ (result.2 = cs
      \/ exists r name,
           network = Some r /\ result.1 = Responded r
           /\ (name = CACHE_NAME \/ name = API_CACHE_NAME)
           /\ result.2 = cache_put cs name (urlOf req) r)
  /\ (result.1 <> NotHandled -> origin req = location).
Proof.
intros result. subst result. unfold onfetch.
destruct (decide (origin req = location)) as [Ho | Ho].
- rewrite bool_decide_eq_true_2 by exact Ho. cbn [negb].
  split; [contradiction |].
  destruct (JS.startsWith "/api/" (pathname req)).
  { unfold networkFirstStrategy. destruct network as [r |].
    - cbn. split; [discriminate |]. split; [| auto].
      right. exists r, API_CACHE_NAME. auto.
    - destruct (caches_match _ _); [| destruct (JS.includes _ _)]; cbn; auto. }
  destruct (_ || _).
  { unfold cacheFirstStrategy.
    destruct (caches_match _ _); [cbn; auto |].
    destruct network as [r |].
    - cbn. split; [discriminate |]. split; [| auto].
      right. exists r, CACHE_NAME. auto.
    - destruct (accept req) as [a |]; [destruct (JS.includes _ a) |];
        cbn; auto. }
  unfold networkFirstStrategy. destruct network as [r |].
  + cbn. split; [discriminate |]. split; [| auto].
    right. exists r, CACHE_NAME. auto.
  + destruct (caches_match _ _); [| destruct (JS.includes _ _)]; cbn; auto.
- rewrite bool_decide_eq_false_2 by exact Ho. cbn.
  split; [reflexivity |]. split; [reflexivity |]. split; [auto |].
  intros H. contradiction.
Qed.

Lemma onfetch_writes_witness :
  let req := {| origin := "https://cdn.example"; pathname := "/api/x";
                search := EmptyString; accept := None |} in
  onfetch "https://zenchi.app" None req [] = (NotHandled, []).
Proof.
intros req.
apply (proj1 (onfetch_writes "https://zenchi.app" None req [])).
discriminate.
Defined.

Lemma cache_put_current cs name url r :
  name = CACHE_NAME \/ name = API_CACHE_NAME ->
  current cs -> current (cache_put cs name url r).
Proof.
intros Hname. unfold current.
induction 1 as [| [n c] cs Hn Hrest IH]; simpl.
- constructor; [exact Hname | constructor].
- destruct (decide (n = name)); constructor; auto.
Qed.

(** Activation keeps exactly the caches named as the two of this version,
    with their contents and in their order, and deletes every other one;
    activating again changes nothing, and whatever the listener then
    answers, no cache of another name comes into being. *)
Theorem onactivate_keeps_current (cs : caches) :
  current (onactivate cs)
  /\ (forall n c, (n, c) ∈ onactivate cs
        <-> (n, c) ∈ cs /\ (n = CACHE_NAME \/ n = API_CACHE_NAME))
  /\ onactivate (onactivate cs) = onactivate cs
  /\ (current cs -> onactivate cs = cs)
  /\ (forall location requests,
        current
          (foldl (fun cs' (ev : option response * request) =>
                    (onfetch location ev.1 ev.2 cs').2)
             (onactivate cs) requests)).
Proof.
assert (forall nc : string * gmap string response,
  negb (negb (bool_decide (nc.1 = CACHE_NAME))
        && negb (bool_decide (nc.1 = API_CACHE_NAME))) = true
  <-> nc.1 = CACHE_NAME \/ nc.1 = API_CACHE_NAME) as Hkeep.
{ intros nc. rewrite negb_true_iff, andb_false_iff, !negb_false_iff,
    !bool_decide_eq_true. reflexivity. }
assert (forall cs', current cs' -> onactivate cs' = cs') as Hid.
{ unfold current, onactivate. induction 1 as [| nc cs' Hn _ IH]; simpl;
    [reflexivity |].
  rewrite (proj2 (Hkeep nc) Hn). f_equal. exact IH. }
assert (current (onactivate cs)) as Hcur.
{ unfold current, onactivate. apply Forall_forall. intros nc Hin.
  apply list_elem_of_In, filter_In in Hin as [_ Hin]. apply Hkeep, Hin. }
split; [exact Hcur |]. split; [| split; [| split]].
- intros n c. unfold onactivate.
  rewrite list_elem_of_In, filter_In, <- list_elem_of_In, Hkeep. reflexivity.
- apply Hid, Hcur.
- apply Hid.
- intros location requests. revert Hcur. generalize (onactivate cs).
  induction requests as [| [network req] requests IH]; intros cs' Hcur;
    [exact Hcur |].
  simpl. apply IH.
  destruct (onfetch_caches location network req cs')
    as [-> | (r & name & Hname & ->)];
    [exact Hcur | apply cache_put_current; assumption].
Qed.

Lemma onactivate_keeps_current_witness :
  let cs : caches := [(API_CACHE_NAME, ∅); (CACHE_NAME, ∅)] in
  onactivate cs = cs.
Proof.
intros cs.
apply (proj1 (proj2 (proj2 (proj2 (onactivate_keeps_current cs))))).
constructor; [right; reflexivity |].
constructor; [left; reflexivity | constructor].
Defined.

End OfflineCacheMore.

(** ** The order of strings *)

Module JSOrderFacts.
Import JS.

Lemma code_inj (x y : ascii) : code x = code y -> x = y.
Proof.
unfold code. intros H. apply N2Z.inj in H.
rewrite <- (ascii_N_embedding x), <- (ascii_N_embedding y), H. reflexivity.
Qed.

Lemma ltb_irrefl (a : string) : ltb a a = false.
Proof.
induction a as [| x a IH]; [reflexivity |]. simpl.
rewrite Z.ltb_irrefl, Z.eqb_refl. exact IH.
Qed.

Lemma ltb_asym (a b : string) : ltb a b = true -> ltb b a = false.
Proof.
revert b. induction a as [| x a IH]; intros [| y b]; simpl; try congruence.
destruct (Z.ltb_spec (code x) (code y)), (Z.ltb_spec (code y) (code x)),
  (Z.eqb_spec (code x) (code y)), (Z.eqb_spec (code y) (code x));
  intros; first [lia | reflexivity | discriminate | auto].
Qed.

Lemma ltb_trans (a b c : string) :
  ltb a b = true -> ltb b c = true -> ltb a c = true.
Proof.
revert b c. induction a as [| x a IH]; intros [| y b] [| z c]; simpl;
  try congruence.
destruct (Z.ltb_spec (code x) (code y)), (Z.ltb_spec (code y) (code z)),
  (Z.ltb_spec (code x) (code z)),
  (Z.eqb_spec (code x) (code y)), (Z.eqb_spec (code y) (code z)),
  (Z.eqb_spec (code x) (code z));
  intros; first [lia | reflexivity | discriminate | eauto].
Qed.

(** Two strings are equal or one is before the other. *)
Lemma ltb_trichotomy (a b : string) :
  ltb a b = true \/ a = b \/ ltb b a = true.
Proof.
revert b. induction a as [| x a IH]; intros [| y b]; simpl; auto.
destruct (Z.ltb_spec (code x) (code y)); [auto |].
destruct (Z.ltb_spec (code y) (code x)); [auto |].
assert (code x = code y) as E by lia.
rewrite E, Z.eqb_refl. apply code_inj in E. subst y.
destruct (IH b) as [Hlt | [-> | Hlt]]; auto.
Qed.

Lemma le_iff (a b : string) : le a b <-> ltb a b = true \/ a = b.
Proof.
unfold le. split.
- intros Hba. destruct (ltb_trichotomy a b) as [? | [? | Hlt]]; auto.
  congruence.
- intros [H | ->]; [apply ltb_asym, H | apply ltb_irrefl].
Qed.

Global Instance le_total : Total le.
Proof.
intros a b. unfold le.
destruct (ltb b a) eqn:E; [right; apply ltb_asym, E | left; reflexivity].
Qed.

Global Instance le_trans : Transitive le.
Proof.
intros a b c. rewrite !le_iff.
intros [H1 | ->] [H2 | ->]; eauto using ltb_trans.
Qed.

Global Instance le_antisym : AntiSymm (=) le.
Proof.
intros a b. rewrite !le_iff. intros [H1 | ->] [H2 | H2]; auto.
apply ltb_asym in H1. congruence.
Qed.

(** A list in the order of [le] that names nothing twice is strictly
    increasing. *)
Lemma sorted_strict (l : list string) :
  StronglySorted le l -> NoDup l ->
  StronglySorted (fun a b => ltb a b = true) l.
Proof.
induction 1 as [| x l Hs IH Hall]; intros Hnd; constructor.
- apply IH. apply NoDup_cons in Hnd. tauto.
- apply NoDup_cons in Hnd as [Hnin _].
  apply Forall_forall. intros y Hy.
  rewrite Forall_forall in Hall. specialize (Hall y Hy).
  apply le_iff in Hall as [H | ->]; [exact H |].
  exfalso. apply Hnin. exact Hy.
Qed.

Lemma strict_sorted (l : list string) :
  StronglySorted (fun a b => ltb a b = true) l ->
  StronglySorted le l /\ NoDup l.
Proof.
induction 1 as [| x l Hs [IH1 IH2] Hall]; [split; constructor |].
split.
- constructor; [exact IH1 |].
  eapply Forall_impl; [exact Hall |]. intros y H. apply le_iff. auto.
- apply NoDup_cons. split; [| exact IH2].
  intros Hin. rewrite Forall_forall in Hall.
  specialize (Hall x Hin). rewrite ltb_irrefl in Hall. discriminate.
Qed.

End JSOrderFacts.

(** ** The settings component *)

Module SettingsUIFacts.
Import Hook SettingsUI JSOrderFacts EntryFacts.

(** On well-formed entries the order of strings is the order of the times
    of day. *)
Lemma ltb_hhmm h1 m1 h2 m2 :
  0 <= h1 < 24 -> 0 <= m1 < 60 -> 0 <= h2 < 24 -> 0 <= m2 < 60 ->
  JS.ltb (Entry.hhmm h1 m1) (Entry.hhmm h2 m2) = true
  <-> h1 * 60 + m1 < h2 * 60 + m2.
Proof.
intros Hh1 Hm1 Hh2 Hm2.
destruct (two_digits h1 ltac:(lia)) as (Ha1 & Hb1 & Eh1).
destruct (two_digits m1 ltac:(lia)) as (Hc1 & Hd1 & Em1).
destruct (two_digits h2 ltac:(lia)) as (Ha2 & Hb2 & Eh2).
destruct (two_digits m2 ltac:(lia)) as (Hc2 & Hd2 & Em2).
change (Entry.hhmm h1 m1) with
  (String (Entry.digit (h1 / 10)) (String (Entry.digit (h1 mod 10)) (String ":"
     (String (Entry.digit (m1 / 10)) (String (Entry.digit (m1 mod 10)) ""))))).
change (Entry.hhmm h2 m2) with
  (String (Entry.digit (h2 / 10)) (String (Entry.digit (h2 mod 10)) (String ":"
     (String (Entry.digit (m2 / 10)) (String (Entry.digit (m2 mod 10)) ""))))).
cbn [JS.ltb]. rewrite !code_digit by lia.
set (a1 := h1 / 10) in *. set (b1 := h1 mod 10) in *.
set (c1 := m1 / 10) in *. set (d1 := m1 mod 10) in *.
set (a2 := h2 / 10) in *. set (b2 := h2 mod 10) in *.
set (c2 := m2 / 10) in *. set (d2 := m2 mod 10) in *.
rewrite Z.ltb_irrefl, Z.eqb_refl.
repeat match goal with
  | |- context [?x <? ?y] => destruct (Z.ltb_spec x y)
  | |- context [?x =? ?y] => destruct (Z.eqb_spec x y)
  end; split; intros; first [lia | discriminate | reflexivity].
Qed.

Lemma trim_end_nonwhite (c : ascii) (r : string) :
  JS.is_white c = false -> JS.trim_end (String c r) <> EmptyString.
Proof.
intros H. cbn [JS.trim_end].
destruct (JS.trim_end r); [rewrite H |]; discriminate.
Qed.

Lemma trim_valid (time : string) :
  isValidTime time = true -> JS.trim time <> EmptyString.
Proof.
intros H. apply timeRegex_test_hhmm in H as (h & m & Hh & Hm & ->).
destruct (two_digits h ltac:(lia)) as (Ha & Hb & Eh).
change (Entry.hhmm h m) with
  (String (Entry.digit (h / 10)) (String (Entry.digit (h mod 10)) (String ":"
     (String (Entry.digit (m / 10)) (String (Entry.digit (m mod 10)) ""))))).
assert (JS.is_white (Entry.digit (h / 10)) = false) as Hw.
{ unfold JS.is_white. rewrite code_digit by lia.
  repeat match goal with
    | |- context [?x <=? ?y] => destruct (Z.leb_spec x y)
    | |- context [?x =? ?y] => destruct (Z.eqb_spec x y)
    end; first [lia | reflexivity]. }
unfold JS.trim. cbn [JS.trim_start]. rewrite Hw.
apply trim_end_nonwhite, Hw.
Qed.

Lemma filter_Permutation' {A} (f : A -> bool) (l1 l2 : list A) :
  l1 ≡ₚ l2 -> List.filter f l1 ≡ₚ List.filter f l2.
Proof.
induction 1 as [| x l1 l2 _ IH | x y l | l1 l2 l3 _ IH1 _ IH2]; simpl.
- reflexivity.
- destruct (f x); [constructor |]; exact IH.
- destruct (f x), (f y); try reflexivity. constructor.
- etransitivity; eassumption.
Qed.

Lemma filter_sorted {A} (R : relation A) (f : A -> bool) (l : list A) :
  StronglySorted R l -> StronglySorted R (List.filter f l).
Proof.
induction 1 as [| x l Hs IH Hall]; simpl; [constructor |].
destruct (f x); [| exact IH]. constructor; [exact IH |].
apply Forall_forall. intros y Hy.
apply list_elem_of_In, filter_In in Hy as [Hy _].
rewrite Forall_forall in Hall. apply Hall, list_elem_of_In, Hy.
Qed.

Lemma filter_absent (t : string) (l : list string) :
  t ∉ l ->
  List.filter (fun time => negb (bool_decide (time = t))) l = l.
Proof.
induction l as [| x l IH]; intros Hnin; [reflexivity |].
simpl. apply not_elem_of_cons in Hnin as [Hne Hnin].
rewrite bool_decide_eq_false_2 by congruence. simpl. f_equal. apply IH, Hnin.
Qed.

Lemma tidy_nil : tidy [].
Proof. split; constructor. Qed.

(** The schedule after a time is added. *)
Lemma add_tidy (l : list string) (t : string) :
  tidy l -> isValidTime t = true -> t ∉ l ->
  let l' := merge_sort JS.le (l ++ [t]) in
  tidy l' /\ l' ≡ₚ t :: l
  /\ List.filter (fun time => negb (bool_decide (time = t))) l' = l.
Proof.
intros [Hvalid Hsorted] Ht Hnin l'.
apply strict_sorted in Hsorted as [Hle Hnd].
assert (l' ≡ₚ (l ++ [t])%list) as Hperm by apply merge_sort_Permutation.
assert (StronglySorted JS.le l') as Hle'
  by apply (StronglySorted_merge_sort JS.le).
assert (NoDup l') as Hnd'.
{ rewrite Hperm. apply NoDup_app. split; [exact Hnd |].
  split; [| apply NoDup_singleton].
  intros x Hx Hx'. apply list_elem_of_singleton in Hx'. subst x. tauto. }
split; [split |]; [| | split].
- rewrite Hperm. apply Forall_app. split; [exact Hvalid |].
  repeat constructor. exact Ht.
- apply sorted_strict; assumption.
- rewrite Hperm. symmetry. apply Permutation_cons_append.
- apply (StronglySorted_unique JS.le).
  + apply filter_sorted, Hle'.
  + exact Hle.
  + rewrite (filter_Permutation' _ _ _ Hperm), List.filter_app. simpl.
    rewrite bool_decide_eq_true_2 by reflexivity. simpl.
    rewrite app_nil_r, filter_absent by exact Hnin. reflexivity.
Qed.

Lemma remove_tidy (l : list string) (t : string) :
  tidy l ->
  let l' := List.filter (fun time => negb (bool_decide (time = t))) l in
  tidy l' /\ forall x, x ∈ l' <-> x ∈ l /\ x <> t.
Proof.
intros [Hvalid Hsorted] l'. split; [split |].
- apply Forall_forall. intros x Hx.
  apply list_elem_of_In, filter_In in Hx as [Hx _].
  rewrite Forall_forall in Hvalid. apply Hvalid, list_elem_of_In, Hx.
- apply filter_sorted, Hsorted.
- intros x. subst l'.
  rewrite !list_elem_of_In, filter_In, negb_true_iff, bool_decide_eq_false.
  reflexivity.
Qed.

(** The times of a tidy schedule are in chronological order. *)
Lemma tidy_minutes (l : list string) :
  tidy l ->
  exists mins,
    Scheduler.scheduleMinutes l = Some mins
    /\ StronglySorted Z.lt mins /\ Forall (fun x => 0 <= x < 1440) mins
    /\ Forall2 Entry.denotes l mins.
Proof.
intros [Hvalid Hsorted]. induction Hsorted as [| t l Hs IH Hall].
- exists []. repeat split; constructor.
- apply Forall_cons in Hvalid as [Ht Hvalid].
  destruct (IH Hvalid) as (mins & Emins & Hmins & Hrange & Hden).
  pose proof Ht as Ht'.
  apply timeRegex_test_hhmm in Ht' as (h & m & Hh & Hm & ->).
  exists (h * 60 + m :: mins). simpl.
  rewrite hoursMinutes_hhmm by lia. rewrite Emins.
  split; [reflexivity |]. split; [| split].
  + constructor; [exact Hmins |].
    clear - Hden Hall Hh Hm. induction Hden as [| e x l mins He _ IH'];
      [constructor |].
    apply Forall_cons in Hall as [Hlt Hall]. constructor; [| apply IH', Hall].
    destruct He as (h' & m' & Hh' & Hm' & -> & ->).
    apply ltb_hhmm in Hlt; lia.
  + constructor; [lia | exact Hrange].
  + constructor; [| exact Hden]. exists h, m. auto.
Qed.


Lemma addTime_guard (time : string) :
  bool_decide (JS.trim time = EmptyString) || negb (isValidTime time)
  = negb (isValidTime time).
Proof.
destruct (isValidTime time) eqn:E; [| apply orb_true_r].
rewrite bool_decide_eq_false_2 by (apply trim_valid, E). reflexivity.
Qed.

(** [handleAddTime] on a tidy schedule: an entry that is not a well-formed
    time changes nothing; a time already listed only sets the error; a new
    time is put at its place, so that the schedule is a rearrangement of the
    old one with the new time, the input is cleared and the error reset;
    [handleRemoveTime] on that time then gives the old schedule back. *)
Theorem handleAddTime_cases (u : ui) :
  tidy (schedule (settings u)) ->
  let u' := handleAddTime u in
  enabled (settings u') = enabled (settings u)
  /\ lastNotificationDate (settings u') = lastNotificationDate (settings u)
  /\ (isValidTime (newTime u) = false -> u' = u)
  /\ (isValidTime (newTime u) = true ->
      newTime u ∈ schedule (settings u) ->
      settings u' = settings u /\ newTime u' = newTime u
      /\ saveError u' = Some "This time is already in your schedule")
  /\ (isValidTime (newTime u) = true ->
      newTime u ∉ schedule (settings u) ->
      schedule (settings u') ≡ₚ newTime u :: schedule (settings u)
      /\ tidy (schedule (settings u'))
      /\ newTime u' = EmptyString /\ saveError u' = None
      /\ schedule (settings (handleRemoveTime (newTime u) u'))
         = schedule (settings u)).
Proof.
intros Htidy u'. subst u'. unfold handleAddTime. rewrite addTime_guard.
destruct (isValidTime (newTime u)) eqn:Ev; cbn [negb].
- destruct (decide (newTime u ∈ schedule (settings u))) as [Hin | Hnin].
  + rewrite bool_decide_eq_true_2 by exact Hin. cbn.
    split; [reflexivity |]. split; [reflexivity |].
    split; [discriminate |].
    split; [auto | intros _ Hnin; contradiction].
  + rewrite bool_decide_eq_false_2 by exact Hnin. cbn.
    destruct (add_tidy _ _ Htidy Ev Hnin) as (Ht & Hp & Hf).
    split; [reflexivity |]. split; [reflexivity |].
    split; [discriminate |].
    split; [intros _ Hin; contradiction | auto 10].
- split; [reflexivity |]. split; [reflexivity |].
  split; [reflexivity |]. split; discriminate.
Qed.

Lemma handleAddTime_cases_witness :
  let u := {| settings := {| enabled := true; schedule := ["09:00"; "20:00"];
                             lastNotificationDate := "" |};
              newTime := "14:30"; saveError := None |} in
  schedule (settings (handleAddTime u)) ≡ₚ ["14:30"; "09:00"; "20:00"]
  /\ tidy (schedule (settings (handleAddTime u)))
  /\ schedule (settings (handleRemoveTime "14:30" (handleAddTime u)))
     = ["09:00"; "20:00"].
Proof.
intros u.
assert (tidy (schedule (settings u))) as Ht.
{ split; repeat constructor. }
assert (newTime u ∉ schedule (settings u)) as Hnin.
{ cbn. rewrite !not_elem_of_cons. repeat split; try discriminate.
  apply not_elem_of_nil. }
destruct (handleAddTime_cases u Ht) as (_ & _ & _ & _ & H).
destruct (H eq_refl Hnin) as (Hp & Ht' & _ & _ & Hr).
repeat split; try assumption; apply Ht'.
Defined.

(** The schedule the component keeps stays tidy: the empty schedule is, and
    adding, removing and toggling keep it so.  A tidy schedule names no time
    twice and lists its times in chronological order, every entry standing
    for a minute of the day. *)
Theorem schedule_stays_tidy (u : ui) :
  tidy [] /\
  (tidy (schedule (settings u)) ->
   tidy (schedule (settings (handleAddTime u)))
   /\ (forall timeToRemove,
         tidy (schedule (settings (handleRemoveTime timeToRemove u)))
         /\ timeToRemove ∉ schedule (settings (handleRemoveTime timeToRemove u)))
   /\ (forall e p,
         schedule (settings (handleToggleEnabled e u p).1)
         = schedule (settings u))
   /\ NoDup (schedule (settings u))
   /\ exists mins,
        Scheduler.scheduleMinutes (schedule (settings u)) = Some mins
        /\ StronglySorted Z.lt mins
        /\ Forall (fun x => 0 <= x < 1440) mins
        /\ Forall2 Entry.denotes (schedule (settings u)) mins).
Proof.
split; [exact tidy_nil |]. intros Htidy.
split; [| split; [| split; [| split]]].
- unfold handleAddTime. rewrite addTime_guard.
  destruct (isValidTime (newTime u)) eqn:Ev; cbn [negb]; [| exact Htidy].
  destruct (decide (newTime u ∈ schedule (settings u))) as [Hin | Hnin].
  + rewrite bool_decide_eq_true_2 by exact Hin. exact Htidy.
  + rewrite bool_decide_eq_false_2 by exact Hnin. cbn.
    apply (add_tidy _ _ Htidy Ev Hnin).
- intros t. cbn. destruct (remove_tidy _ t Htidy) as [Ht Hin].
  split; [exact Ht |]. intros H. apply Hin in H. tauto.
- reflexivity.
- apply strict_sorted, Htidy.
- apply tidy_minutes, Htidy.
Qed.

Lemma schedule_stays_tidy_witness :
  let u := {| settings := {| enabled := true; schedule := ["09:00"; "20:00"];
                             lastNotificationDate := "" |};
              newTime := "14:30"; saveError := None |} in
  tidy (schedule (settings (handleAddTime u))).
Proof.
intros u.
apply (proj2 (schedule_stays_tidy u)).
split; repeat constructor.
Defined.

Lemma requestNotificationPermission_posted e p :
  posted (requestNotificationPermission e p).2 = posted p.
Proof.
unfold requestNotificationPermission.
destruct (negb _); [reflexivity |].
destruct (notificationPermission e); simpl; auto.
destruct (requestPermission e) as [err | result]; simpl; auto.
destruct (decide (result = Granted)); simpl; auto.
Qed.

(** [handleSaveSettings] writes the settings to storage before anything
    else, so that they are what [getNotificationSettings] returns next
    however the scheduling goes.  With notifications disabled or an empty
    schedule it cancels, leaving no recorded timer armed; when permission is
    neither held nor obtained it sets its error and touches no timer. *)
Theorem handleSaveSettings_stores_first (e : env) (u : ui) (p : page)
    (ctx : Storage.context) :
  Storage.capable ctx ->
  (forall u' p' ctx',
     handleSaveSettings e u p ctx = Some (u', p', ctx') ->
     Storage.getNotificationSettings ctx'
     = Some (Storage.settingsValue (settings u))
     /\ settings u' = settings u /\ newTime u' = newTime u)
  /\ (enabled (settings u) = false \/ schedule (settings u) = [] ->
      tracked p ->
      exists u' p' ctx',
        handleSaveSettings e u p ctx = Some (u', p', ctx')
        /\ saveError u' = None
        /\ Timers.armed (loop p') = ∅ /\ scheduledTimeouts p' = ∅)
  /\ (enabled (settings u) = true -> schedule (settings u) <> [] ->
      permissionState p <> Granted ->
      (requestNotificationPermission e p).1 = false ->
      exists u' p' ctx',
        handleSaveSettings e u p ctx = Some (u', p', ctx')
        /\ saveError u' = Some "Notification permission is required"
        /\ loop p' = loop p /\ scheduledTimeouts p' = scheduledTimeouts p
        /\ posted p' = posted p).
Proof.
intros Hc.
assert (Storage.getNotificationSettings
          (Storage.setNotificationSettings
             (Storage.settingsValue (settings u)) ctx)
        = Some (Storage.settingsValue (settings u))) as Hread.
{ apply StorageFacts.read_write;
    [exact Hc | apply StorageFacts.settingsValue_jsonable | reflexivity]. }
split; [| split].
- intros u' p' ctx'. unfold handleSaveSettings.
  destruct (enabled (settings u) && _).
  + destruct (if decide (permissionState p = Granted) then _ else _)
      as [granted p1].
    destruct granted; cbn [negb].
    * destruct (scheduleNotifications e (settings u) p1); [| discriminate].
      intros [= <- _ <-]. auto.
    * intros [= <- _ <-]. auto.
  + intros [= <- _ <-]. auto.
- intros Hoff Htracked. unfold handleSaveSettings.
  assert (enabled (settings u)
          && negb (bool_decide (schedule (settings u) = [])) = false) as ->.
  { destruct Hoff as [-> | ->]; [reflexivity |].
    rewrite bool_decide_eq_true_2 by reflexivity. apply andb_false_r. }
  eexists _, _, _. split; [reflexivity |]. split; [reflexivity |].
  destruct (HookFacts.cancelNotifications_timers e p) as [-> ->].
  split; [| reflexivity].
  apply TimersFacts.clearAll_recorded. exact Htracked.
- intros Hon Hne Hperm Hreq. unfold handleSaveSettings.
  rewrite Hon, bool_decide_eq_false_2 by exact Hne. cbn [andb negb].
  rewrite decide_False by exact Hperm.
  destruct (requestNotificationPermission e p) as [granted p1] eqn:E.
  cbn in Hreq. subst granted. cbn [negb].
  eexists _, _, _. split; [reflexivity |]. split; [reflexivity |].
  pose proof (HookFacts.requestNotificationPermission_frame e p) as [H1 H2].
  pose proof (requestNotificationPermission_posted e p) as H3.
  rewrite E in H1, H2, H3. auto.
Qed.

Lemma handleSaveSettings_stores_first_witness :
  let e := exampleEnv (FetchRejected None) in
  let u := {| settings := {| enabled := false; schedule := ["09:00"];
                             lastNotificationDate := "" |};
              newTime := ""; saveError := Some "old" |} in
  let ctx := Some {| Storage.items := ∅; Storage.getItemThrows := false;
                     Storage.setItemThrows := false |} in
  exists u' p' ctx',
    handleSaveSettings e u initial ctx = Some (u', p', ctx')
    /\ saveError u' = None
    /\ Timers.armed (loop p') = ∅ /\ scheduledTimeouts p' = ∅.
Proof.
intros e u ctx.
refine (proj1 (proj2 (handleSaveSettings_stores_first e u initial ctx _)) _ _).
- eexists. repeat split.
- left. reflexivity.
- intros id [a H]. cbn in H. rewrite lookup_empty in H. discriminate.
Defined.

End SettingsUIFacts.

(** ** /api/notifications/schedule after /api/settings/notifications *)

Module ScheduleRouteFacts.
Import Value Auth SettingsRoute ScheduleRoute SettingsRouteMore.

(** A request the settings route lets in passes the schedule route too. *)
Lemma settings_auth_schedule API_KEY h :
  validateApiKey_settings API_KEY h = true ->
  validateApiKey_schedule API_KEY h = true.
Proof.
unfold validateApiKey_settings, validateApiKey_schedule.
destruct API_KEY as [[| c k] |]; auto.
Qed.


Lemma entries_non_string items v :
  v ∈ items -> (forall s, v <> VStr s) -> entries items = None.
Proof.
intros Hin Hv. induction items as [| w items IH]; [inversion Hin |].
apply elem_of_cons in Hin as [<- | Hin].
- simpl. destruct v; try reflexivity. exfalso. eapply Hv. reflexivity.
- simpl. rewrite (IH Hin). destruct w; reflexivity.
Qed.



(** The settings route accepts a schedule entry that is not a string when
    its text has the HH:MM form; once such settings are stored with
    notifications enabled, every authorized GET of the schedule answers
    500, whatever the time and the bookmarks. *)
Theorem schedule_GET_fails_on_non_string_entry (tz now : Z)
    (API_KEY : option string) (h h' : headers) (sent v : value)
    (items : list value) (store : gmap string value)
    (randomBookmarks : option (list value)) :
  status (POST API_KEY h (Some sent) store).1 = 200 ->
  get sent "enabled" = Some (VBool true) ->
  get sent "schedule" = Some (VArr items) ->
  v ∈ items -> (forall s, v <> VStr s) ->
  validateApiKey_schedule API_KEY h' = true ->
  ScheduleRoute.GET tz now API_KEY h' (POST API_KEY h (Some sent) store).2
    randomBookmarks
  = Some Failed.
Proof.
intros Hok E1 E2 Hin Hv Hauth'.
destruct (POST_status API_KEY h (Some sent) store)
  as [(S & _) | [(S & _) | (_ & _ & Hs)]]; [cbv zeta in S; lia .. |].
destruct Hs as (body & enabled & items' & lnd & [= <-] & E1' & _ & E2' & _
                & _ & _ & Hr).
rewrite E1 in E1'. injection E1' as <-.
rewrite E2 in E2'. injection E2' as <-.
cbv zeta in Hr. rewrite Hr. cbn [snd].
unfold ScheduleRoute.GET. rewrite Hauth'. cbn [negb].
unfold ServerStorage.getServerNotificationSettings.
rewrite lookup_insert_eq. cbn [truthy negb get lookup_field].
rewrite !decide_True by reflexivity.
rewrite decide_False by discriminate.
rewrite decide_True by reflexivity. cbn [default from_option id truthy negb].
destruct items as [| w items']; [inversion Hin |].
cbv beta iota. rewrite (entries_non_string _ v Hin Hv). reflexivity.
Qed.

Lemma schedule_GET_fails_on_non_string_entry_witness :
  let h := {| authorization := None; x_api_key := Some "secret" |} in
  ScheduleRoute.GET 0 52200000 (Some "secret") h
    (POST (Some "secret") h (Some nestedBody) ∅).2 (Some [])
  = Some Failed.
Proof.
intros h.
apply (schedule_GET_fails_on_non_string_entry 0 52200000 (Some "secret") h h
         nestedBody (VArr [VStr "09:00"]) [VArr [VStr "09:00"]]).
- vm_compute. reflexivity.
- reflexivity.
- reflexivity.
- left.
- discriminate.
- reflexivity.
Defined.

(** The settings route lets nobody in while no key is configured. *)
Lemma settings_closed_without_key API_KEY h :
  API_KEY = None \/ API_KEY = Some EmptyString ->
  validateApiKey_settings API_KEY h = false.
Proof.
intros [-> | ->]; unfold validateApiKey_settings, headerKeyValid;
  cbn [matchesExpected bool_decide decide_rel];
  destruct (authorization h) as [a |], (x_api_key h) as [k |];
  rewrite ?andb_false_r; cbn; rewrite ?andb_false_r; reflexivity.
Qed.

(** While no API key is configured the settings route stores nothing,
    whatever is posted, so that the schedule route, which then lets every
    request in, never has a schedule: from the empty store its answer is
    always [null] for the next notification time. *)
Theorem no_key_no_schedule (tz now : Z) (API_KEY : option string)
    (requests : list (headers * option value)) (h : headers)
    (randomBookmarks : list value) :
  API_KEY = None \/ API_KEY = Some EmptyString ->
  let store :=
    foldl (fun st (req : headers * option value) =>
             (POST API_KEY req.1 req.2 st).2) ∅ requests in
  store = ∅
  /\ Forall (fun req : headers * option value =>
               status (POST API_KEY req.1 req.2 ∅).1 = 401) requests
  /\ ScheduleRoute.GET tz now API_KEY h store (Some randomBookmarks)
     = Some (Schedule None (preview randomBookmarks)).
Proof.
intros Hkey store.
assert (forall req : headers * option value,
          POST API_KEY req.1 req.2 ∅
          = (error 401 "Unauthorized: Invalid API key", ∅)) as Hpost.
{ intros req. unfold POST.
  rewrite (settings_closed_without_key _ _ Hkey). reflexivity. }
assert (store = ∅) as ->.
{ subst store. induction requests as [| req requests IH]; [reflexivity |].
  simpl. rewrite Hpost. exact IH. }
split; [reflexivity |]. split.
- apply Forall_forall. intros req _. rewrite Hpost. reflexivity.
- unfold ScheduleRoute.GET.
  assert (validateApiKey_schedule API_KEY h = true) as ->
    by (destruct Hkey as [-> | ->]; reflexivity).
  reflexivity.
Qed.

Lemma no_key_no_schedule_witness :
  let h := {| authorization := Some "Bearer anything"; x_api_key := None |} in
  let sent := VObj [("enabled", VBool true);
                    ("schedule", VArr [VStr "09:00"]);
                    ("lastNotificationDate", VStr "")] in
  ScheduleRoute.GET 0 52200000 None h
    (foldl (fun st (req : headers * option value) =>
              (POST None req.1 req.2 st).2) ∅ [(h, Some sent)])
    (Some [])
  = Some (Schedule None VNull).
Proof.
intros h sent.
apply (proj2 (proj2 (no_key_no_schedule 0 52200000 None [(h, Some sent)] h []
                       (or_introl eq_refl)))).
Defined.

End ScheduleRouteFacts.

(** ** Pagination of the home page *)

Module HomeFacts.
Import Value Home.

Lemma sent_nonempty (c : string) : c <> EmptyString -> sent (Some c) = Some c.
Proof. destruct c; [contradiction | reflexivity]. Qed.

Lemma sent_Some cursor c : sent cursor = Some c -> cursor = Some c /\ c <> EmptyString.
Proof.
destruct cursor as [[| x s] |]; try discriminate.
intros [= <-]. split; [reflexivity | discriminate].
Qed.

Lemma last_nonempty (l : list string) :
  Forall (fun c => c <> EmptyString) l -> sent (last l) = last l.
Proof.
intros Hall. destruct (last l) as [c |] eqn:E; [| reflexivity].
apply sent_nonempty. rewrite Forall_forall in Hall. apply Hall.
apply last_Some in E as [l' ->]. apply elem_of_app. right. left.
Qed.

(** From a settled state, a successful step to the next page gives a
    settled state, and stepping back from it gives the state before: the
    same bookmarks, cursor, history and page number.  Without a next cursor
    [handleNext] does nothing; a successful step back gives a settled
    state, and on the first page it changes nothing. *)
Theorem handlePrevious_undoes_handleNext
    (server : option string -> string + data) (st : home) :
  settled server st ->
  (sent (currentCursor st) = None -> handleNext server st = st)
  /\ (forall c d,
        sent (currentCursor st) = Some c -> server (Some c) = inr d ->
        settled server (handleNext server st)
        /\ shown (handleNext server st) = bookmarks d
        /\ cursorHistory (handleNext server st)
           = (cursorHistory st ++ [c])%list
        /\ currentPage (handleNext server st) = currentPage st + 1
        /\ handlePrevious server (handleNext server st) = st)
  /\ (forall d,
        server (last (removelast (cursorHistory st))) = inr d ->
        settled server (handlePrevious server st)
        /\ cursorHistory (handlePrevious server st)
           = removelast (cursorHistory st))
  /\ (cursorHistory st = [] -> handlePrevious server st = st).
Proof.
intros (Hshown & Hne & Hpage & Herr).
split; [| split; [| split]].
- intros H. unfold handleNext. rewrite H. reflexivity.
- intros c d Hc Hd. apply sent_Some in Hc as [Hc Hcne].
  assert (handleNext server st
          = {| shown := bookmarks d; more := hasMore d;
               cursorHistory := cursorHistory st ++ [c];
               currentCursor := nextCursor d;
               currentPage := currentPage st + 1; error := None |}) as Hnext.
  { unfold handleNext, fetchBookmarks. rewrite Hc, !sent_nonempty by exact Hcne.
    rewrite Hd. reflexivity. }
  rewrite Hnext. cbn [shown cursorHistory currentPage].
  split; [| split; [reflexivity | split; [reflexivity | split; [reflexivity |]]]].
  + unfold settled. cbn. rewrite last_snoc.
    split; [destruct d; exact Hd |]. split.
    * apply Forall_app. split; [exact Hne | repeat constructor; exact Hcne].
    * split; [| reflexivity]. rewrite length_app, Hpage. simpl. lia.
  + unfold handlePrevious. cbn [cursorHistory].
    destruct (cursorHistory st ++ [c])%list as [| x l] eqn:E.
    { destruct (cursorHistory st); discriminate. }
    rewrite <- E, removelast_last.
    unfold fetchBookmarks, withHistory. cbn.
    rewrite (last_nonempty _ Hne), Hshown. cbn.
    destruct st. cbn in *. f_equal; [lia | congruence].
- intros d Hd. unfold handlePrevious.
  destruct (cursorHistory st) as [| x l] eqn:E.
  + cbn in Hd. unfold fetchBookmarks, withHistory. cbn. rewrite Hd. cbn.
    split; [| reflexivity]. unfold settled. cbn.
    split; [destruct d; exact Hd |]. repeat split. constructor.
  + assert (Forall (fun c => c <> EmptyString) (removelast (x :: l))) as Hne'.
    { rewrite Forall_forall in *. intros c Hin. apply Hne.
      destruct (exists_last (l := x :: l) ltac:(discriminate)) as (l' & a & E').
      rewrite E' in *. rewrite removelast_last in Hin.
      apply elem_of_app. left. exact Hin. }
    unfold fetchBookmarks, withHistory. cbn [cursorHistory currentPage].
    rewrite (last_nonempty _ Hne'), Hd. cbn [default from_option id].
    split; [| reflexivity]. unfold settled. cbn [shown more cursorHistory
      currentCursor currentPage error].
    split; [destruct d; exact Hd |]. split; [exact Hne' |].
    split; [| reflexivity]. rewrite Hpage.
    destruct (exists_last (l := x :: l) ltac:(discriminate)) as (l' & a & E').
    rewrite E', removelast_last, length_app. simpl. lia.
- intros E. unfold handlePrevious. rewrite E.
  unfold fetchBookmarks, withHistory. cbn.
  rewrite E in Hshown, Hpage. cbn in Hshown, Hpage. rewrite Hshown. cbn.
  destruct st. cbn in *. subst. reflexivity.
Qed.

Lemma handlePrevious_undoes_handleNext_witness :
  let page1 := {| bookmarks := [VStr "a"]; hasMore := true;
                  nextCursor := Some "c1" |} in
  let page2 := {| bookmarks := [VStr "b"]; hasMore := false;
                  nextCursor := None |} in
  let server (cursor : option string) :=
    match cursor with
    | None => inr page1
    | Some _ => inr page2
    end in
  let st := {| shown := [VStr "a"]; more := true; cursorHistory := [];
               currentCursor := Some "c1"; currentPage := 1;
               error := None |} in
  shown (handleNext server st) = [VStr "b"]
  /\ handlePrevious server (handleNext server st) = st.
Proof.
intros page1 page2 server st.
assert (settled server st) as Hs by (repeat split; constructor).
destruct (proj1 (proj2 (handlePrevious_undoes_handleNext server st Hs))
            "c1" page2 eq_refl eq_refl) as (_ & H1 & _ & _ & H2).
split; [exact H1 | exact H2].
Defined.

End HomeFacts.

(** ** Bookmarks from Notion *)

Module NotionFacts.
Import Notion.

Lemma collect_chain getBookmarks pages : forall fuel cursor acc,
  chain getBookmarks cursor pages -> (List.length pages <= fuel)%nat ->
  collect getBookmarks fuel cursor acc
  = Returned (acc ++ List.concat (List.map bookmarks pages))%list.
Proof.
induction pages as [| r pages IH]; intros fuel cursor acc Hchain Hfuel;
  [contradiction |].
destruct fuel as [| f]; [simpl in Hfuel; lia |].
destruct pages as [| r' pages'].
- destruct Hchain as [Hr Hlast]. simpl. rewrite Hr, Hlast, app_nil_r.
  reflexivity.
- destruct Hchain as (Hr & Hmore & Hrest).
  cbn [collect]. rewrite Hr, Hmore.
  rewrite (IH f _ _ Hrest) by (simpl in *; lia).
  cbn [List.map List.concat]. rewrite <- app_assoc. reflexivity.
Qed.

(** [getAllBookmarks] reads the pages of the database in order, following
    the cursors, returns their bookmarks joined, and keeps them with the
    time of the call.  For the next five minutes every call returns the kept
    list without asking Notion, whatever Notion would answer; from then on
    the list is read again.  A call that fails leaves what was kept. *)
Theorem getAllBookmarks_cache
    (getBookmarks : option string -> option result) (pages : list result)
    (fuel : nat) (now : Z) (c : cache) :
  chain getBookmarks None pages -> (List.length pages <= fuel)%nat ->
  (forall cached, cachedBookmarks c = Some cached ->
                  CACHE_TTL <= now - cacheTimestamp c) ->
  let allBookmarks := List.concat (List.map bookmarks pages) in
  let c' := {| cachedBookmarks := Some allBookmarks; cacheTimestamp := now |} in
  getAllBookmarks getBookmarks fuel now c = (Returned allBookmarks, c')
  /\ (forall getBookmarks' fuel' later,
        later - now < CACHE_TTL ->
        getAllBookmarks getBookmarks' fuel' later c'
        = (Returned allBookmarks, c'))
  /\ (forall getBookmarks' fuel' later,
        CACHE_TTL <= later - now ->
        getAllBookmarks getBookmarks' fuel' later c'
        = match collect getBookmarks' fuel' None [] with
          | Returned l =>
              (Returned l,
               {| cachedBookmarks := Some l; cacheTimestamp := later |})
          | o => (o, c')
          end).
Proof.
intros Hchain Hfuel Hstale allBookmarks c'.
split; [| split].
- unfold getAllBookmarks.
  rewrite (collect_chain _ _ _ _ _ Hchain Hfuel). cbn [app].
  destruct (cachedBookmarks c) as [cached |] eqn:E; [| reflexivity].
  specialize (Hstale cached eq_refl).
  destruct (Z.ltb_spec (now - cacheTimestamp c) CACHE_TTL); [lia | reflexivity].
- intros getBookmarks' fuel' later Hfresh. unfold getAllBookmarks.
  cbn [cachedBookmarks cacheTimestamp c'].
  destruct (Z.ltb_spec (later - now) CACHE_TTL); [reflexivity | lia].
- intros getBookmarks' fuel' later Hold. unfold getAllBookmarks.
  cbn [cachedBookmarks cacheTimestamp c'].
  destruct (Z.ltb_spec (later - now) CACHE_TTL); [lia | reflexivity].
Qed.

Lemma getAllBookmarks_cache_witness :
  let b := {| id := "b1"; name := "n"; link := "#"; type := "t";
              status := "s" |} in
  let getBookmarks (cursor : option string) :=
    match cursor with
    | None => Some {| bookmarks := [b]; hasMore := true;
                      nextCursor := Some "c1" |}
    | Some _ => Some {| bookmarks := [b]; hasMore := false;
                        nextCursor := None |}
    end in
  getAllBookmarks getBookmarks 5 1000 noCache
  = (Returned [b; b],
     {| cachedBookmarks := Some [b; b]; cacheTimestamp := 1000 |}).
Proof.
intros b getBookmarks.
apply (proj1 (getAllBookmarks_cache getBookmarks
                [{| bookmarks := [b]; hasMore := true;
                    nextCursor := Some "c1" |};
                 {| bookmarks := [b]; hasMore := false;
                    nextCursor := None |}] 5 1000 noCache
                ltac:(repeat split) ltac:(simpl; lia)
                ltac:(discriminate))).
Defined.

Section Featured.
Variable randomIndex : nat -> nat -> nat.
Hypothesis randomIndex_bound : forall i n, (0 < n)%nat -> (randomIndex i n < n)%nat.

Lemma pick_spec count : forall i available featured,
  exists rest,
    (pick randomIndex count i available featured ++ rest)%list
    ≡ₚ (featured ++ available)%list
    /\ List.length (pick randomIndex count i available featured)
       = (List.length featured + min count (List.length available))%nat.
Proof.
induction count as [| count IH]; intros i available featured.
- exists available. simpl. split; [reflexivity | lia].
- destruct available as [| a available'].
  + exists []. simpl. split; [reflexivity | lia].
  + cbn [pick]. set (available := a :: available').
    set (index := randomIndex i (List.length available)).
    assert (index < List.length available)%nat as Hlt
      by (apply randomIndex_bound; simpl; lia).
    destruct (lookup_lt_is_Some_2 available index Hlt) as [b Hb].
    rewrite Hb.
    destruct (IH (S i) (delete index available) (featured ++ [b])%list)
      as (rest & Hperm & Hlen).
    exists rest. split.
    * rewrite Hperm, <- app_assoc. apply Permutation_app_head.
      cbn [app]. symmetry. apply delete_Permutation, Hb.
    * rewrite Hlen, length_app, length_delete by eauto.
      subst available. simpl in *. lia.
Qed.

End Featured.

(** [getFeaturedBookmarks] returns three bookmarks, or all of them when
    there are fewer, each taken from a different place of the list: the
    result, with the bookmarks left over, is a rearrangement of the list, so
    that none is returned twice unless the list holds it twice. *)
Theorem getFeaturedBookmarks_distinct (randomIndex : nat -> nat -> nat)
    (allBookmarks : list Bookmark) :
  (forall i n, (0 < n)%nat -> (randomIndex i n < n)%nat) ->
  let featured := getFeaturedBookmarks randomIndex allBookmarks in
  List.length featured = min 3 (List.length allBookmarks)
  /\ (exists rest, (featured ++ rest)%list ≡ₚ allBookmarks)
  /\ (NoDup allBookmarks -> NoDup featured)
  /\ (forall b, b ∈ featured -> b ∈ allBookmarks).
Proof.
intros Hbound featured.
assert (List.length featured = min 3 (List.length allBookmarks)
        /\ exists rest, (featured ++ rest)%list ≡ₚ allBookmarks)
  as [Hlen (rest & Hperm)].
{ subst featured. unfold getFeaturedBookmarks.
  destruct allBookmarks as [| b l].
  - split; [reflexivity | exists []; reflexivity].
  - destruct (pick_spec randomIndex Hbound 3 0%nat (b :: l) [])
      as (rest & Hperm & Hlen).
    split; [exact Hlen | exists rest; exact Hperm]. }
split; [exact Hlen |]. split; [exists rest; exact Hperm |]. split.
- intros Hnd. rewrite <- Hperm in Hnd. apply NoDup_app in Hnd. tauto.
- intros b Hb. rewrite <- Hperm. apply elem_of_app. left. exact Hb.
Qed.

Lemma getFeaturedBookmarks_distinct_witness :
  let b (i : string) := {| id := i; name := "n"; link := "#"; type := "t";
                           status := "s" |} in
  List.length
    (getFeaturedBookmarks (fun _ _ => 0%nat) [b "1"; b "2"; b "3"; b "4"])
  = 3%nat.
Proof.
intros b.
apply (proj1 (getFeaturedBookmarks_distinct (fun _ _ => 0%nat)
                [b "1"; b "2"; b "3"; b "4"]
                ltac:(intros i n H; exact H))).
Defined.

End NotionFacts.

(** ** The ids the flashcard hook excludes reach the route unchanged *)

Module FlashcardsRouteFacts.
Import Value FlashcardsRoute.

Lemma rev_app_rev_app (s a b : string) :
  String.rev_app (String.rev_app s a) b = String.rev_app a (s +:+ b).
Proof.
revert a b. induction s as [| c s IH]; intros a b; [reflexivity |].
cbn [String.rev_app]. rewrite IH. reflexivity.
Qed.

Lemma rev_rev_app (s : string) : String.rev (String.rev_app s "") = s.
Proof.
unfold String.rev. rewrite rev_app_rev_app. cbn [String.rev_app].
induction s as [| c s IH]; [reflexivity |].
change (String c s +:+ "") with (String c (s +:+ "")). rewrite IH. reflexivity.
Qed.

Lemma split_go_plain (sep : ascii) (s : string) : forall cur rest,
  Forall (fun c => c <> sep) (list_ascii_of_string s) ->
  JS.split_go sep cur (s +:+ rest)
  = JS.split_go sep (String.rev_app s cur) rest.
Proof.
induction s as [| c s IH]; intros cur rest Hs; [reflexivity |].
cbn [list_ascii_of_string] in Hs. apply Forall_cons in Hs as [Hc Hs].
change (String c s +:+ rest) with (String c (s +:+ rest)).
cbn [JS.split_go]. rewrite decide_False by exact Hc.
rewrite IH by exact Hs. reflexivity.
Qed.

Lemma split_join (ids : list string) :
  ids <> [] ->
  Forall (fun id => Forall (fun c => c <> ","%char) (list_ascii_of_string id))
    ids ->
  JS.split "," (join "," ids) = ids.
Proof.
intros Hne Hall. unfold JS.split.
induction Hall as [| id ids Hid Hall IH]; [contradiction |].
destruct ids as [| id' ids'].
- cbn [join].
  rewrite <- (JsonStringFacts.append_nil_r id) at 1.
  rewrite split_go_plain by exact Hid. cbn [JS.split_go].
  rewrite rev_rev_app. reflexivity.
- change (join "," (id :: id' :: ids'))
    with (id +:+ "," +:+ join "," (id' :: ids')).
  rewrite split_go_plain by exact Hid.
  change ("," +:+ join "," (id' :: ids'))
    with (String "," (join "," (id' :: ids'))).
  cbn [JS.split_go]. rewrite decide_True by reflexivity.
  rewrite rev_rev_app, IH by discriminate. reflexivity.
Qed.

Lemma join_nonempty (ids : list string) :
  ids <> [] -> Forall plain ids -> join "," ids <> EmptyString.
Proof.
intros Hne Hall. destruct Hall as [| id ids (Hid & _) _]; [contradiction |].
destruct id as [| c id]; [contradiction |].
destruct ids; discriminate.
Qed.

(** The ids the hook sends are the ids the route excludes: for ids as
    Notion gives them, the route reads back from the query parameter exactly
    the reviewed ids followed by the skipped ones, and counts as available
    the bookmarks whose id is not among them; with no id the parameter is
    left out and every bookmark counts. *)
Theorem excludeIds_round_trip (reviewedIds skippedIds : list string)
    (allBookmarks : list Notion.Bookmark) :
  Forall plain reviewedIds -> Forall plain skippedIds ->
  let ids := (reviewedIds ++ skippedIds)%list in
  let read := excludeIds (excludeIdsParam reviewedIds skippedIds) in
  read = (match ids with [] => None | _ => Some ids end)
  /\ availableCount allBookmarks read
     = Z.of_nat (List.length
                   (List.filter
                      (fun bookmark =>
                         negb (bool_decide (Notion.id bookmark ∈ ids)))
                      allBookmarks))
  /\ 0 <= availableCount allBookmarks read
     <= Z.of_nat (List.length allBookmarks).
Proof.
intros Hr Hs ids read.
assert (Forall plain ids) as Hall by (apply Forall_app; split; assumption).
assert (read = match ids with [] => None | _ => Some ids end) as Hread.
{ subst read. unfold excludeIdsParam. fold ids.
  destruct ids as [| id ids'] eqn:E; [reflexivity |].
  pose proof (join_nonempty (id :: ids') ltac:(discriminate) Hall) as Hj.
  destruct (join "," (id :: ids')) as [| c param] eqn:Ej; [contradiction |].
  unfold excludeIds. rewrite <- Ej, split_join; [| discriminate |].
  - f_equal. clear - Hall.
    induction Hall as [| x l (Hx & Ht & _) _ IH]; [reflexivity |].
    cbn [List.map List.filter]. rewrite Ht.
    rewrite bool_decide_eq_false_2 by exact Hx. cbn [negb]. f_equal. exact IH.
  - eapply Forall_impl; [exact Hall |]. intros x (_ & _ & Hx). exact Hx. }
split; [exact Hread |].
assert (availableCount allBookmarks read
        = Z.of_nat (List.length
                      (List.filter
                         (fun bookmark =>
                            negb (bool_decide (Notion.id bookmark ∈ ids)))
                         allBookmarks))) as Hcount.
{ rewrite Hread. destruct ids as [| id ids']; [| reflexivity].
  cbn [availableCount]. f_equal. f_equal.
  induction allBookmarks as [| b l IH]; [reflexivity |].
  cbn [List.filter].
  rewrite bool_decide_eq_false_2 by apply not_elem_of_nil.
  cbn [negb]. f_equal. exact IH. }
split; [exact Hcount |]. rewrite Hcount.
pose proof (filter_length_le
              (fun bookmark => negb (bool_decide (Notion.id bookmark ∈ ids)))
              allBookmarks).
lia.
Qed.

Lemma excludeIds_round_trip_witness :
  excludeIds (excludeIdsParam ["a1"; "b2"] ["c3"]) = Some ["a1"; "b2"; "c3"].
Proof.
assert (forall id, id = "a1" \/ id = "b2" \/ id = "c3" -> plain id) as Hp.
{ intros id [-> | [-> | ->]]; (split; [discriminate |]);
    (split; [reflexivity |]); repeat constructor; discriminate. }
assert (Forall plain ["a1"; "b2"]) as H1.
{ apply Forall_forall. intros id Hid. apply Hp.
  rewrite !elem_of_cons, elem_of_nil in Hid. tauto. }
assert (Forall plain ["c3"]) as H2.
{ apply Forall_forall. intros id Hid. apply Hp.
  rewrite !elem_of_cons, elem_of_nil in Hid. tauto. }
apply (proj1 (excludeIds_round_trip ["a1"; "b2"] ["c3"] [] H1 H2)).
Defined.

End FlashcardsRouteFacts.
